(** * HGrid: the Tree/Leaf model and its row-store synchronisation

    A shallow embedding of [src/hgrid.js] (Tree, Leaf, the HGrid controller
    methods that add, remove, collapse and expand rows) and of the [onMoveRows]
    callback of [plugins/hgrid-draggable/src/hgrid-draggable.js].

    JavaScript objects are finite maps from property names to values, arrays
    are lists, mutable state (the id counter, the row store, the tree of node
    objects) is passed explicitly, and a thrown exception is an [Err] result. *)

From stdpp Require Import base option list gmap strings.
From Stdlib Require Import Ascii.

Open Scope string_scope.
Open Scope Z_scope.
Open Scope list_scope.

(** ** JavaScript values and objects *)

(** The values a property of a data object or of a row can hold.  Numbers are
    integers here (ids, depths and counters are), and [VNode r] is a reference
    to the Tree or Leaf object with identity [r].  A property whose value is
    [undefined] is not told apart from a property that is absent: reading
    either gives [None]. *)
Inductive value :=
| VNull
| VBool (b : bool)
| VNum (n : Z)
| VStr (s : string)
| VNode (r : nat).

#[global] Instance value_eq_dec : EqDecision value.
Proof. solve_decision. Defined.

(** JavaScript truthiness, as used by [if (data.id)], [!item._hidden], ... *)
Definition truthy (v : value) : bool :=
  match v with
  | VNull => false
  | VBool b => b
  | VNum n => negb (Z.eqb n 0)
  | VStr s => negb (String.eqb s "")
  | VNode _ => true
  end.

Definition truthy_opt (o : option value) : bool := from_option truthy false o.

(** A data object: its scalar properties, and its [children] property when it
    holds an array of nested data objects.  Rows of the store are objects of
    the same shape. *)
#[local] Unset Elimination Schemes.
Inductive jsobj :=
| JsObj (props : gmap string value) (children : option (list jsobj)).
#[local] Set Elimination Schemes.

Definition props (o : jsobj) : gmap string value :=
  match o with JsObj p _ => p end.

Definition children_of (o : jsobj) : option (list jsobj) :=
  match o with JsObj _ c => c end.

Abbreviation item := jsobj (only parsing).

(** [o.k] *)
Definition getp (o : jsobj) (k : string) : option value := props o !! k.

(** [o.k = v] *)
Definition setp (k : string) (v : value) (o : jsobj) : jsobj :=
  JsObj (<[k := v]> (props o)) (children_of o).

(** [delete o.k] *)
Definition delp (k : string) (o : jsobj) : jsobj :=
  JsObj (delete k (props o)) (children_of o).

Definition empty_obj : jsobj := JsObj ∅ None.

(** Modelled from the spec: jQuery's [$.extend({}, a, b)] is not part of the
    repository; the spec calls its result a shallow-merged projection.  The
    properties of [a] are copied first and those of [b] second, so that [b]
    wins where both define a property. *)
Definition extend (a : jsobj) (b : option jsobj) : jsobj :=
  match b with
  | None => a
  | Some b =>
      JsObj (props b ∪ props a)
            (match children_of b with Some c => Some c | None => children_of a end)
  end.

Definition ROOT_ID : value := VStr "root".
Definition FILE : value := VStr "file".
Definition FOLDER : value := VStr "folder".

(** ** Errors *)

Inductive error :=
| HGridError (message : string)   (* [throw new HGridError(message)] *)
| TypeError                       (* property access on null or undefined, call of a non-function *)
| StoreError (message : string).  (* a string thrown by the row store *)

Inductive result (A : Type) :=
| Ok (a : A)
| Err (e : error).
Arguments Ok {A} a.
Arguments Err {A} e.

#[global] Instance result_ret : MRet result := λ A a, Ok a.
#[global] Instance result_bind : MBind result := λ A B f m,
  match m with
  | Ok a => f a
  | Err e => Err e
  end.

(** ** The row store *)

(** Modelled from the spec: the row store (SlickGrid's DataView) is an
    external collaborator; section 6 of the spec gives its contract: insert at
    an integer index, delete by id, replace all, get item by id, get item by
    index, get index by id, and a filter predicate.  The store is the array of
    its rows; a row is found by the value of its [id] property. *)
Abbreviation store := (list jsobj).

(** Modelled from the spec: whether a row is the one keyed by [id]. *)
Definition has_id (id : value) (it : jsobj) : bool :=
  bool_decide (getp it "id" = Some id).

(** Modelled from the spec: get row index by id; [None] is undefined. *)
Fixpoint getIdxById (id : value) (dv : store) : option nat :=
  match dv with
  | [] => None
  | it :: dv' => if has_id id it then Some 0%nat else S <$> getIdxById id dv'
  end.

(** Modelled from the spec: get item by row index. *)
Definition getItemByIdx (i : nat) (dv : store) : option jsobj := dv !! i.

(** Modelled from the spec: get item by id. *)
Definition getItemById (id : value) (dv : store) : option jsobj :=
  i ← getIdxById id dv; dv !! i.

(** Modelled from the spec: insert item at integer row index, as
    [items.splice(idx, 0, item)] does. *)
Definition insertItem (idx : nat) (it : jsobj) (dv : store) : store :=
  take idx dv ++ it :: drop idx dv.

(** Modelled from the spec: delete item by id; the store throws a string
    when it has no row with that id. *)
Definition deleteItem (id : value) (dv : store) : result store :=
  match getIdxById id dv with
  | None => Err (StoreError "Invalid id")
  | Some i => Ok (delete i dv)
  end.

(** Modelled from the spec: replace all items. *)
Definition setItems (data : list jsobj) (dv : store) : store := data.

(** Lookups by the value read from a property, which may be undefined. *)
Definition getIdxById_opt (id : option value) (dv : store) : option nat :=
  id ← id; getIdxById id dv.

Definition getItemById_opt (id : option value) (dv : store) : option jsobj :=
  id ← id; getItemById id dv.

(** [collapseFilter] *)
Definition collapseFilter (it : jsobj) : bool := negb (truthy_opt (getp it "_hidden")).

(** The rows the grid shows. *)
Definition visible (dv : store) : list jsobj := filter (fun it => collapseFilter it = true) dv.

(** ** Tree and Leaf *)

(** The id counter [idCounter], and the next free object identity. *)
Record alloc := { idCounter : Z; nextRef : nat }.

Definition getUID (s : alloc) : Z * alloc :=
  (idCounter s, {| idCounter := idCounter s + 1; nextRef := nextRef s |}).

(** The fields of a Tree or Leaf object.  [n_ref] is the identity of the
    object, [n_depth = None] is [depth === null], and [n_dataView] tells
    whether [dataView] refers to the grid's row store or is null. *)
Record info := {
  n_ref : nat;
  n_id : value;
  n_data : option jsobj;
  n_parentID : value;
  n_depth : option Z;
  n_dataView : bool
}.

#[local] Unset Elimination Schemes.
Inductive node :=
| Leaf (i : info)
| Tree (i : info) (children : list node).
#[local] Set Elimination Schemes.

Definition info_of (n : node) : info :=
  match n with Leaf i => i | Tree i _ => i end.

Definition node_children (n : node) : list node :=
  match n with Leaf _ => [] | Tree _ cs => cs end.

(** [if (data.id) { this.id = data.id; } else { this.id = getUID(); }] *)
Definition pick_id (data : jsobj) (s : alloc) : value * alloc :=
  match getp data "id" with
  | Some v => if truthy v then (v, s) else let '(u, s') := getUID s in (VNum u, s')
  | None => let '(u, s') := getUID s in (VNum u, s')
  end.

Definition fresh_ref (s : alloc) : nat * alloc :=
  (nextRef s, {| idCounter := idCounter s; nextRef := S (nextRef s) |}).

(** [new Tree(data)]; [new Tree()] when [data] is [None]. *)
Definition Tree_new (data : option jsobj) (s : alloc) : info * alloc :=
  match data with
  | None =>
      let '(r, s1) := fresh_ref s in
      ({| n_ref := r; n_id := ROOT_ID; n_data := None; n_parentID := VNull;
          n_depth := Some 0; n_dataView := true |}, s1)
  | Some d =>
      let '(id, s1) := pick_id d s in
      let '(r, s2) := fresh_ref s1 in
      ({| n_ref := r; n_id := id; n_data := Some d; n_parentID := VNull;
          n_depth := None; n_dataView := false |}, s2)
  end.

(** [new Leaf(data)] *)
Definition Leaf_new (data : jsobj) (s : alloc) : info * alloc :=
  let '(id, s1) := pick_id data s in
  let '(r, s2) := fresh_ref s1 in
  ({| n_ref := r; n_id := id; n_data := Some data; n_parentID := VNull;
      n_depth := None; n_dataView := false |}, s2).

Definition Leaf_fromObject (obj : jsobj) (s : alloc) : node * alloc :=
  let '(i, s') := Leaf_new obj s in (Leaf i, s').

(** [depth + 1], where [null + 1] is [1]. *)
Definition js_succ (d : option Z) : Z :=
  match d with Some d => d + 1 | None => 1 end.

Definition set_depth (d : option Z) (i : info) : info :=
  {| n_ref := n_ref i; n_id := n_id i; n_data := n_data i;
     n_parentID := n_parentID i; n_depth := d; n_dataView := n_dataView i |}.

Definition set_dataView (b : bool) (i : info) : info :=
  {| n_ref := n_ref i; n_id := n_id i; n_data := n_data i;
     n_parentID := n_parentID i; n_depth := n_depth i; n_dataView := b |}.

Definition map_info (f : info → info) (n : node) : node :=
  match n with
  | Leaf i => Leaf (f i)
  | Tree i cs => Tree (f i) cs
  end.

(** The three assignments at the head of [Tree.prototype.add]. *)
Definition attach (this : info) (component : node) : node :=
  map_info (fun c =>
    {| n_ref := n_ref c; n_id := n_id c; n_data := n_data c;
       n_parentID := n_id this;
       n_depth := Some (js_succ (n_depth this));
       n_dataView := n_dataView this |}) component.

(** [Tree.prototype.add(component)] without the store update: the component
    is attached and pushed onto [this.children]. *)
Definition push_child (this : info) (children : list node) (component : node) : list node :=
  children ++ [attach this component].

Definition is_file (o : jsobj) : bool := bool_decide (getp o "kind" = Some FILE).
Definition is_folder (o : jsobj) : bool := bool_decide (getp o "kind" = Some FOLDER).

(** The loop of [Tree.fromObject] over [children]. *)
Section fromObject_loop.
Variable fromObject : jsobj → info → alloc → node * alloc.
Variable tree : info.

Fixpoint fromObject_loop (children : list jsobj) (acc : list node) (s : alloc)
  : list node * alloc :=
  match children with
  | [] => (acc, s)
  | child :: rest =>
      if is_file child then
        let '(leaf, s') := Leaf_fromObject child s in
        fromObject_loop rest (push_child tree acc leaf) s'
      else
        let '(subtree, s') := fromObject child tree s in
        fromObject_loop rest (push_child tree acc subtree) s'
  end.
End fromObject_loop.

(** [Tree.fromObject(data, parent)] for an object [data]. *)
Fixpoint fromObject_object (data : jsobj) (parent : info) (s : alloc) {struct data}
  : node * alloc :=
  let '(t, s1) := Tree_new (Some data) s in
  let tree := set_depth (Some (js_succ (n_depth parent))) t in
  match data with
  | JsObj _ ch =>
      match ch with
      | Some children =>
          let '(cs, s2) := fromObject_loop fromObject_object tree children [] s1 in
          (Tree tree cs, s2)
      | None => (Tree tree [], s1)
      end
  end.

(** [Tree.fromObject(data)] for an array [data]. *)
Definition fromObject_array (data : list jsobj) (s : alloc) : node * alloc :=
  let '(tree, s1) := Tree_new None s in
  let '(cs, s2) := fromObject_loop fromObject_object tree data [] s1 in
  (Tree tree cs, s2).

(** The argument of [Tree.fromObject]: an array or an object. *)
Inductive jsdata :=
| DArr (l : list jsobj)
| DObj (o : jsobj).

Definition Tree_fromObject (data : jsdata) (parent : option info) (s : alloc)
  : result (node * alloc) :=
  match data with
  | DArr l => Ok (fromObject_array l s)
  | DObj o =>
      match parent with
      | Some p => Ok (fromObject_object o p s)
      | None => Err TypeError
      end
  end.

Definition depth_value (d : option Z) : value :=
  match d with Some d => VNum d | None => VNull end.

(** [{id: this.id, parentID: this.parentID, _node: this, depth: this.depth}] *)
Definition structural (i : info) : jsobj :=
  JsObj (<["id" := n_id i]> (<["parentID" := n_parentID i]>
          (<["_node" := VNode (n_ref i)]> (<["depth" := depth_value (n_depth i)]> ∅))))
        None.

(** The row of a node: [$.extend({}, {id: .., parentID: .., _node: .., depth: ..}, this.data)]. *)
Definition toItem (i : info) : jsobj := extend (structural i) (n_data i).

(** [toData(result)] with [result] given: the rows are pushed onto [result].
    A Tree that is not a root ([depth !== 0]) pushes its own row first. *)
Fixpoint toData_into (n : node) (result : list jsobj) {struct n} : list jsobj :=
  match n with
  | Leaf i => result ++ [toItem i]
  | Tree i cs =>
      let data := if bool_decide (n_depth i = Some 0) then result else result ++ [toItem i] in
      (fix loop (cs : list node) (data : list jsobj) {struct cs} : list jsobj :=
         match cs with
         | [] => data
         | child :: rest => loop rest (toData_into child data)
         end) cs data
  end.

(** What [toData()] returns: an array for a Tree, the row itself for a Leaf. *)
Inductive data_result :=
| DataArray (l : list jsobj)
| DataObject (o : jsobj).

Definition toData (n : node) : data_result :=
  match n with
  | Leaf i => DataObject (toItem i)
  | Tree _ _ => DataArray (toData_into n [])
  end.

(** ** Collapse and expand *)

(** [this.dataView.getItemById(this.id)].  The row object is denoted by its
    position in the store, which no collapse or expand changes; [None] is
    [undefined]. *)
Definition getItem (i : info) (dv : store) : result (option nat) :=
  if n_dataView i then Ok (getIdxById (n_id i) dv) else Err TypeError.

(** [item.k = v] on the row object [item]. *)
Definition set_row (item : option nat) (k : string) (v : value) (dv : store) : result store :=
  match item with
  | Some idx => Ok (alter (setp k v) idx dv)
  | None => Err TypeError
  end.

(** [item.k] on the row object [item]. *)
Definition read_row (item : option nat) (k : string) (dv : store) : option value :=
  idx ← item; it ← dv !! idx; getp it k.

(** [for (var i = 0, node; node = this.children[i]; i++) { body }] *)
Section for_each_child.
Variable body : node → store → result store.

Fixpoint for_each_child (children : list node) (dv : store) {struct children}
  : result store :=
  match children with
  | [] => Ok dv
  | node :: rest => dv' ← body node dv; for_each_child rest dv'
  end.
End for_each_child.

(** [Tree.prototype.collapse] and [Leaf.prototype.collapse]. *)
Fixpoint collapse (n : node) (hideSelf : bool) (dv : store) {struct n} : result store :=
  match n with
  | Leaf i =>
      item ← getItem i dv;
      dv1 ← set_row item "_hidden" (VBool true) dv;
      set_row item "_collapsed" (VBool true) dv1
  | Tree i cs =>
      item ← getItem i dv;
      dv1 ← (if hideSelf then set_row item "_hidden" (VBool true) dv
             else dv' ← set_row item "_collapsed" (VBool true) dv;
                  set_row item "_hidden" (VBool false) dv');
      for_each_child (λ node dv, collapse node true dv) cs dv1
  end.

(** [Tree.prototype.expand] and [Leaf.prototype.expand]. *)
Fixpoint expand (n : node) (notFirst : bool) (dv : store) {struct n} : result store :=
  match n with
  | Leaf i =>
      item ← getItem i dv;
      dv1 ← set_row item "_hidden" (VBool false) dv;
      set_row item "_collapsed" (VBool false) dv1
  | Tree i cs =>
      item ← getItem i dv;
      dv1 ← (if notFirst then Ok dv else set_row item "_collapsed" (VBool false) dv);
      dv2 ← set_row item "_hidden" (VBool false) dv1;
      for_each_child
        (λ node dv,
           if negb (truthy_opt (read_row item "_collapsed" dv)) then expand node true dv
           else Ok dv) cs dv2
  end.

(** [Tree.prototype.isCollapsed]; a Leaf has no such method, and the call on
    a Leaf throws. *)
Definition isCollapsed (n : node) (dv : store) : result (option value) :=
  match n with
  | Leaf _ => Err TypeError
  | Tree i _ =>
      item ← getItem i dv;
      match item with
      | Some _ => Ok (read_row item "_collapsed" dv)
      | None => Err TypeError
      end
  end.

(** ** Adding a component, with the store update *)

(** [computeAddIdx]: the row after the row named by [item.parentID], or 0. *)
Definition computeAddIdx (it : jsobj) (dv : store) : nat :=
  match getItemById_opt (getp it "parentID") dv with
  | Some parent =>
      match getIdxById_opt (getp parent "id") dv with
      | Some idx => S idx
      | None => 0%nat
      end
  | None => 0%nat
  end.

(** The loop of [insertIntoDataView] over the rows of a Tree; without a
    store, [this.dataView.insertItem] is a call on null. *)
Fixpoint insert_rows (this : info) (data : list jsobj) (dv : store) {struct data}
  : result store :=
  match data with
  | [] => Ok dv
  | datum :: rest =>
      if n_dataView this
      then insert_rows this rest (insertItem (computeAddIdx datum dv) datum dv)
      else Err TypeError
  end.

(** [Tree.prototype.insertIntoDataView] *)
Definition insertIntoDataView (this : info) (component : node) (dv : store) : result store :=
  match toData component with
  | DataArray data => insert_rows this data dv
  | DataObject data =>
      if n_dataView this then Ok (insertItem (computeAddIdx data dv) data dv)
      else Err TypeError
  end.

(** [Tree.prototype.add] on the Tree with fields [this] and children
    [children]: the new list of children and the new store. *)
Definition Tree_add (this : info) (children : list node) (component : node)
    (updateDataView : bool) (dv : store) : result (list node * store) :=
  let children' := push_child this children component in
  if updateDataView then
    dv' ← insertIntoDataView this (attach this component) dv; Ok (children', dv')
  else Ok (children', dv).

(** [Tree.prototype.ensureDataView] and [Leaf.prototype.ensureDataView];
    [dataView = false] is a missing or null argument. *)
Fixpoint ensureDataView (n : node) (dataView : bool) {struct n} : node :=
  match n with
  | Leaf i => Leaf (set_dataView (if dataView then dataView else n_dataView i) i)
  | Tree i cs =>
      let dataView := if dataView then dataView else n_dataView i in
      Tree (set_dataView dataView i) (map (fun c => ensureDataView c dataView) cs)
  end.

Definition no_dataview_msg : string :=
  "Tree does not have a DataView. updateDataView must be called on a root node.".

(** [Tree.prototype.updateDataView]; a Leaf has no such method. *)
Definition updateDataView (n : node) (dv : store) : result (node * store) :=
  match n with
  | Leaf _ => Err TypeError
  | Tree i _ =>
      if n_dataView i then
        let n' := ensureDataView n false in
        Ok (n', setItems (toData_into n' []) dv)
      else Err (HGridError no_dataview_msg)
  end.

(** ** The grid controller *)

(** The state of a grid: the root Tree, the row store it owns, and the global
    allocation state. *)
Record hgrid := {
  tree : node;
  dataView : store;
  ids : alloc
}.

(** The options the constructor looks at.  [opt_data] is the [data] option:
    [None] when absent or null, and otherwise the value of its [data]
    property, which is absent, an array or an object. *)
Record options := {
  opt_data : option (option jsdata);
  opt_ajaxSource : option value;
  opt_uploads : bool
}.

Definition dquote : string := String (Ascii.ascii_of_nat 34) EmptyString.

Definition both_sources_msg : string :=
  String.append "Cannot specify both "
    (String.append dquote (String.append "data"
      (String.append dquote (String.append " and "
        (String.append dquote (String.append "ajaxSource" dquote)))))).

Definition no_dropzone_msg : string := "uploads=true requires DropZone to be loaded".

(** [HGrid.prototype.init]; [dropzone] tells whether the Dropzone library is
    loaded.  Setting sizes and classes, building the grid and wiring the
    listeners belong to the external collaborators and leave the state as it is. *)
Definition HGrid_init (dropzone : bool) (o : options) (g : hgrid) : result hgrid :=
  if opt_uploads o then
    if dropzone then Ok g else Err (HGridError no_dropzone_msg)
  else Ok g.

(** The constructor [HGrid(selector, options)]. *)
Definition HGrid_new (dropzone : bool) (o : options) (s : alloc) : result hgrid :=
  if bool_decide (is_Some (opt_data o)) && truthy_opt (opt_ajaxSource o) then
    Err (HGridError both_sources_msg)
  else
    g ← match opt_data o with
        | Some d =>
            '(t, s1) ← match d with
                       | Some d => Tree_fromObject d None s
                       | None => Err TypeError
                       end;
            '(t', dv) ← updateDataView t [];
            Ok {| tree := t'; dataView := dv; ids := s1 |}
        | None =>
            let '(i, s1) := Tree_new None s in
            Ok {| tree := Tree i []; dataView := []; ids := s1 |}
        end;
    HGrid_init dropzone o g.

(** [HGrid.prototype.getByID] *)
Definition getByID (id : option value) (g : hgrid) : option jsobj :=
  getItemById_opt id (dataView g).

(** [HGrid.prototype.removeItem] *)
Definition removeItem (id : option value) (g : hgrid) : result (option jsobj * hgrid) :=
  let item := getByID id g in
  dv' ← match id with
        | Some id => deleteItem id (dataView g)
        | None => Err (StoreError "Invalid id")
        end;
  Ok (item, {| tree := tree g; dataView := dv'; ids := ids g |}).

(** [id == null] *)
Definition is_nullish (id : option value) : bool :=
  match id with
  | None | Some VNull => true
  | _ => false
  end.

(** [HGrid.prototype.getNodeByID]: the value of the node reference. *)
Definition getNodeByID (id : option value) (g : hgrid) : result (option value) :=
  if bool_decide (id = Some ROOT_ID) || is_nullish id then
    Ok (Some (VNode (n_ref (info_of (tree g)))))
  else
    match getByID id g with
    | Some item => Ok (getp item "_node")
    | None => Err TypeError
    end.

(** The first of [cs] under which [find] finds something. *)
Section find_in.
Variable find : node → option node.

Fixpoint find_in (cs : list node) {struct cs} : option node :=
  match cs with
  | [] => None
  | c :: rest =>
      match find c with
      | Some x => Some x
      | None => find_in rest
      end
  end.
End find_in.

(** The node object with identity [r] in the tree under [n]. *)
Fixpoint find_node (r : nat) (n : node) {struct n} : option node :=
  if bool_decide (n_ref (info_of n) = r) then Some n
  else match n with
       | Leaf _ => None
       | Tree _ cs => find_in (find_node r) cs
       end.

(** The tree under [n] after the child list of the Tree object with identity
    [r] has become [cs']. *)
Fixpoint set_children (r : nat) (cs' : list node) (n : node) {struct n} : node :=
  match n with
  | Leaf i => Leaf i
  | Tree i cs =>
      if bool_decide (n_ref i = r) then Tree i cs'
      else Tree i (map (set_children r cs') cs)
  end.

(** [parentNode.add(node, true)], where [parentNode] is the value [target].
    Every node object that a row refers to hangs under the root, since no
    operation detaches a node; a reference that denotes no Tree has no [add]
    method to call. *)
Definition call_add (target : option value) (component : node) (g : hgrid) : result hgrid :=
  match target with
  | Some (VNode r) =>
      match find_node r (tree g) with
      | Some (Tree i cs) =>
          '(cs', dv') ← Tree_add i cs component true (dataView g);
          Ok {| tree := set_children r cs' (tree g); dataView := dv'; ids := ids g |}
      | _ => Err TypeError
      end
  | _ => Err TypeError
  end.

(** [HGrid.prototype.addItem]; the [onItemAdded] callback is the caller's. *)
Definition addItem (it : jsobj) (g : hgrid) : result (option jsobj * hgrid) :=
  let '(node, s1) :=
    if is_folder it then let '(i, s1) := Tree_new (Some it) (ids g) in (Tree i [], s1)
    else let '(i, s1) := Leaf_new it (ids g) in (Leaf i, s1) in
  let g1 := {| tree := tree g; dataView := dataView g; ids := s1 |} in
  parentNode ← (if is_nullish (getp it "parentID")
                then Ok (Some (VNode (n_ref (info_of (tree g1)))))
                else getNodeByID (getp it "parentID") g1);
  g2 ← call_add parentNode node g1;
  Ok (getByID (Some (n_id (info_of node))) g2, g2).

(** [HGrid.prototype.addItems]; the batch brackets only delay notifications. *)
Fixpoint addItems (items : list jsobj) (g : hgrid) {struct items} : result hgrid :=
  match items with
  | [] => Ok g
  | it :: rest => '(_, g') ← addItem it g; addItems rest g'
  end.

(** ** Drag and drop: [onMoveRows] *)

(** [o.k = v] where [v] may be undefined. *)
Definition setp_opt (k : string) (v : option value) (o : jsobj) : jsobj :=
  match v with
  | Some v => setp k v o
  | None => delp k o
  end.

(** The copy made of a moved row. *)
Definition move_copy (parentID : option value) (it : option jsobj) : jsobj :=
  let newItem := extend empty_obj it in
  let newItem := setp_opt "parentID" parentID newItem in
  let newItem := delp "depth" newItem in
  delp "_node" newItem.

Fixpoint remove_all (items : list jsobj) (g : hgrid) {struct items} : result hgrid :=
  match items with
  | [] => Ok g
  | it :: rest => '(_, g') ← removeItem (getp it "id") g; remove_all rest g'
  end.

(** [onMoveRows(event, args)] with [args.rows = rows] and the current drag
    target [folderTarget]. *)
Definition onMoveRows (folderTarget : option jsobj) (rows : list nat) (g : hgrid)
  : result hgrid :=
  let movedItems := map (fun rowIdx => getItemByIdx rowIdx (dataView g)) rows in
  parentID ← match folderTarget with
             | Some t => Ok (getp t "id")
             | None => Err TypeError
             end;
  let newItems := map (move_copy parentID) movedItems in
  g1 ← remove_all newItems g;
  addItems newItems g1.

(** ** Reference definitions used by the statements *)

(** The rows of a subtree in pre-order, without the accumulator of [toData]. *)
Fixpoint subtree_rows (n : node) {struct n} : list jsobj :=
  match n with
  | Leaf i => [toItem i]
  | Tree i cs =>
      (if bool_decide (n_depth i = Some 0) then [] else [toItem i]) ++ flat_map subtree_rows cs
  end.

(** The objects of a hierarchy in pre-order, each with its nesting level. *)
Fixpoint preorder (lvl : Z) (o : jsobj) {struct o} : list (jsobj * Z) :=
  (o, lvl) ::
  match o with
  | JsObj _ (Some cs) => flat_map (preorder (lvl + 1)) cs
  | JsObj _ None => []
  end.

(** A hierarchy is well formed when its files are leaves: an object of kind
    file has no nested objects. *)
Fixpoint wf_obj (o : jsobj) {struct o} : bool :=
  match o with
  | JsObj _ None => true
  | JsObj _ (Some cs) =>
      (if is_file o then bool_decide (cs = []) else true) && forallb wf_obj cs
  end.

(** [it] is the row projected from a node that holds the data object [ol.1]
    at depth [ol.2]. *)
Definition row_of (it : jsobj) (ol : jsobj * Z) : Prop :=
  ∃ i, n_data i = Some ol.1 ∧ n_depth i = Some ol.2 ∧ it = toItem i.

(** ** Concrete data: the end-to-end scenario of the spec *)

Definition obj (l : list (string * value)) (c : option (list jsobj)) : jsobj :=
  JsObj (list_to_map l) c.

Definition a_txt : jsobj := obj [("name", VStr "a.txt"); ("kind", FILE)] None.
Definition b_txt : jsobj := obj [("name", VStr "b.txt"); ("kind", FILE)] None.
Definition docs : jsobj := obj [("name", VStr "docs"); ("kind", FOLDER)] (Some [a_txt]).
Definition scenario : list jsobj := [docs; b_txt].

(** The state after [Tree.resetIDCounter()]. *)
Definition alloc0 : alloc := {| idCounter := 0; nextRef := 0 |}.

(** A file whose data carries a [depth] property of its own. *)
Definition depth7_file : jsobj :=
  obj [("name", VStr "a.txt"); ("kind", FILE); ("depth", VNum 7)] None.

Definition depth7_leaf : info :=
  {| n_ref := 1; n_id := VNum 5; n_data := Some depth7_file; n_parentID := ROOT_ID;
     n_depth := Some 1; n_dataView := true |}.

(** ** Nodes of a subtree and their rows *)

(** The nodes of a subtree in pre-order, the subtree's own root first. *)
Fixpoint subnodes (n : node) {struct n} : list node :=
  n :: match n with
       | Leaf _ => []
       | Tree _ cs => flat_map subnodes cs
       end.

(** The proper descendants of a node. *)
Definition descendants (n : node) : list node := flat_map subnodes (node_children n).

Definition node_id (n : node) : value := n_id (info_of n).

Definition is_tree (n : node) : bool :=
  match n with Tree _ _ => true | Leaf _ => false end.

(** A subtree is materialized in the store when each of its nodes refers to
    the store, the ids of its nodes are pairwise distinct, and the store has a
    row for each id. *)
Definition materialized (n : node) (dv : store) : Prop :=
  Forall (λ m, n_dataView (info_of m) = true ∧ is_Some (getIdxById (node_id m) dv))
         (subnodes n) ∧
  NoDup (map node_id (subnodes n)).

#[global] Instance materialized_dec (n : node) (dv : store) : Decision (materialized n dv).
Proof. unfold materialized. apply _. Defined.

Definition id_preserving (f : jsobj → jsobj) : Prop :=
  ∀ it, getp (f it) "id" = getp it "id".

(** ** A walk over a subtree that updates one row per node

    [collapse] and [expand] are both walks: a node updates its own row and
    then visits its children, unless its row tells it to stop. *)

Definition upd_row (item : option nat) (f : jsobj → jsobj) (dv : store) : result store :=
  match item with
  | Some idx => Ok (alter f idx dv)
  | None => Err TypeError
  end.

Section walk.
Variable self : node → bool → jsobj → jsobj.
Variable stop : jsobj → bool.

Definition stop_at (item : option nat) (dv : store) : bool :=
  from_option stop false (idx ← item; dv !! idx).

Fixpoint walk (n : node) (flag : bool) (dv : store) {struct n} : result store :=
  match n with
  | Leaf i => item ← getItem i dv; upd_row item (self n flag) dv
  | Tree i cs =>
      item ← getItem i dv;
      dv1 ← upd_row item (self n flag) dv;
      for_each_child
        (λ node dv, if stop_at item dv then Ok dv else walk node true dv) cs dv1
  end.

(** Whether the walk, at node [n] with [flag], leaves the children alone. *)
Definition stopped (n : node) (flag : bool) (dv : store) : bool :=
  from_option stop false (self n flag <$> getItemById (node_id n) dv).

(** The nodes a walk from [n] with [flag] visits, each with the flag it is
    visited with, read off the initial store. *)
Fixpoint visits (dv : store) (flag : bool) (n : node) {struct n} : list (node * bool) :=
  (n, flag) ::
  match n with
  | Leaf _ => []
  | Tree _ cs => if stopped n flag dv then [] else flat_map (visits dv true) cs
  end.

(** The effect of a walk that visits [V]: no row changes place or id, the
    row of a visited node is updated by [self], and all other rows stay. *)
Definition walk_post (V : list (node * bool)) (dv dv' : store) : Prop :=
  (∀ x, getIdxById x dv' = getIdxById x dv) ∧
  (∀ m f k, (m, f) ∈ V → getIdxById (node_id m) dv = Some k →
            dv' !! k = self m f <$> dv !! k) ∧
  (∀ k, (∀ m f, (m, f) ∈ V → getIdxById (node_id m) dv ≠ Some k) → dv' !! k = dv !! k).
End walk.

Definition is_collapsed_row (it : jsobj) : bool := truthy_opt (getp it "_collapsed").

(** What [collapse] does to the row of a node. *)
Definition collapse_self (n : node) (hideSelf : bool) : jsobj → jsobj :=
  match n with
  | Leaf _ => setp "_collapsed" (VBool true) ∘ setp "_hidden" (VBool true)
  | Tree _ _ =>
      if hideSelf then setp "_hidden" (VBool true)
      else setp "_hidden" (VBool false) ∘ setp "_collapsed" (VBool true)
  end.

(** What [expand] does to the row of a node. *)
Definition expand_self (n : node) (notFirst : bool) : jsobj → jsobj :=
  match n with
  | Leaf _ => setp "_collapsed" (VBool false) ∘ setp "_hidden" (VBool false)
  | Tree _ _ =>
      if notFirst then setp "_hidden" (VBool false)
      else setp "_hidden" (VBool false) ∘ setp "_collapsed" (VBool false)
  end.

(** The descendants that [expand] reaches from a node: the children of a
    folder are reached unless the folder's row is marked collapsed. *)
Fixpoint reached (dv : store) (n : node) {struct n} : list node :=
  n :: match n with
       | Leaf _ => []
       | Tree i cs =>
           if from_option is_collapsed_row false (getItemById (n_id i) dv) then []
           else flat_map (reached dv) cs
       end.

(** The row of a node. *)
Definition node_row (n : node) (dv : store) : option jsobj := getItemById (node_id n) dv.

(** The grid of the scenario after construction: the tree built from the
    hierarchy, with the store reference passed down, and the rows it projects. *)
Definition scenario_built : node * alloc := fromObject_array scenario alloc0.
Definition scenario_tree : node := ensureDataView scenario_built.1 false.
Definition scenario_store : store := toData_into scenario_tree [].
Definition scenario_grid : hgrid :=
  {| tree := scenario_tree; dataView := scenario_store; ids := scenario_built.2 |}.

(** The node of the docs folder. *)
Definition docs_node : node := nth 0 (node_children scenario_tree) scenario_tree.

Definition store_of (r : result store) : store :=
  match r with Ok dv => dv | Err _ => [] end.

(** The scenario store after the docs folder has been collapsed, and the node
    of a.txt. *)
Definition collapsed_store : store := store_of (collapse docs_node false scenario_store).

(** The ids of the rows of the store, in row order. *)
Definition row_ids (dv : store) : list (option value) := map (λ it, getp it "id") dv.

(** The id that the id counter gave to docs in the scenario. *)
Definition docs_id : value := VNum 0.

(** A new file for the docs folder of the scenario. *)
Definition new_txt : jsobj := obj [("name", VStr "new.txt"); ("kind", FILE)] None.
Definition new_leaf : node := (Leaf_fromObject new_txt (ids scenario_grid)).1.

Definition is_HGridError {A} (r : result A) : bool :=
  match r with
  | Err (HGridError _) => true
  | _ => false
  end.

(** The options that construct the grid of the scenario. *)
Definition scenario_options : options :=
  {| opt_data := Some (Some (DArr scenario)); opt_ajaxSource := None; opt_uploads := false |}.

(** The scenario grid after the docs folder has been collapsed. *)
Definition collapsed_grid : hgrid :=
  {| tree := scenario_tree; dataView := collapsed_store; ids := ids scenario_grid |}.

(** ** Concrete data: a grid with a second folder to move rows into *)

Definition pics : jsobj := obj [("name", VStr "pics"); ("kind", FOLDER)] None.
Definition move_hierarchy : list jsobj := [docs; b_txt; pics].
Definition move_built : node * alloc := fromObject_array move_hierarchy alloc0.
Definition move_tree : node := ensureDataView move_built.1 false.
Definition move_grid : hgrid :=
  {| tree := move_tree; dataView := toData_into move_tree []; ids := move_built.2 |}.

(** The row and the node of the pics folder. *)
Definition pics_row : jsobj := nth 3 (dataView move_grid) empty_obj.
Definition pics_id : value := VNum 3.

(** ** What a move makes of a row *)




(** ** Concrete data: a folder inside a folder *)

Definition x_txt : jsobj := obj [("name", VStr "x.txt"); ("kind", FILE)] None.
Definition y_txt : jsobj := obj [("name", VStr "y.txt"); ("kind", FILE)] None.
Definition inner : jsobj := obj [("name", VStr "inner"); ("kind", FOLDER)] (Some [x_txt]).
Definition outer : jsobj := obj [("name", VStr "outer"); ("kind", FOLDER)] (Some [inner; y_txt]).
Definition nested_tree : node := ensureDataView (fromObject_array [outer] alloc0).1 false.
Definition nested_store : store := toData_into nested_tree [].
Definition outer_node : node := nth 0 (node_children nested_tree) nested_tree.
Definition inner_node : node := nth 0 (node_children outer_node) outer_node.

(** The names of the visible rows. *)
Definition visible_names (dv : store) : list (option value) :=
  map (λ it, getp it "name") (visible dv).

(** ** Concrete data: rows that do not name their parent's row *)



(** ** Concrete data: moves that do not reparent as the row says *)



(** ** Formatting, and predicates for the further properties *)

(** [s.replace(/c/g, rep)]: every occurrence of the character [c] in [s] is
    replaced by the string [rep]. *)
Fixpoint replace_all (c : ascii) (rep : string) (s : string) : string :=
  match s with
  | EmptyString => EmptyString
  | String a s' =>
      if Ascii.eqb a c then rep +:+ replace_all c rep s'
      else String a (replace_all c rep s')
  end.

(** [sanitized(value)] for a string [value]: three passes, [&] first. *)
Definition sanitized_string (s : string) : string :=
  replace_all ">"%char "&gt;" (replace_all "<"%char "&lt;" (replace_all "&"%char "&amp;" s)).

(** [sanitized(value)]: a value that is not a string has no [replace]
    method, and the call throws. *)
Definition sanitized (v : option value) : result string :=
  match v with
  | Some (VStr s) => Ok (sanitized_string s)
  | _ => Err TypeError
  end.

(** The characters of a string. *)
Definition chars (s : string) : list ascii := String.list_ascii_of_string s.

(** The text that stands for one character in sanitized output. *)
Definition escape (a : ascii) : string :=
  if Ascii.eqb a "&"%char then "&amp;"
  else if Ascii.eqb a "<"%char then "&lt;"
  else if Ascii.eqb a ">"%char then "&gt;"
  else String a EmptyString.

(** A character that [sanitized] rewrites. *)
Definition special (a : ascii) : bool :=
  Ascii.eqb a "&"%char || Ascii.eqb a "<"%char || Ascii.eqb a ">"%char.

(** A node has its row when it refers to the store and the store has a row
    with its id. *)
Definition has_row (dv : store) (m : node) : Prop :=
  n_dataView (info_of m) = true ∧ is_Some (getIdxById (node_id m) dv).

(** [row'] is [row] up to the two flags that [collapse] and [expand] write. *)
Definition same_but_flags (row row' : jsobj) : Prop :=
  (∀ key, key ≠ "_hidden" → key ≠ "_collapsed" → getp row' key = getp row key) ∧
  children_of row' = children_of row.

(** The subtree of [N] is shown as an expanded folder shows it: the row of
    [N] is visible and not marked collapsed, and the row of a descendant is
    visible exactly when [expand] would reach it, that is when no folder
    between [N] and it is marked collapsed. *)
Definition expanded_view (N : node) (dv : store) : Prop :=
  from_option collapseFilter false (node_row N dv) = true ∧
  from_option is_collapsed_row true (node_row N dv) = false ∧
  Forall (λ m, from_option collapseFilter false (node_row m dv) =
               bool_decide (node_id m ∈
                 map node_id (flat_map (reached dv) (node_children N))))
         (descendants N).

#[global] Instance expanded_view_dec (N : node) (dv : store) : Decision (expanded_view N dv).
Proof. unfold expanded_view. apply _. Defined.

(** The nested store after [inner.collapse()]. *)
Definition inner_collapsed_store : store := store_of (collapse inner_node false nested_store).

(** Every object of a hierarchy satisfies [Q]. *)
Fixpoint all_objs (Q : jsobj → bool) (o : jsobj) {struct o} : bool :=
  Q o &&
  match o with
  | JsObj _ (Some cs) => forallb (all_objs Q) cs
  | JsObj _ None => true
  end.

(** The object has no [id] property. *)
Definition no_id (o : jsobj) : bool := bool_decide (getp o "id" = None).

(** The object has no [id] property, or one that [if (data.id)] accepts. *)
Definition id_usable (o : jsobj) : bool :=
  match getp o "id" with
  | Some v => truthy v
  | None => true
  end.

(** Every node below [n], and [n] itself, is linked to its children: a child
    carries the id of its parent as [parentID] and the parent's depth plus one
    as [depth]. *)
Definition linked (n : node) : Prop :=
  Forall (λ m, Forall (λ c, n_parentID (info_of c) = node_id m ∧
                             n_depth (info_of c) = Some (js_succ (n_depth (info_of m))))
                      (node_children m))
         (subnodes n).

(** The node holds a data object that satisfies [Q], and its id is the id of
    that object when the object has a usable one. *)
Definition holds_data (Q : jsobj → bool) (m : node) : Prop :=
  ∃ o, n_data (info_of m) = Some o ∧ Q o = true ∧
       (∀ v, getp o "id" = Some v → truthy v = true → node_id m = v).

(** What [Tree.fromObject(data, parent)] builds for an object: a subtree
    that is linked and lies one level below [parent], no node of which has the
    store yet, every node holding its data object. *)
Definition built (Q : jsobj → bool) (p : info) (n : node) : Prop :=
  n_depth (info_of n) = Some (js_succ (n_depth p)) ∧
  linked n ∧
  Forall (λ m, n_dataView (info_of m) = false) (subnodes n) ∧
  Forall (holds_data Q) (subnodes n).

(** The options of a grid over the hierarchy [H], without uploads. *)
Definition data_options (H : list jsobj) : options :=
  {| opt_data := Some (Some (DArr H)); opt_ajaxSource := None; opt_uploads := false |}.

(** A file whose [id] is the empty string. *)
Definition unnamed_id_file : jsobj :=
  obj [("name", VStr "z.txt"); ("kind", FILE); ("id", VStr "")] None.

(** The node that [addItem] creates for [it]: a Tree for a folder, a Leaf
    for anything else. *)
Definition new_node (it : jsobj) (s : alloc) : node :=
  if is_folder it then Tree (Tree_new (Some it) s).1 [] else Leaf (Leaf_new it s).1.

(** A new file for the docs folder, as [addItem] takes it. *)
Definition new_in_docs : jsobj :=
  obj [("name", VStr "new.txt"); ("kind", FILE); ("parentID", docs_id)] None.

(** What [addItem] returns and leaves, when it succeeds. *)
Definition added (it : jsobj) (g : hgrid) : option jsobj * hgrid :=
  match addItem it g with
  | Ok p => p
  | Err _ => (None, g)
  end.

(** An item that says neither file nor folder. *)
Definition misc_item : jsobj := obj [("name", VStr "misc")] None.

(** A new file for b.txt, which is a file. *)
Definition new_in_b_txt : jsobj :=
  obj [("name", VStr "new.txt"); ("kind", FILE); ("parentID", VNum 2)] None.

(** What [removeItem] returns and leaves, when it succeeds. *)
Definition removed (id : option value) (g : hgrid) : option jsobj * hgrid :=
  match removeItem id g with
  | Ok p => p
  | Err _ => (None, g)
  end.

(** * Properties *)

(** ** Induction principles for the nested types *)

Lemma jsobj_ind (P : jsobj → Prop) :
  (∀ p, P (JsObj p None)) →
  (∀ p cs, Forall P cs → P (JsObj p (Some cs))) →
  ∀ o, P o.
Proof.
  intros Hnone Hsome. fix IH 1. intros [p [cs|]]; [|apply Hnone].
  apply Hsome. induction cs as [|c cs IHcs]; constructor; [apply IH | exact IHcs].
Qed.

Lemma node_ind (P : node → Prop) :
  (∀ i, P (Leaf i)) →
  (∀ i cs, Forall P cs → P (Tree i cs)) →
  ∀ n, P n.
Proof.
  intros Hleaf Htree. fix IH 1. intros [i|i cs]; [apply Hleaf|].
  apply Htree. induction cs as [|c cs IHcs]; constructor; [apply IH | exact IHcs].
Qed.

(** ** Flattening *)

Lemma toData_loop_rows (cs : list node) :
  Forall (λ c, ∀ result, toData_into c result = result ++ subtree_rows c) cs →
  ∀ data,
    (fix loop (cs : list node) (data : list jsobj) {struct cs} : list jsobj :=
       match cs with
       | [] => data
       | child :: rest => loop rest (toData_into child data)
       end) cs data = data ++ flat_map subtree_rows cs.
Proof.
  induction 1 as [|c cs Hc _ IH]; intros data; simpl.
  - by rewrite app_nil_r.
  - by rewrite IH, Hc, <- app_assoc.
Qed.

(** [toData] appends the rows of the subtree in pre-order. *)
Lemma toData_into_rows (n : node) (result : list jsobj) :
  toData_into n result = result ++ subtree_rows n.
Proof.
  revert result. induction n as [i|i cs IH] using node_ind; intros result; [done|].
  cbn [toData_into subtree_rows]. rewrite (toData_loop_rows cs IH).
  case_bool_decide; [done|]. by rewrite <- app_assoc.
Qed.

(** ** Reading a projected row *)

Lemma getp_extend (a b : jsobj) (k : string) :
  getp (extend a (Some b)) k =
    match getp b k with Some v => Some v | None => getp a k end.
Proof.
  unfold getp, extend; simpl. rewrite lookup_union.
  destruct (props b !! k), (props a !! k); done.
Qed.

Lemma getp_toItem_user (i : info) (d : jsobj) (k : string) (v : value) :
  n_data i = Some d → getp d k = Some v → getp (toItem i) k = Some v.
Proof. intros Hd Hk. unfold toItem. rewrite Hd, getp_extend. by rewrite Hk. Qed.

Lemma getp_toItem_structural (i : info) (d : jsobj) (k : string) :
  n_data i = Some d → getp d k = None → getp (toItem i) k = getp (structural i) k.
Proof. intros Hd Hk. unfold toItem. rewrite Hd, getp_extend. by rewrite Hk. Qed.

Lemma getp_structural_depth (i : info) :
  getp (structural i) "depth" = Some (depth_value (n_depth i)).
Proof. done. Qed.

Lemma getp_structural_id (i : info) : getp (structural i) "id" = Some (n_id i).
Proof. done. Qed.

Lemma getp_structural_parentID (i : info) :
  getp (structural i) "parentID" = Some (n_parentID i).
Proof. done. Qed.


Lemma props_toItem_user (i : info) (d : jsobj) :
  n_data i = Some d → props d ⊆ props (toItem i).
Proof. intros Hd. unfold toItem. rewrite Hd. simpl. apply map_union_subseteq_l. Qed.

Lemma children_toItem (i : info) (d : jsobj) :
  n_data i = Some d → children_of (toItem i) = children_of d.
Proof. intros Hd. unfold toItem. rewrite Hd. simpl. by destruct (children_of d). Qed.

(** ** Building a tree from a hierarchy and flattening it *)

Lemma Leaf_new_fields (d : jsobj) (s : alloc) :
  n_data (Leaf_new d s).1 = Some d.
Proof. unfold Leaf_new. by destruct (pick_id d s), (fresh_ref _). Qed.

Lemma Tree_new_fields (d : jsobj) (s : alloc) :
  n_data (Tree_new (Some d) s).1 = Some d.
Proof. unfold Tree_new. by destruct (pick_id d s), (fresh_ref _). Qed.

Lemma js_succ_pred (lvl : Z) : js_succ (Some (lvl - 1)) = lvl.
Proof. unfold js_succ. lia. Qed.

Lemma preorder_file (o : jsobj) (lvl : Z) :
  is_file o = true → wf_obj o = true → preorder lvl o = [(o, lvl)].
Proof.
  destruct o as [p [cs|]]; [|done]. intros Hf Hwf. cbn [wf_obj] in Hwf.
  rewrite Hf in Hwf. apply andb_prop in Hwf as [Hnil _].
  apply bool_decide_eq_true in Hnil. by subst cs.
Qed.

Section fromObject_rows.
Variable tree : info.
Variable lvl : Z.
Hypothesis tree_depth : n_depth tree = Some (lvl - 1).
Hypothesis lvl_pos : 1 ≤ lvl.

Lemma rows_attach_Leaf_new (child : jsobj) (s : alloc) :
  Forall2 row_of (subtree_rows (attach tree (Leaf_fromObject child s).1)) [(child, lvl)].
Proof.
  unfold Leaf_fromObject. pose proof (Leaf_new_fields child s) as Hd.
  destruct (Leaf_new child s) as [i s']. simpl in *.
  repeat constructor. eexists. split_and!; [| |reflexivity]; simpl; [done|].
  by rewrite tree_depth, js_succ_pred.
Qed.

Lemma fromObject_loop_rows (children : list jsobj) :
  Forall (λ c, ∀ parent s l, wf_obj c = true → n_depth parent = Some (l - 1) → 1 ≤ l →
               Forall2 row_of (subtree_rows (attach parent (fromObject_object c parent s).1))
                              (preorder l c)) children →
  forallb wf_obj children = true →
  ∀ acc s, ∃ new,
    (fromObject_loop fromObject_object tree children acc s).1 = acc ++ new ∧
    Forall2 row_of (flat_map subtree_rows new) (flat_map (preorder lvl) children).
Proof.
  induction 1 as [|c cs Hc _ IH]; intros Hwf acc s; simpl.
  - exists []. by rewrite app_nil_r.
  - simpl in Hwf. apply andb_prop in Hwf as [Hwc Hwcs].
    destruct (is_file c) eqn:Hfile.
    + pose proof (rows_attach_Leaf_new c s) as Hrow.
      destruct (Leaf_fromObject c s) as [leaf s'].
      destruct (IH Hwcs (push_child tree acc leaf) s') as (new & Heq & Hrows).
      exists (attach tree leaf :: new). split.
      * rewrite Heq. unfold push_child. by rewrite <- app_assoc.
      * simpl. rewrite (preorder_file c lvl Hfile Hwc).
        apply Forall2_app; [exact Hrow | exact Hrows].
    + pose proof (Hc tree s lvl Hwc tree_depth lvl_pos) as Hrow.
      destruct (fromObject_object c tree s) as [subtree s'].
      destruct (IH Hwcs (push_child tree acc subtree) s') as (new & Heq & Hrows).
      exists (attach tree subtree :: new). split.
      * rewrite Heq. unfold push_child. by rewrite <- app_assoc.
      * simpl. apply Forall2_app; [exact Hrow | exact Hrows].
Qed.
End fromObject_rows.

Lemma fromObject_object_rows (o : jsobj) :
  ∀ parent s lvl, wf_obj o = true → n_depth parent = Some (lvl - 1) → 1 ≤ lvl →
    Forall2 row_of (subtree_rows (attach parent (fromObject_object o parent s).1)) (preorder lvl o).
Proof.
  induction o as [p|p cs IH] using jsobj_ind; intros parent s lvl Hwf Hd Hlvl.
  - cbn [fromObject_object preorder].
    pose proof (Tree_new_fields (JsObj p None) s) as Hdata.
    destruct (Tree_new (Some (JsObj p None)) s) as [t s1]. simpl in *.
    rewrite Hd, js_succ_pred. case_bool_decide; [simplify_eq; lia|].
    repeat constructor. eexists. split_and!; [| |reflexivity]; done.
  - cbn [fromObject_object preorder].
    pose proof (Tree_new_fields (JsObj p (Some cs)) s) as Hdata.
    destruct (Tree_new (Some (JsObj p (Some cs))) s) as [t s1].
    cbn [wf_obj] in Hwf. apply andb_prop in Hwf as [_ Hwcs].
    set (tree := set_depth (Some (js_succ (n_depth parent))) t).
    assert (Htd : n_depth tree = Some ((lvl + 1) - 1)).
    { subst tree. simpl. rewrite Hd, js_succ_pred. f_equal. lia. }
    destruct (fromObject_loop_rows tree (lvl + 1) Htd ltac:(lia) cs IH Hwcs [] s1)
      as (new & Heq & Hrows).
    destruct (fromObject_loop fromObject_object tree cs [] s1) as [cs' s2].
    simpl in Heq. subst cs'. simpl.
    rewrite Hd, js_succ_pred. case_bool_decide; [simplify_eq; lia|].
    constructor; [|exact Hrows].
    eexists. split_and!; [| |reflexivity]; done.
Qed.

Lemma fromObject_array_rows (H : list jsobj) (s : alloc) :
  forallb wf_obj H = true →
  Forall2 row_of (toData_into (fromObject_array H s).1 []) (flat_map (preorder 1) H).
Proof.
  intros Hwf. rewrite toData_into_rows. unfold fromObject_array.
  destruct (Tree_new None s) as [tree s1] eqn:Hnew.
  assert (Htd : n_depth tree = Some (1 - 1)).
  { unfold Tree_new in Hnew. destruct (fresh_ref s). by simplify_eq. }
  assert (IH : Forall (λ c, ∀ parent s l, wf_obj c = true → n_depth parent = Some (l - 1) →
                 1 ≤ l → Forall2 row_of (subtree_rows (attach parent (fromObject_object c parent s).1))
                                     (preorder l c)) H).
  { apply Forall_forall. intros c _. apply fromObject_object_rows. }
  destruct (fromObject_loop_rows tree 1 Htd ltac:(lia) H IH Hwf [] s1) as (new & Heq & Hrows).
  destruct (fromObject_loop fromObject_object tree H [] s1) as [cs s2].
  simpl in Heq. subst cs. simpl. rewrite Htd. simpl. exact Hrows.
Qed.

Lemma row_of_user_data (it : jsobj) (ol : jsobj * Z) :
  row_of it ol →
  props ol.1 ⊆ props it ∧ children_of it = children_of ol.1 ∧
  (getp ol.1 "depth" = None → getp it "depth" = Some (VNum ol.2)).
Proof.
  intros (i & Hd & Hl & ->). split_and!.
  - by apply props_toItem_user.
  - by apply children_toItem.
  - intros Hno. rewrite (getp_toItem_structural i _ _ Hd Hno), getp_structural_depth.
    by rewrite Hl.
Qed.

(** C1 (amended).  For every well-formed hierarchy [H] (files are leaves),
    [Tree.fromObject(H)] succeeds and [toData()] of the tree it builds is an
    array that lists, in the pre-order of [H] with children in input order and
    no row for the root, one row per object of [H]: the row is the projection
    of a node that holds that object at the object's nesting level (top level
    is 1), it keeps every property of the object, and its [depth] property is
    the nesting level whenever the object has no [depth] property of its own. *)
Theorem C1_fromObject_toData_preorder (H : list jsobj) (s : alloc) :
  forallb wf_obj H = true →
  ∃ t s' data,
    Tree_fromObject (DArr H) None s = Ok (t, s') ∧
    toData t = DataArray data ∧
    Forall2 (λ it ol,
               row_of it ol ∧
               props ol.1 ⊆ props it ∧
               children_of it = children_of ol.1 ∧
               (getp ol.1 "depth" = None → getp it "depth" = Some (VNum ol.2)))
            data (flat_map (preorder 1) H).
Proof.
  intros Hwf. pose proof (fromObject_array_rows H s Hwf) as Hrows.
  exists (fromObject_array H s).1, (fromObject_array H s).2,
         (toData_into (fromObject_array H s).1 []).
  split_and!.
  - simpl. by destruct (fromObject_array H s).
  - unfold fromObject_array.
    by destruct (Tree_new None s), (fromObject_loop _ _ _ _ _).
  - eapply Forall2_impl; [exact Hrows|]. intros it ol Hrow.
    split; [exact Hrow | by apply row_of_user_data].
Qed.

Lemma C1_fromObject_toData_preorder_witness :
  forallb wf_obj scenario = true ∧
  ∃ t s' data,
    Tree_fromObject (DArr scenario) None alloc0 = Ok (t, s') ∧
    toData t = DataArray data ∧
    Forall2 (λ it ol,
               row_of it ol ∧
               props ol.1 ⊆ props it ∧
               children_of it = children_of ol.1 ∧
               (getp ol.1 "depth" = None → getp it "depth" = Some (VNum ol.2)))
            data (flat_map (preorder 1) scenario).
Proof.
  split; [reflexivity|]. apply (C1_fromObject_toData_preorder scenario alloc0). reflexivity.
Defined.

(** C1 as stated fails: the one-file hierarchy [[depth7_file]] is well formed,
    yet the depth of its row is not its nesting level. *)
Lemma C1_depth_counterexample :
  forallb wf_obj [depth7_file] = true ∧
  ¬ Forall2 (λ it ol, getp it "depth" = Some (VNum ol.2))
      (toData_into (fromObject_array [depth7_file] alloc0).1 [])
      (flat_map (preorder 1) [depth7_file]).
Proof.
  split; [reflexivity|]. intros HF.
  assert (Hrows : ∃ it, toData_into (fromObject_array [depth7_file] alloc0).1 [] = [it] ∧
                        getp it "depth" = Some (VNum 7)).
  { eexists. split; reflexivity. }
  destruct Hrows as (it & Heq & Hd). rewrite Heq in HF.
  inversion HF as [|? ? ? ? Hlvl _]; subst. simpl in Hlvl. congruence.
Qed.

(** C9.  Both [Leaf.toData] and [Tree.toData] project a node as the merge of
    the structural fields first and the user data second: a property of the
    row is the user's when the data defines it and the structural one
    otherwise, so a user property [k], be it [id], [parentID], [depth] or
    [_node], overrides the structural value. *)
Theorem C9_user_data_overrides_structural (i : info) (d : jsobj) (k : string) (v : value) :
  n_data i = Some d →
  getp d k = Some v →
  toData (Leaf i) = DataObject (toItem i) ∧
  (∀ result, toData_into (Leaf i) result = result ++ [toItem i]) ∧
  (∀ cs result, n_depth i ≠ Some 0 →
     ∃ rest, toData_into (Tree i cs) result = result ++ toItem i :: rest) ∧
  (∀ k', getp (toItem i) k' =
         match getp d k' with Some v' => Some v' | None => getp (structural i) k' end) ∧
  getp (toItem i) k = Some v.
Proof.
  intros Hd Hk. split_and!.
  - done.
  - done.
  - intros cs result Hroot. exists (flat_map subtree_rows cs).
    rewrite toData_into_rows. cbn [subtree_rows]. by rewrite bool_decide_eq_false_2.
  - intros k'. unfold toItem. rewrite Hd. apply getp_extend.
  - by eapply getp_toItem_user.
Qed.

(** A row whose user data sets [depth] to 7 under a parent of depth 0: the
    projected depth is 7 and not 1. *)
Lemma C9_user_data_overrides_structural_witness :
  getp (toItem depth7_leaf) "depth" = Some (VNum 7) ∧
  getp (structural depth7_leaf) "depth" = Some (VNum 1).
Proof.
  split; [|reflexivity].
  apply (C9_user_data_overrides_structural depth7_leaf depth7_file "depth" (VNum 7)).
  - reflexivity.
  - reflexivity.
Defined.

(** ** Lookups in the row store *)

Lemma getIdxById_alter (f : jsobj → jsobj) (k : nat) (dv : store) (x : value) :
  id_preserving f → getIdxById x (alter f k dv) = getIdxById x dv.
Proof.
  intros Hf. unfold alter. revert k.
  induction dv as [|it dv IH]; intros [|k]; simpl; try done.
  - unfold has_id. by rewrite Hf.
  - by rewrite IH.
Qed.

Lemma getIdxById_Some (x : value) (dv : store) (k : nat) :
  getIdxById x dv = Some k → ∃ it, dv !! k = Some it ∧ getp it "id" = Some x.
Proof.
  revert k. induction dv as [|it dv IH]; intros k; simpl; [done|].
  destruct (has_id x it) eqn:Hid.
  - intros [= <-]. exists it. split; [done|]. by apply bool_decide_eq_true in Hid.
  - destruct (getIdxById x dv) as [j|]; simpl; [|done]. intros [= <-]. by apply IH.
Qed.

Lemma getIdxById_inj (x y : value) (dv : store) (k : nat) :
  getIdxById x dv = Some k → getIdxById y dv = Some k → x = y.
Proof.
  intros (it & Hit & Hx)%getIdxById_Some (it' & Hit' & Hy)%getIdxById_Some. congruence.
Qed.

Lemma getItemById_idx (x : value) (dv : store) (k : nat) :
  getIdxById x dv = Some k → getItemById x dv = dv !! k.
Proof. intros Hk. unfold getItemById. by rewrite Hk. Qed.

Lemma for_each_child_ext (f g : node → store → result store) (cs : list node) :
  Forall (λ c, ∀ dv, f c dv = g c dv) cs →
  ∀ dv, for_each_child f cs dv = for_each_child g cs dv.
Proof.
  induction 1 as [|c cs Hc _ IH]; intros dv; simpl; [done|].
  rewrite Hc. destruct (g c dv); simpl; [apply IH | done].
Qed.

Lemma elem_of_flat_map {A B} (f : A → list B) (l : list A) (y : B) :
  y ∈ flat_map f l ↔ ∃ x, x ∈ l ∧ y ∈ f x.
Proof.
  rewrite list_elem_of_In, in_flat_map. split.
  - intros (x & Hx & Hy). exists x. by rewrite !list_elem_of_In.
  - intros (x & Hx & Hy). exists x. by rewrite <- !list_elem_of_In.
Qed.

Section walk_spec.
Variable self : node → bool → jsobj → jsobj.
Variable stop : jsobj → bool.
Hypothesis self_id : ∀ n flag, id_preserving (self n flag).

Lemma visits_subnodes (dv : store) (n : node) :
  ∀ flag m f, (m, f) ∈ visits self stop dv flag n → m ∈ subnodes n.
Proof.
  induction n as [i|i cs IH] using node_ind; intros flag m f; simpl.
  - rewrite !elem_of_cons. intros [[= -> ->]|Hm]; [by left | by apply elem_of_nil in Hm].
  - rewrite !elem_of_cons. intros [[= -> ->]|Hm]; [by left|right].
    destruct (stopped _ _ _ _ _); [by apply elem_of_nil in Hm|].
    apply elem_of_flat_map in Hm as (c & Hc & Hm).
    apply elem_of_flat_map. exists c. split; [done|].
    rewrite Forall_forall in IH. by eapply IH.
Qed.

Lemma visits_ext (dv dv2 : store) (n : node) :
  (∀ m, m ∈ subnodes n → getItemById (node_id m) dv = getItemById (node_id m) dv2) →
  ∀ flag, visits self stop dv flag n = visits self stop dv2 flag n.
Proof.
  induction n as [i|i cs IH] using node_ind; intros Hrows flag; simpl; [done|].
  f_equal. unfold stopped. rewrite (Hrows (Tree i cs)); [|simpl; by left].
  destruct (from_option _ _ _); [done|].
  assert (Hcs : ∀ c, c ∈ cs → visits self stop dv true c = visits self stop dv2 true c).
  { intros c Hc. rewrite Forall_forall in IH. apply IH; [done|].
    intros m Hm. apply Hrows. simpl. right. apply elem_of_flat_map. eauto. }
  clear IH Hrows. induction cs as [|c cs IHcs]; simpl; [done|].
  rewrite Hcs, IHcs; [done| |by left]. intros c' Hc'. apply Hcs. by right.
Qed.

Lemma walk_post_nil (dv : store) : walk_post self [] dv dv.
Proof. split_and!; [done| |done]. intros m f k Hm. by apply elem_of_nil in Hm. Qed.

Lemma walk_post_single (n : node) (flag : bool) (dv : store) (k : nat) :
  getIdxById (node_id n) dv = Some k →
  walk_post self [(n, flag)] dv (alter (self n flag) k dv).
Proof.
  intros Hk. split_and!.
  - intros x. by apply getIdxById_alter.
  - intros m f k' [= -> ->]%list_elem_of_singleton Hk'.
    rewrite Hk in Hk'. injection Hk' as <-. apply list_lookup_alter_eq.
  - intros k' Hne. apply list_lookup_alter_ne. intros <-.
    eapply Hne; [by apply list_elem_of_singleton | done].
Qed.

Lemma walk_post_app (V1 V2 : list (node * bool)) (dv dv1 dv2 : store) :
  (∀ m1 f1 m2 f2, (m1, f1) ∈ V1 → (m2, f2) ∈ V2 → node_id m1 ≠ node_id m2) →
  walk_post self V1 dv dv1 → walk_post self V2 dv1 dv2 → walk_post self (V1 ++ V2) dv dv2.
Proof.
  intros Hdisj (Hi1 & Ho1 & Hf1) (Hi2 & Ho2 & Hf2). split_and!.
  - intros x. by rewrite Hi2, Hi1.
  - intros m f k [Hm|Hm]%elem_of_app Hk.
    + rewrite Hf2; [by eapply Ho1|]. intros m2 f2 Hm2 Hk2. rewrite Hi1 in Hk2.
      eapply Hdisj; [exact Hm | exact Hm2 |]. eapply getIdxById_inj; eauto.
    + rewrite (Ho2 m f k Hm); [|by rewrite Hi1]. f_equal. apply Hf1.
      intros m1 f1 Hm1 Hk1. eapply Hdisj; [exact Hm1 | exact Hm |].
      eapply getIdxById_inj; eauto.
  - intros k Hne. rewrite Hf2, Hf1; [done| |].
    + intros m f Hm. apply (Hne m f), elem_of_app. by left.
    + intros m f Hm. rewrite Hi1. apply (Hne m f), elem_of_app. by right.
Qed.

Lemma walk_post_row_frame (V : list (node * bool)) (dv dv' : store) (x : value) :
  walk_post self V dv dv' → (∀ m f, (m, f) ∈ V → node_id m ≠ x) →
  getItemById x dv' = getItemById x dv.
Proof.
  intros (Hi & _ & Hf) Hx. unfold getItemById. rewrite Hi.
  destruct (getIdxById x dv) as [k|] eqn:Hk; simpl; [|done].
  apply Hf. intros m f Hm Hmk. eapply Hx; [exact Hm|]. eapply getIdxById_inj; eauto.
Qed.

Lemma materialized_idx (n : node) (dv dv' : store) :
  (∀ x, getIdxById x dv' = getIdxById x dv) → materialized n dv → materialized n dv'.
Proof.
  intros Hi [Hall Hnd]. split; [|done].
  eapply Forall_impl; [exact Hall|]. intros m [? ?]. by rewrite Hi.
Qed.

Lemma flat_map_ext_elem {A B} (f g : A → list B) (l : list A) :
  (∀ x, x ∈ l → f x = g x) → flat_map f l = flat_map g l.
Proof.
  induction l as [|x l IH]; intros Hfg; simpl; [done|].
  rewrite Hfg, IH; [done| |by left]. intros y Hy. apply Hfg. by right.
Qed.

(** The loop of a walk over the children [cs] of the node whose row is at
    index [k0]. *)
Lemma walk_children_spec (cs : list node) :
  Forall (λ c, ∀ flag dv, materialized c dv →
            ∃ dv', walk self stop c flag dv = Ok dv' ∧ walk_post self (visits self stop dv flag c) dv dv') cs →
  ∀ (k0 : nat) (dv : store),
    Forall (λ m, n_dataView (info_of m) = true ∧ is_Some (getIdxById (node_id m) dv))
           (flat_map subnodes cs) →
    NoDup (map node_id (flat_map subnodes cs)) →
    (∀ m, m ∈ flat_map subnodes cs → getIdxById (node_id m) dv ≠ Some k0) →
    ∃ dv',
      for_each_child
        (λ node dv, if stop_at stop (Some k0) dv then Ok dv else walk self stop node true dv) cs dv
        = Ok dv' ∧
      walk_post self (if stop_at stop (Some k0) dv then [] else flat_map (visits self stop dv true) cs)
                dv dv'.
Proof.
  induction 1 as [|c rest Hc _ IH]; intros k0 dv Hall Hnd Hk0.
  - exists dv. split; [done|]. destruct (stop_at _ _ _); apply walk_post_nil.
  - simpl in Hall, Hnd. rewrite map_app in Hnd.
    apply Forall_app in Hall as [Hall_c Hall_r].
    apply NoDup_app in Hnd as (Hnd_c & Hdisj & Hnd_r).
    assert (Hdisj' : ∀ m1 m2, m1 ∈ subnodes c → m2 ∈ flat_map subnodes rest →
                              node_id m1 ≠ node_id m2).
    { intros m1 m2 H1 H2 Heq. apply (Hdisj (node_id m1)).
      - by apply list_elem_of_fmap_2.
      - rewrite Heq. by apply list_elem_of_fmap_2. }
    assert (Hk0_r : ∀ m, m ∈ flat_map subnodes rest → getIdxById (node_id m) dv ≠ Some k0).
    { intros m Hm. apply Hk0. simpl. apply elem_of_app. by right. }
    cbn [for_each_child]. destruct (stop_at stop (Some k0) dv) eqn:Hstop.
    + simpl. destruct (IH k0 dv Hall_r Hnd_r Hk0_r) as (dv' & Hrun & Hpost).
      rewrite Hstop in Hpost. by exists dv'.
    + destruct (Hc true dv (conj Hall_c Hnd_c)) as (dvc & Hrun_c & Hpost_c).
      rewrite Hrun_c. simpl.
      pose proof Hpost_c as (Hi_c & _ & Hf_c).
      assert (Hstop_c : stop_at stop (Some k0) dvc = false).
      { rewrite <- Hstop. unfold stop_at. simpl. rewrite Hf_c; [done|].
        intros m f Hm. apply Hk0. simpl. apply elem_of_app. left.
        by eapply visits_subnodes. }
      destruct (IH k0 dvc) as (dv' & Hrun & Hpost); [|done| |].
      { eapply Forall_impl; [exact Hall_r|]. intros m [? ?]. by rewrite Hi_c. }
      { intros m Hm. rewrite Hi_c. by apply Hk0_r. }
      exists dv'. split; [done|]. rewrite Hstop_c in Hpost.
      assert (Hvis : flat_map (visits self stop dvc true) rest = flat_map (visits self stop dv true) rest).
      { apply flat_map_ext_elem. intros r Hr. apply visits_ext. intros m Hm.
        eapply walk_post_row_frame; [exact Hpost_c|]. intros m' f Hm'.
        apply Hdisj'; [by eapply visits_subnodes|]. apply elem_of_flat_map. eauto. }
      rewrite Hvis in Hpost. simpl.
      eapply walk_post_app; [|exact Hpost_c|exact Hpost].
      intros m1 f1 m2 f2 H1 H2. apply Hdisj'; [by eapply visits_subnodes|].
      apply elem_of_flat_map in H2 as (r & Hr & H2). apply elem_of_flat_map.
      exists r. split; [done|]. by eapply visits_subnodes.
Qed.

(** A walk over a materialized subtree succeeds and has the effect
    [walk_post] on the nodes that [visits] lists. *)
Lemma walk_spec (n : node) :
  ∀ flag dv, materialized n dv →
    ∃ dv', walk self stop n flag dv = Ok dv' ∧ walk_post self (visits self stop dv flag n) dv dv'.
Proof.
  induction n as [i|i cs IH] using node_ind; intros flag dv [Hall Hnd].
  - simpl in Hall. apply Forall_cons in Hall as [[Hdv [k Hk]] _].
    exists (alter (self (Leaf i) flag) k dv). split.
    + simpl in Hdv. unfold node_id in Hk. simpl in Hk.
      simpl. unfold getItem. by rewrite Hdv, Hk.
    + by apply walk_post_single.
  - simpl in Hall, Hnd. apply Forall_cons in Hall as [[Hdv [k Hk]] Hall].
    apply NoDup_cons in Hnd as [Hfresh Hnd].
    set (dv1 := alter (self (Tree i cs) flag) k dv).
    assert (Hpost1 : walk_post self [(Tree i cs, flag)] dv dv1) by by apply walk_post_single.
    pose proof Hpost1 as (Hi1 & Ho1 & _).
    assert (Hne : ∀ m, m ∈ flat_map subnodes cs → node_id m ≠ node_id (Tree i cs)).
    { intros m Hm Heq. apply Hfresh. rewrite <- Heq. by apply list_elem_of_fmap_2. }
    destruct (walk_children_spec cs IH k dv1) as (dv' & Hrun & Hpost); [|done| |].
    { eapply Forall_impl; [exact Hall|]. intros m [? ?]. by rewrite Hi1. }
    { intros m Hm. rewrite Hi1. intros Hmk. eapply Hne; [exact Hm|].
      eapply getIdxById_inj; eauto. }
    exists dv'. split.
    + simpl in Hdv. pose proof Hk as Hk'. unfold node_id in Hk'. simpl in Hk'.
      simpl. unfold getItem. rewrite Hdv, Hk'. simpl. exact Hrun.
    + assert (Hstop : stop_at stop (Some k) dv1 = stopped self stop (Tree i cs) flag dv).
      { unfold stop_at, stopped. simpl. rewrite (getItemById_idx _ _ _ Hk).
        f_equal. subst dv1. apply list_lookup_alter_eq. }
      assert (Hvis : flat_map (visits self stop dv1 true) cs = flat_map (visits self stop dv true) cs).
      { apply flat_map_ext_elem. intros r Hr. apply visits_ext. intros m Hm.
        eapply walk_post_row_frame; [exact Hpost1|].
        intros m' f [= -> ->]%list_elem_of_singleton Heq.
        eapply Hne; [|symmetry; exact Heq]. apply elem_of_flat_map. eauto. }
      rewrite Hstop, Hvis in Hpost.
      change (visits self stop dv flag (Tree i cs))
        with ([(Tree i cs, flag)] ++
              (if stopped self stop (Tree i cs) flag dv then []
               else flat_map (visits self stop dv true) cs)).
      eapply walk_post_app; [|exact Hpost1|exact Hpost].
      intros m1 f1 m2 f2 [= -> ->]%list_elem_of_singleton H2 Heq.
      destruct (stopped _ _ _ _ _); [by apply elem_of_nil in H2|].
      apply elem_of_flat_map in H2 as (r & Hr & H2).
      eapply Hne; [|symmetry; exact Heq]. apply elem_of_flat_map.
      exists r. split; [done|]. by eapply visits_subnodes.
Qed.
End walk_spec.

(** ** [collapse] and [expand] as walks *)

Lemma set_row_upd (item : option nat) (k : string) (v : value) (dv : store) :
  set_row item k v dv = upd_row item (setp k v) dv.
Proof. done. Qed.

Lemma alter_alter {A} (f g : A → A) (k : nat) (l : list A) :
  alter f k (alter g k l) = alter (f ∘ g) k l.
Proof.
  apply list_eq. intros j. destruct (decide (k = j)) as [<-|Hne].
  - rewrite !list_lookup_alter_eq. by destruct (l !! k).
  - by rewrite !list_lookup_alter_ne.
Qed.

Lemma upd_row_compose (item : option nat) (f g : jsobj → jsobj) (dv : store) :
  (dv1 ← upd_row item g dv; upd_row item f dv1) = upd_row item (f ∘ g) dv.
Proof.
  destruct item as [k|]; [|done]. cbv [upd_row mbind result_bind]. by rewrite alter_alter.
Qed.

Lemma stop_at_never (item : option nat) (dv : store) :
  stop_at (λ _, false) item dv = false.
Proof. unfold stop_at. by destruct (item ≫= _). Qed.

Lemma stop_at_collapsed (item : option nat) (dv : store) :
  stop_at is_collapsed_row item dv = truthy_opt (read_row item "_collapsed" dv).
Proof.
  unfold stop_at, read_row. destruct item as [k|]; simpl; [|done].
  by destruct (dv !! k).
Qed.

Lemma collapse_walk (n : node) :
  ∀ hideSelf dv, collapse n hideSelf dv = walk collapse_self (λ _, false) n hideSelf dv.
Proof.
  induction n as [i|i cs IH] using node_ind; intros hideSelf dv.
  - cbn [collapse walk]. destruct (getItem i dv) as [item|e]; [|done].
    cbn [mbind result_bind]. rewrite !set_row_upd. apply upd_row_compose.
  - cbn [collapse walk]. destruct (getItem i dv) as [[k|]|e]; [|by destruct hideSelf|done].
    assert (Hloop : ∀ dv1,
      for_each_child (λ node dv0, collapse node true dv0) cs dv1 =
      for_each_child
        (λ node dv0, if stop_at (λ _, false) (Some k) dv0 then Ok dv0
                     else walk collapse_self (λ _, false) node true dv0) cs dv1).
    { apply for_each_child_ext. eapply Forall_impl; [exact IH|].
      intros c Hc dv2. cbn beta. by rewrite stop_at_never. }
    destruct hideSelf; cbn [mbind result_bind set_row upd_row collapse_self]; [apply Hloop|].
    rewrite alter_alter. apply Hloop.
Qed.

Lemma expand_walk (n : node) :
  ∀ notFirst dv, expand n notFirst dv = walk expand_self is_collapsed_row n notFirst dv.
Proof.
  induction n as [i|i cs IH] using node_ind; intros notFirst dv.
  - cbn [expand walk]. destruct (getItem i dv) as [item|e]; [|done].
    cbn [mbind result_bind]. rewrite !set_row_upd. apply upd_row_compose.
  - cbn [expand walk]. destruct (getItem i dv) as [[k|]|e]; [|by destruct notFirst|done].
    assert (Hloop : ∀ dv1,
      for_each_child
        (λ node dv0, if negb (truthy_opt (read_row (Some k) "_collapsed" dv0))
                     then expand node true dv0 else Ok dv0) cs dv1 =
      for_each_child
        (λ node dv0, if stop_at is_collapsed_row (Some k) dv0 then Ok dv0
                     else walk expand_self is_collapsed_row node true dv0) cs dv1).
    { apply for_each_child_ext. eapply Forall_impl; [exact IH|].
      intros c Hc dv2. cbn beta. rewrite stop_at_collapsed.
      destruct (truthy_opt _); simpl; [done|apply Hc]. }
    destruct notFirst; cbn [mbind result_bind set_row upd_row expand_self]; [apply Hloop|].
    rewrite alter_alter. apply Hloop.
Qed.

Lemma getp_setp_eq (k : string) (v : value) (o : jsobj) : getp (setp k v o) k = Some v.
Proof. unfold getp, setp. simpl. apply lookup_insert_eq. Qed.

Lemma getp_setp_ne (k k' : string) (v : value) (o : jsobj) :
  k ≠ k' → getp (setp k v o) k' = getp o k'.
Proof. intros Hne. unfold getp, setp. simpl. by apply lookup_insert_ne. Qed.

Lemma collapse_self_id (n : node) (flag : bool) : id_preserving (collapse_self n flag).
Proof. intros it. destruct n, flag; simpl; by rewrite !getp_setp_ne. Qed.

Lemma expand_self_id (n : node) (flag : bool) : id_preserving (expand_self n flag).
Proof. intros it. destruct n, flag; simpl; by rewrite !getp_setp_ne. Qed.

(** ** The rows after a walk *)

Lemma walk_post_row self (V : list (node * bool)) (dv dv' : store) (m : node) (f : bool) :
  walk_post self V dv dv' → (m, f) ∈ V → is_Some (getIdxById (node_id m) dv) →
  ∃ r, node_row m dv = Some r ∧ node_row m dv' = Some (self m f r).
Proof.
  intros (Hi & Ho & _) Hm [k Hk]. destruct (getIdxById_Some _ _ _ Hk) as (r & Hr & _).
  exists r. unfold node_row, getItemById. rewrite Hi, Hk. simpl.
  split; [done|]. by rewrite (Ho m f k Hm Hk), Hr.
Qed.

Lemma materialized_subnode (n m : node) (dv : store) :
  materialized n dv → m ∈ subnodes n → is_Some (getIdxById (node_id m) dv).
Proof. intros [Hall _] Hm. rewrite Forall_forall in Hall. by apply Hall. Qed.

Lemma subnodes_self (n : node) : n ∈ subnodes n.
Proof. destruct n; simpl; by left. Qed.

Lemma descendants_subnodes (n m : node) : m ∈ descendants n → m ∈ subnodes n.
Proof. destruct n; simpl; [by intros ?%elem_of_nil|]. by right. Qed.

Lemma collapse_visits_all (dv : store) (c : node) :
  ∀ m, m ∈ subnodes c → (m, true) ∈ visits collapse_self (λ _, false) dv true c.
Proof.
  induction c as [i|i cs IH] using node_ind; intros m; simpl.
  - rewrite !elem_of_cons. intros [->|Hm]; [by left | by apply elem_of_nil in Hm].
  - rewrite !elem_of_cons. intros [->|Hm]; [by left|right].
    replace (stopped collapse_self (λ _, false) (Tree i cs) true dv) with false.
    2:{ unfold stopped. by destruct (getItemById _ _). }
    apply elem_of_flat_map in Hm as (c & Hc & Hm). apply elem_of_flat_map.
    exists c. split; [done|]. rewrite Forall_forall in IH. by apply IH.
Qed.

Lemma collapse_visits_descendants (dv : store) (N : node) (flag : bool) :
  ∀ m, m ∈ descendants N → (m, true) ∈ visits collapse_self (λ _, false) dv flag N.
Proof.
  destruct N as [i|i cs]; intros m; simpl; [by intros ?%elem_of_nil|].
  intros Hm. right.
  replace (stopped collapse_self (λ _, false) (Tree i cs) flag dv) with false.
  2:{ unfold stopped. by destruct (getItemById _ _). }
  apply elem_of_flat_map in Hm as (c & Hc & Hm). apply elem_of_flat_map.
  exists c. split; [done|]. by apply collapse_visits_all.
Qed.




(** ** Lists without duplicates *)

Lemma NoDup_map_inj {A B} (f : A → B) (l : list A) (x y : A) :
  NoDup (map f l) → x ∈ l → y ∈ l → f x = f y → x = y.
Proof.
  induction l as [|a l IH]; simpl; [by intros _ ?%elem_of_nil|].
  rewrite NoDup_cons, !elem_of_cons. intros [Hfresh Hnd] [->|Hx] [->|Hy] Heq; try done.
  - exfalso. apply Hfresh. rewrite Heq. by apply list_elem_of_fmap_2.
  - exfalso. apply Hfresh. rewrite <- Heq. by apply list_elem_of_fmap_2.
  - by apply IH.
Qed.



(** ** Subtrees *)


Lemma descendants_not_self (n : node) : NoDup (subnodes n) → n ∉ descendants n.
Proof. destruct n as [i|i cs]; simpl; [intros _ ?%elem_of_nil; done|]. by intros [? _]%NoDup_cons. Qed.

Lemma materialized_NoDup (n : node) (dv : store) : materialized n dv → NoDup (subnodes n).
Proof. intros [_ Hnd]. by eapply NoDup_fmap_1. Qed.

(** ** What [expand] visits *)

Lemma reached_subnodes (dv : store) (n : node) :
  ∀ m, m ∈ reached dv n → m ∈ subnodes n.
Proof.
  induction n as [i|i cs IH] using node_ind; intros m; simpl; [done|].
  rewrite !elem_of_cons. intros [->|Hm]; [by left|right].
  destruct (from_option _ _ _); [by apply elem_of_nil in Hm|].
  apply elem_of_flat_map in Hm as (c & Hc & Hm). apply elem_of_flat_map.
  exists c. split; [done|]. rewrite Forall_forall in IH. by apply IH.
Qed.

Lemma is_collapsed_row_hidden (v : value) (it : jsobj) :
  is_collapsed_row (setp "_hidden" v it) = is_collapsed_row it.
Proof. unfold is_collapsed_row. by rewrite getp_setp_ne. Qed.

Lemma stopped_expand_tree (i : info) (cs : list node) (dv : store) :
  stopped expand_self is_collapsed_row (Tree i cs) true dv =
  from_option is_collapsed_row false (getItemById (n_id i) dv).
Proof.
  unfold stopped, node_id. simpl. destruct (getItemById _ _); simpl; [|done].
  apply is_collapsed_row_hidden.
Qed.

Lemma stopped_expand_top (n : node) (dv : store) :
  stopped expand_self is_collapsed_row n false dv = false.
Proof.
  unfold stopped. destruct (getItemById _ _) as [it|]; simpl; [|done].
  destruct n; simpl; unfold is_collapsed_row.
  - by rewrite getp_setp_eq.
  - by rewrite getp_setp_ne, getp_setp_eq.
Qed.

Lemma expand_visits_reached (dv : store) (n : node) :
  visits expand_self is_collapsed_row dv true n = map (λ m, (m, true)) (reached dv n).
Proof.
  induction n as [i|i cs IH] using node_ind; simpl; [done|].
  f_equal. rewrite stopped_expand_tree. destruct (from_option _ _ _); [done|].
  induction IH as [|c cs Hc _ IHcs]; simpl; [done|]. by rewrite map_app, Hc, IHcs.
Qed.

Lemma expand_visits_top (dv : store) (N : node) :
  visits expand_self is_collapsed_row dv false N =
  (N, false) :: map (λ m, (m, true)) (flat_map (reached dv) (node_children N)).
Proof.
  destruct N as [i|i cs]; simpl; [done|]. f_equal.
  rewrite stopped_expand_top. induction cs as [|c cs IH]; simpl; [done|].
  by rewrite map_app, expand_visits_reached, IH.
Qed.



Lemma materialized_top_fresh (N : node) (dv : store) (m : node) :
  materialized N dv → m ∈ descendants N → node_id m ≠ node_id N.
Proof.
  intros [_ Hnd] Hm Heq. destruct N as [i|i cs]; simpl in *; [by apply elem_of_nil in Hm|].
  apply NoDup_cons in Hnd as [Hfresh _]. apply Hfresh.
  change (n_id i) with (node_id (Tree i cs)). rewrite <- Heq.
  by apply list_elem_of_fmap_2.
Qed.




(** Collapsing inner, then outer, then expanding outer: inner is shown again
    but stays collapsed, so x.txt stays hidden. *)
Example expand_keeps_inner_collapsed :
  (dv1 ← collapse inner_node false nested_store;
   dv2 ← collapse outer_node false dv1;
   dv3 ← expand outer_node false dv2;
   Ok (visible_names dv3))
  = Ok [Some (VStr "outer"); Some (VStr "inner"); Some (VStr "y.txt")].
Proof. reflexivity. Qed.

(** ** Walking twice *)

Section walk_twice.
Variable self : node → bool → jsobj → jsobj.
Variable stop : jsobj → bool.

Lemma visits_ext_stopped (dv dv2 : store) (n : node) :
  ∀ flag,
    stopped self stop n flag dv = stopped self stop n flag dv2 →
    (∀ m, m ∈ descendants n → stopped self stop m true dv = stopped self stop m true dv2) →
    visits self stop dv flag n = visits self stop dv2 flag n.
Proof.
  induction n as [i|i cs IH] using node_ind; intros flag Htop Hdesc; simpl; [done|].
  f_equal. rewrite Htop. destruct (stopped self stop _ _ dv2); [done|].
  apply flat_map_ext_elem. intros c Hc. rewrite Forall_forall in IH. apply IH; [done| |].
  - apply Hdesc. simpl. apply elem_of_flat_map. exists c. split; [done|].
    apply subnodes_self.
  - intros m Hm. apply Hdesc. simpl. apply elem_of_flat_map. exists c.
    split; [done|]. by apply descendants_subnodes.
Qed.

Lemma visits_true (dv : store) (n : node) :
  ∀ m f, (m, f) ∈ visits self stop dv true n → f = true.
Proof.
  induction n as [i|i cs IH] using node_ind; intros m f; simpl.
  - rewrite elem_of_cons. intros [[= _ ->]|Hm]; [done | by apply elem_of_nil in Hm].
  - rewrite elem_of_cons. intros [[= _ ->]|Hm]; [done|].
    destruct (stopped self stop _ _ _); [by apply elem_of_nil in Hm|].
    apply elem_of_flat_map in Hm as (c & Hc & Hm).
    rewrite Forall_forall in IH. by eapply IH.
Qed.

Lemma visits_flag (dv : store) (n : node) (flag : bool) (m : node) (f : bool) :
  (m, f) ∈ visits self stop dv flag n → (m = n ∧ f = flag) ∨ (f = true ∧ m ∈ descendants n).
Proof.
  destruct n as [i|i cs]; simpl.
  - rewrite elem_of_cons. intros [[= -> ->]|Hm]; [by left | by apply elem_of_nil in Hm].
  - rewrite elem_of_cons. intros [[= -> ->]|Hm]; [by left|right].
    destruct (stopped self stop _ _ _); [by apply elem_of_nil in Hm|].
    apply elem_of_flat_map in Hm as (c & Hc & Hm). split; [by eapply visits_true|].
    apply elem_of_flat_map. exists c. split; [done|]. by eapply visits_subnodes.
Qed.

Lemma visited_idx_dec (V : list (node * bool)) (dv : store) (k : nat) :
  (∃ m f, (m, f) ∈ V ∧ getIdxById (node_id m) dv = Some k) ∨
  (∀ m f, (m, f) ∈ V → getIdxById (node_id m) dv ≠ Some k).
Proof.
  induction V as [|[m f] V IH].
  - right. intros m f Hm. by apply elem_of_nil in Hm.
  - destruct (decide (getIdxById (node_id m) dv = Some k)) as [Hk|Hk].
    + left. exists m, f. split; [by left | done].
    + destruct IH as [(m' & f' & Hm' & Hk')|IH].
      * left. exists m', f'. split; [by right | done].
      * right. intros m' f' [[= -> ->]|Hm']%elem_of_cons; [done | by eapply IH].
Qed.

Hypothesis self_idem : ∀ m f it, self m f (self m f it) = self m f it.

(** A second walk that visits self stop the same nodes changes nothing. *)
Lemma walk_post_twice (V : list (node * bool)) (dv dv1 dv2 : store) :
  walk_post self V dv dv1 → walk_post self V dv1 dv2 → dv2 = dv1.
Proof.
  intros (Hi1 & Ho1 & Hf1) (Hi2 & Ho2 & Hf2). apply list_eq. intros k.
  destruct (visited_idx_dec V dv k) as [(m & f & Hm & Hk)|Hnot].
  - rewrite (Ho2 m f k Hm); [|by rewrite Hi1]. rewrite (Ho1 m f k Hm Hk).
    destruct (dv !! k); simpl; [|done]. by rewrite self_idem.
  - apply Hf2. intros m f Hm. rewrite Hi1. by eapply Hnot.
Qed.
End walk_twice.

Lemma setp_setp (k : string) (v : value) (o : jsobj) :
  setp k v (setp k v o) = setp k v o.
Proof. unfold setp. simpl. by rewrite insert_insert_eq. Qed.

Lemma setp_setp2 (k1 k2 : string) (v1 v2 : value) (o : jsobj) :
  k1 ≠ k2 →
  setp k1 v1 (setp k2 v2 (setp k1 v1 (setp k2 v2 o))) = setp k1 v1 (setp k2 v2 o).
Proof.
  intros Hne. unfold setp. simpl. f_equal. apply map_eq. intros k.
  rewrite !lookup_insert. by repeat case_decide.
Qed.

Lemma expand_self_idem (m : node) (f : bool) (it : jsobj) :
  expand_self m f (expand_self m f it) = expand_self m f it.
Proof.
  destruct m, f; simpl; try apply setp_setp; by apply setp_setp2.
Qed.

(** A second [expand] visits the nodes the first one visited. *)
Lemma expand_visits_stable (N : node) (dv dv1 : store) :
  materialized N dv →
  walk_post expand_self (visits expand_self is_collapsed_row dv false N) dv dv1 →
  visits expand_self is_collapsed_row dv1 false N =
  visits expand_self is_collapsed_row dv false N.
Proof.
  intros Hmat Hpost. apply visits_ext_stopped.
  - by rewrite !stopped_expand_top.
  - intros m Hm.
    destruct (materialized_subnode N m dv Hmat (descendants_subnodes _ _ Hm)) as [k Hk].
    pose proof Hpost as (Hi & Ho & Hf).
    unfold stopped. rewrite (getItemById_idx _ _ _ Hk).
    rewrite (getItemById_idx _ dv1 k) by by rewrite Hi.
    destruct (visited_idx_dec (visits expand_self is_collapsed_row dv false N) dv k)
      as [(m' & f' & Hm' & Hk')|Hnot].
    + assert (m' = m) as ->.
      { destruct Hmat as [_ Hnd]. eapply (NoDup_map_inj node_id (subnodes N)); eauto.
        - by eapply visits_subnodes.
        - by apply descendants_subnodes.
        - eapply getIdxById_inj; eauto. }
      destruct (visits_flag _ _ _ _ _ _ _ Hm') as [[-> _]|[-> _]].
      { exfalso. eapply descendants_not_self; [|exact Hm]. by eapply materialized_NoDup. }
      rewrite (Ho m true k Hm' Hk). destruct (dv !! k); simpl; [|done].
      by rewrite expand_self_idem.
    + by rewrite (Hf k Hnot).
Qed.

(** C8.  For a folder node [F] whose subtree is materialized in the store,
    [expand()] succeeds, after which [F] is expanded; a second [expand()] then
    succeeds too and leaves the store, and so the list of visible rows, exactly
    as the first call left it. *)
Theorem C8_expand_idempotent (F : node) (dv : store) :
  is_tree F = true →
  materialized F dv →
  ∃ dv1 dv2,
    expand F false dv = Ok dv1 ∧
    expand F false dv1 = Ok dv2 ∧
    visible dv2 = visible dv1 ∧
    dv2 = dv1.
Proof.
  intros _ Hmat.
  destruct (walk_spec expand_self is_collapsed_row expand_self_id F false dv Hmat)
    as (dv1 & Hrun1 & Hpost1).
  assert (Hmat1 : materialized F dv1).
  { eapply materialized_idx; [|exact Hmat]. by destruct Hpost1. }
  destruct (walk_spec expand_self is_collapsed_row expand_self_id F false dv1 Hmat1)
    as (dv2 & Hrun2 & Hpost2).
  rewrite (expand_visits_stable F dv dv1 Hmat Hpost1) in Hpost2.
  assert (dv2 = dv1) as ->.
  { eapply walk_post_twice; [apply expand_self_idem | exact Hpost1 | exact Hpost2]. }
  exists dv1, dv1. by rewrite !expand_walk.
Qed.

Lemma C8_expand_idempotent_witness :
  is_tree docs_node = true ∧ materialized docs_node collapsed_store ∧
  ∃ dv1 dv2,
    expand docs_node false collapsed_store = Ok dv1 ∧
    expand docs_node false dv1 = Ok dv2 ∧
    visible dv2 = visible dv1 ∧
    dv2 = dv1.
Proof.
  assert (Hmat : materialized docs_node collapsed_store).
  { apply (bool_decide_unpack _). vm_compute. reflexivity. }
  split; [reflexivity|]. split; [exact Hmat|].
  apply (C8_expand_idempotent docs_node collapsed_store); [reflexivity | exact Hmat].
Defined.

(** ** Removing a row *)

Lemma getIdxById_None (x : value) (dv : store) :
  getIdxById x dv = None ↔ Some x ∉ row_ids dv.
Proof.
  induction dv as [|it dv IH]; simpl.
  - split; [intros _ ?%elem_of_nil; done | done].
  - unfold has_id. rewrite not_elem_of_cons. case_bool_decide as Hid.
    + split; [done|]. intros [Hne _]. by rewrite Hid in Hne.
    + destruct (getIdxById x dv); simpl.
      * split; [done|]. intros [_ Hn]. by apply IH in Hn.
      * split; [|done]. intros _. split; [congruence | by apply IH].
Qed.

Lemma row_ids_lookup (dv : store) (k : nat) (it : jsobj) :
  dv !! k = Some it → row_ids dv !! k = Some (getp it "id").
Proof. intros Hk. unfold row_ids. by rewrite list_lookup_fmap, Hk. Qed.

Lemma row_ids_delete (k : nat) (dv : store) : row_ids (delete k dv) = delete k (row_ids dv).
Proof.
  unfold row_ids. revert k. induction dv as [|it dv IH]; intros [|k]; simpl; try done.
  by rewrite IH.
Qed.


Lemma NoDup_delete_gone {A} (k : nat) (l : list A) (x : A) :
  NoDup l → l !! k = Some x → x ∉ delete k l.
Proof.
  intros Hnd Hk Hin. apply list_elem_of_lookup in Hin as [j Hj].
  rewrite NoDup_alt in Hnd. destruct (decide (j < k)%nat) as [Hlt|Hge].
  - rewrite list_lookup_delete_lt in Hj by done. specialize (Hnd _ _ _ Hj Hk). lia.
  - rewrite list_lookup_delete_ge in Hj by lia. specialize (Hnd _ _ _ Hj Hk). lia.
Qed.

(** C10.  For an id that is present in the store, [removeItem(id)] returns
    the row with that id and deletes that one row: the store is one row
    shorter, the rows before it and the rows after it stay as they are and in
    order (so rows that name the deleted id as [parentID] stay), the Tree/Leaf
    structure and the id counter are untouched, and when ids are unique no row
    with that id is left. *)
Theorem C10_removeItem_one_row (id : value) (g : hgrid) :
  Some id ∈ row_ids (dataView g) →
  ∃ k it g',
    removeItem (Some id) g = Ok (Some it, g') ∧
    dataView g !! k = Some it ∧ getp it "id" = Some id ∧
    tree g' = tree g ∧ ids g' = ids g ∧
    dataView g' = delete k (dataView g) ∧
    S (length (dataView g')) = length (dataView g) ∧
    (∀ j, (j < k)%nat → dataView g' !! j = dataView g !! j) ∧
    (∀ j, (k ≤ j)%nat → dataView g' !! j = dataView g !! S j) ∧
    (NoDup (row_ids (dataView g)) → Some id ∉ row_ids (dataView g')).
Proof.
  intros Hin. destruct (getIdxById id (dataView g)) as [k|] eqn:Hk.
  2:{ by apply getIdxById_None in Hk. }
  destruct (getIdxById_Some id (dataView g) k Hk) as (it & Hit & Hid).
  exists k, it, {| tree := tree g; dataView := delete k (dataView g); ids := ids g |}.
  split_and!; try done.
  - unfold removeItem, getByID, deleteItem. simpl. unfold getItemById. rewrite Hk. simpl.
    by rewrite Hit.
  - simpl. rewrite length_delete by eauto. apply lookup_lt_Some in Hit. lia.
  - intros j Hj. simpl. by apply list_lookup_delete_lt.
  - intros j Hj. simpl. by apply list_lookup_delete_ge.
  - intros Hnd. simpl. rewrite row_ids_delete. apply NoDup_delete_gone; [done|].
    rewrite <- Hid. by apply row_ids_lookup.
Qed.

Lemma C10_removeItem_one_row_witness :
  Some docs_id ∈ row_ids (dataView scenario_grid) ∧
  ∃ k it g',
    removeItem (Some docs_id) scenario_grid = Ok (Some it, g') ∧
    dataView scenario_grid !! k = Some it ∧ getp it "id" = Some docs_id ∧
    tree g' = tree scenario_grid ∧ ids g' = ids scenario_grid ∧
    dataView g' = delete k (dataView scenario_grid) ∧
    S (length (dataView g')) = length (dataView scenario_grid) ∧
    (∀ j, (j < k)%nat → dataView g' !! j = dataView scenario_grid !! j) ∧
    (∀ j, (k ≤ j)%nat → dataView g' !! j = dataView scenario_grid !! S j) ∧
    (NoDup (row_ids (dataView scenario_grid)) → Some docs_id ∉ row_ids (dataView g')).
Proof.
  assert (Hin : Some docs_id ∈ row_ids (dataView scenario_grid)).
  { vm_compute. by left. }
  split; [exact Hin|]. exact (C10_removeItem_one_row docs_id scenario_grid Hin).
Defined.

(** ** The end-to-end scenario *)

Lemma scenario_grid_constructed :
  HGrid_new false scenario_options alloc0 = Ok scenario_grid.
Proof. reflexivity. Qed.

(** C5 (amended).  In the scenario, [removeItem] with the id of docs returns
    the docs row and removes that row only: the a.txt row stays in the store,
    still naming docs as its parent, the tree is untouched, and a.txt and b.txt
    are the visible rows.  If docs was collapsed before, a.txt is hidden and
    b.txt is the only visible row after the removal, but the a.txt row is
    still in the store. *)
Theorem C5_removeItem_docs_scenario :
  ∃ docs_row a_row b_row g',
    dataView scenario_grid = [docs_row; a_row; b_row] ∧
    getp docs_row "name" = Some (VStr "docs") ∧ getp docs_row "id" = Some docs_id ∧
    getp a_row "name" = Some (VStr "a.txt") ∧ getp a_row "parentID" = Some docs_id ∧
    getp b_row "name" = Some (VStr "b.txt") ∧
    removeItem (Some docs_id) scenario_grid = Ok (Some docs_row, g') ∧
    tree g' = tree scenario_grid ∧
    dataView g' = [a_row; b_row] ∧
    visible (dataView g') = [a_row; b_row] ∧
    ∃ a_hidden gc',
      collapse docs_node false scenario_store = Ok (dataView collapsed_grid) ∧
      removeItem (Some docs_id) collapsed_grid = Ok (dataView collapsed_grid !! 0%nat, gc') ∧
      dataView gc' = [a_hidden; b_row] ∧
      getp a_hidden "name" = Some (VStr "a.txt") ∧
      getp a_hidden "parentID" = Some docs_id ∧
      visible (dataView gc') = [b_row].
Proof.
  eexists _, _, _, _. split_and!; [reflexivity..|].
  eexists _, _. split_and!; reflexivity.
Qed.

(** C5 as stated fails: after docs is removed by id the a.txt row is still in
    the store, and visible; it is also still in the store when docs was
    collapsed first. *)
Lemma C5_descendant_row_stays :
  ∃ it g' a_row,
    removeItem (Some docs_id) scenario_grid = Ok (it, g') ∧
    a_row ∈ dataView g' ∧ a_row ∈ visible (dataView g') ∧
    getp a_row "name" = Some (VStr "a.txt") ∧
    ∃ it' gc' a_hidden,
      removeItem (Some docs_id) collapsed_grid = Ok (it', gc') ∧
      a_hidden ∈ dataView gc' ∧
      getp a_hidden "name" = Some (VStr "a.txt").
Proof.
  eexists _, _, _. split_and!; [reflexivity | by left | by left | reflexivity |].
  eexists _, _, _. split_and!; [reflexivity | by left | reflexivity].
Qed.

(** ** Inserting the row of a new node *)

Lemma computeAddIdx_spec (it : jsobj) (dv : store) :
  computeAddIdx it dv =
    match getIdxById_opt (getp it "parentID") dv with
    | Some p => S p
    | None => 0%nat
    end.
Proof.
  unfold computeAddIdx, getItemById_opt, getIdxById_opt, getItemById.
  destruct (getp it "parentID") as [pid|]; simpl; [|done].
  destruct (getIdxById pid dv) as [p|] eqn:Hp; simpl; [|done].
  destruct (getIdxById_Some pid dv p Hp) as (parent & Hparent & Hid).
  rewrite Hparent, Hid. simpl. by rewrite Hp.
Qed.


Lemma insertItem_lookup_eq (idx : nat) (it : jsobj) (dv : store) :
  (idx ≤ length dv)%nat → insertItem idx it dv !! idx = Some it.
Proof.
  intros Hle. unfold insertItem. rewrite lookup_app_r by (rewrite length_take; lia).
  rewrite length_take. by replace (idx - idx `min` length dv)%nat with 0%nat by lia.
Qed.


(** Without the store update [add] only attaches and pushes the component,
    which is how [Tree.fromObject] uses it. *)
Lemma Tree_add_no_sync (this : info) (children : list node) (component : node)
    (dv : store) :
  Tree_add this children component false dv = Ok (push_child this children component, dv).
Proof. reflexivity. Qed.


Lemma getp_toItem (i : info) (k : string) :
  getp (toItem i) k =
    match n_data i ≫= (λ d, getp d k) with
    | Some v => Some v
    | None => getp (structural i) k
    end.
Proof.
  unfold toItem. destruct (n_data i) as [d|]; [|done]. apply getp_extend.
Qed.

Lemma attach_fields (this : info) (component : node) :
  n_data (info_of (attach this component)) = n_data (info_of component) ∧
  n_id (info_of (attach this component)) = n_id (info_of component) ∧
  n_ref (info_of (attach this component)) = n_ref (info_of component) ∧
  n_parentID (info_of (attach this component)) = n_id this ∧
  n_depth (info_of (attach this component)) = Some (js_succ (n_depth this)) ∧
  n_dataView (info_of (attach this component)) = n_dataView this.
Proof. by destruct component. Qed.




(** In the scenario a file added to docs becomes row 1, ahead of a.txt. *)
Example new_file_first_under_docs :
  ∃ cs dv',
    Tree_add (info_of docs_node) (node_children docs_node) new_leaf true scenario_store
      = Ok (cs, dv') ∧
    map (λ it, getp it "name") dv' =
      [Some (VStr "docs"); Some (VStr "new.txt"); Some (VStr "a.txt"); Some (VStr "b.txt")].
Proof. eexists _, _. split; reflexivity. Qed.

(** ** Which operations raise an HGridError *)

Lemma bind_not_HGridError {A B} (m : result A) (f : A → result B) :
  is_HGridError m = false → (∀ a, is_HGridError (f a) = false) →
  is_HGridError (m ≫= f) = false.
Proof. intros Hm Hf. destruct m as [a|e]; simpl; [apply Hf | done]. Qed.

Lemma for_each_child_not_HGridError (body : node → store → result store)
    (cs : list node) :
  Forall (λ c, ∀ dv, is_HGridError (body c dv) = false) cs →
  ∀ dv, is_HGridError (for_each_child body cs dv) = false.
Proof.
  induction 1 as [|c cs Hc _ IH]; intros dv; simpl; [done|].
  apply bind_not_HGridError; [apply Hc | apply IH].
Qed.

Lemma upd_row_not_HGridError (item : option nat) (f : jsobj → jsobj) (dv : store) :
  is_HGridError (upd_row item f dv) = false.
Proof. by destruct item. Qed.

Lemma getItem_not_HGridError (i : info) (dv : store) :
  is_HGridError (getItem i dv) = false.
Proof. unfold getItem. by destruct (n_dataView i). Qed.

Lemma walk_not_HGridError self stop (n : node) :
  ∀ flag dv, is_HGridError (walk self stop n flag dv) = false.
Proof.
  induction n as [i|i cs IH] using node_ind; intros flag dv; cbn [walk].
  - apply bind_not_HGridError; [apply getItem_not_HGridError|].
    intros item. apply upd_row_not_HGridError.
  - apply bind_not_HGridError; [apply getItem_not_HGridError|]. intros item.
    apply bind_not_HGridError; [apply upd_row_not_HGridError|]. intros dv1.
    apply for_each_child_not_HGridError. eapply Forall_impl; [exact IH|].
    intros c Hc dv2. cbn beta. by destruct (stop_at stop item dv2).
Qed.

Lemma insert_rows_not_HGridError (this : info) (data : list jsobj) :
  ∀ dv, is_HGridError (insert_rows this data dv) = false.
Proof.
  induction data as [|datum rest IH]; intros dv; simpl; [done|].
  destruct (n_dataView this); [apply IH | done].
Qed.

Lemma Tree_add_not_HGridError this cs c b dv :
  is_HGridError (Tree_add this cs c b dv) = false.
Proof.
  unfold Tree_add. destruct b; [|done].
  apply bind_not_HGridError; [|done]. unfold insertIntoDataView.
  destruct (toData _); [apply insert_rows_not_HGridError | by destruct (n_dataView this)].
Qed.

Lemma removeItem_not_HGridError id g : is_HGridError (removeItem id g) = false.
Proof.
  unfold removeItem. apply bind_not_HGridError; [|done].
  destruct id as [id|]; [|done]. unfold deleteItem. by destruct (getIdxById id _).
Qed.

Lemma call_add_not_HGridError target c g : is_HGridError (call_add target c g) = false.
Proof.
  unfold call_add. destruct target as [[| | | |r]|]; try done.
  destruct (find_node r (tree g)) as [[i|i cs]|]; try done.
  apply bind_not_HGridError; [apply Tree_add_not_HGridError|]. by intros [cs' dv'].
Qed.

Lemma getNodeByID_not_HGridError id g : is_HGridError (getNodeByID id g) = false.
Proof.
  unfold getNodeByID. destruct (_ || _); [done|]. by destruct (getByID id g).
Qed.

Lemma addItem_not_HGridError it g : is_HGridError (addItem it g) = false.
Proof.
  unfold addItem. destruct (if is_folder it then _ else _) as [node s1].
  apply bind_not_HGridError.
  - destruct (is_nullish _); [done | apply getNodeByID_not_HGridError].
  - intros parentNode. apply bind_not_HGridError; [apply call_add_not_HGridError | done].
Qed.

Lemma addItems_not_HGridError items :
  ∀ g, is_HGridError (addItems items g) = false.
Proof.
  induction items as [|it rest IH]; intros g; simpl; [done|].
  apply bind_not_HGridError; [apply addItem_not_HGridError|]. intros [? g']. apply IH.
Qed.

Lemma remove_all_not_HGridError items :
  ∀ g, is_HGridError (remove_all items g) = false.
Proof.
  induction items as [|it rest IH]; intros g; simpl; [done|].
  apply bind_not_HGridError; [apply removeItem_not_HGridError|]. intros [? g']. apply IH.
Qed.

Lemma onMoveRows_not_HGridError G rows g : is_HGridError (onMoveRows G rows g) = false.
Proof.
  unfold onMoveRows. apply bind_not_HGridError; [by destruct G|]. intros parentID.
  apply bind_not_HGridError; [apply remove_all_not_HGridError|]. intros g1.
  apply addItems_not_HGridError.
Qed.

Create HintDb hgrid_error.

#[local] Hint Resolve Tree_add_not_HGridError removeItem_not_HGridError
  addItem_not_HGridError addItems_not_HGridError remove_all_not_HGridError
  onMoveRows_not_HGridError walk_not_HGridError getItem_not_HGridError : hgrid_error.

Lemma updateDataView_HGridError (n : node) (dv : store) :
  is_HGridError (updateDataView n dv) = true ↔
  is_tree n = true ∧ n_dataView (info_of n) = false.
Proof.
  destruct n as [i|i cs]; simpl.
  - split; [done | by intros [? _]].
  - destruct (n_dataView i); simpl; split; try done. by intros [_ ?].
Qed.

Lemma HGrid_init_HGridError (dropzone : bool) (o : options) (g : hgrid) :
  is_HGridError (HGrid_init dropzone o g) = true ↔ opt_uploads o = true ∧ dropzone = false.
Proof.
  unfold HGrid_init. destruct (opt_uploads o), dropzone; simpl; split; try done;
    by intros [? ?].
Qed.

Lemma fromObject_array_root (l : list jsobj) (s : alloc) :
  ∃ i cs s', fromObject_array l s = (Tree i cs, s') ∧ n_dataView i = true.
Proof.
  unfold fromObject_array, Tree_new. destruct (fresh_ref s) as [r s1].
  destruct (fromObject_loop _ _ _ _ _) as [cs s2]. by eexists _, _, _.
Qed.

Lemma HGrid_new_HGridError (dropzone : bool) (o : options) (s : alloc) :
  is_HGridError (HGrid_new dropzone o s) = true ↔
    (is_Some (opt_data o) ∧ truthy_opt (opt_ajaxSource o) = true) ∨
    ((opt_data o = None ∨ ∃ l, opt_data o = Some (Some (DArr l))) ∧
     opt_uploads o = true ∧ dropzone = false).
Proof.
  unfold HGrid_new. destruct (opt_data o) as [d|] eqn:Hd.
  - rewrite bool_decide_eq_true_2 by eauto.
    destruct (truthy_opt (opt_ajaxSource o)) eqn:Hajax; cbn [andb].
    { split; [|done]. intros _. left. eauto. }
    destruct d as [[l|ob]|]; cbn [Tree_fromObject mbind result_bind].
    + destruct (fromObject_array_root l s) as (i & cs & s1 & -> & Hdv).
      cbn [updateDataView]. rewrite Hdv. cbn [mbind result_bind].
      rewrite HGrid_init_HGridError. split; [intros [? ?]; right; eauto|].
      by intros [[_ ?]|[_ ?]].
    + split; [done|]. intros [[_ ?]|[[?|[l ?]] _]]; done.
    + split; [done|]. intros [[_ ?]|[[?|[l ?]] _]]; done.
  - rewrite bool_decide_eq_false_2 by by intros [? ?]. cbn [andb].
    destruct (Tree_new None s) as [i s1]. cbn [mbind result_bind].
    rewrite HGrid_init_HGridError. split; [intros [? ?]; right; eauto|].
    by intros [[[? ?] _]|[_ ?]].
Qed.

(** C7.  An HGridError is raised in exactly three places.  The constructor
    raises it when both [data] and [ajaxSource] are given, and otherwise only
    through [init]; [updateDataView] raises it exactly on a Tree without a
    store; [init] raises it exactly when uploads are enabled and Dropzone is
    not loaded.  No other operation of the model ever raises it. *)
Theorem C7_HGridError_exactly_three :
  (∀ dropzone o s,
     is_HGridError (HGrid_new dropzone o s) = true ↔
       (is_Some (opt_data o) ∧ truthy_opt (opt_ajaxSource o) = true) ∨
       ((opt_data o = None ∨ ∃ l, opt_data o = Some (Some (DArr l))) ∧
        opt_uploads o = true ∧ dropzone = false)) ∧
  (∀ dropzone o s,
     is_Some (opt_data o) → truthy_opt (opt_ajaxSource o) = true →
     HGrid_new dropzone o s = Err (HGridError both_sources_msg)) ∧
  (∀ n dv,
     is_HGridError (updateDataView n dv) = true ↔
       is_tree n = true ∧ n_dataView (info_of n) = false) ∧
  (∀ dropzone o g,
     is_HGridError (HGrid_init dropzone o g) = true ↔
       opt_uploads o = true ∧ dropzone = false) ∧
  (∀ data parent s, is_HGridError (Tree_fromObject data parent s) = false) ∧
  (∀ n hideSelf dv, is_HGridError (collapse n hideSelf dv) = false) ∧
  (∀ n notFirst dv, is_HGridError (expand n notFirst dv) = false) ∧
  (∀ n dv, is_HGridError (isCollapsed n dv) = false) ∧
  (∀ this cs c b dv, is_HGridError (Tree_add this cs c b dv) = false) ∧
  (∀ id g, is_HGridError (removeItem id g) = false) ∧
  (∀ it g, is_HGridError (addItem it g) = false) ∧
  (∀ items g, is_HGridError (addItems items g) = false) ∧
  (∀ G rows g, is_HGridError (onMoveRows G rows g) = false).
Proof.
  split_and!.
  - apply HGrid_new_HGridError.
  - intros dropzone o s Hdata Hajax. unfold HGrid_new.
    by rewrite bool_decide_eq_true_2, Hajax.
  - apply updateDataView_HGridError.
  - apply HGrid_init_HGridError.
  - intros [l|ob] [p|] s; done.
  - intros n hideSelf dv. rewrite collapse_walk. apply walk_not_HGridError.
  - intros n notFirst dv. rewrite expand_walk. apply walk_not_HGridError.
  - intros [i|i cs] dv; [done|]. cbn [isCollapsed].
    apply bind_not_HGridError; [apply getItem_not_HGridError|]. by intros [k|].
  - auto with hgrid_error.
  - auto with hgrid_error.
  - auto with hgrid_error.
  - auto with hgrid_error.
  - auto with hgrid_error.
Qed.

(** ** Adding a child to a node of the tree *)

Lemma find_node_None_set_children (r : nat) (cs' : list node) (n : node) :
  find_node r n = None → set_children r cs' n = n.
Proof.
  induction n as [i|i ds IH] using node_ind; [done|].
  cbn [find_node set_children info_of]. case_bool_decide; [done|].
  intros Hfind. f_equal. induction IH as [|d ds Hd _ IHds]; [done|].
  cbn [find_in] in Hfind. destruct (find_node r d) eqn:Hd'; [done|].
  cbn [map]. by rewrite Hd, IHds.
Qed.

(** After [set_children] the node with identity [r] is found with its new
    children. *)
Lemma find_node_set_children (r : nat) (i : info) (cs cs' : list node) (n : node) :
  find_node r n = Some (Tree i cs) →
  find_node r (set_children r cs' n) = Some (Tree i cs').
Proof.
  induction n as [j|j ds IH] using node_ind.
  - cbn [find_node info_of]. by case_bool_decide.
  - cbn [find_node set_children info_of]. case_bool_decide as Href.
    + intros [= -> ->]. cbn [find_node info_of]. by rewrite bool_decide_eq_true_2.
    + intros Hfind. cbn [find_node info_of]. rewrite bool_decide_eq_false_2 by done.
      induction IH as [|d ds Hd _ IHds]; [done|].
      cbn [find_in] in Hfind. cbn [map find_in].
      destruct (find_node r d) as [x|] eqn:Hd'.
      * injection Hfind as ->. by rewrite Hd.
      * rewrite (find_node_None_set_children r cs' d Hd'), Hd'. by apply IHds.
Qed.

(** ** Stores with unique ids *)


Lemma row_ids_elem (dv : store) (it : jsobj) : it ∈ dv → getp it "id" ∈ row_ids dv.
Proof. intros Hin. unfold row_ids. by apply (list_elem_of_fmap_2 (λ it, getp it "id")). Qed.





(** ** Removing the moved rows *)


(** ** The copy of a moved row *)





(** ** Re-adding a copy under the target folder *)


Lemma getp_structural_other (i : info) (key : string) :
  key ≠ "id" → key ≠ "parentID" → key ≠ "depth" → key ≠ "_node" →
  getp (structural i) key = None.
Proof.
  intros H1 H2 H3 H4. unfold getp, structural. simpl.
  by rewrite !lookup_insert_ne, lookup_empty.
Qed.


Section move.
Variables (G : jsobj) (gid : value) (r : nat) (i : info).
Hypothesis G_id : getp G "id" = Some gid.
Hypothesis gid_not_root : gid ≠ ROOT_ID.
Hypothesis gid_not_null : gid ≠ VNull.
Hypothesis G_node : getp G "_node" = Some (VNode r).
Hypothesis i_dataView : n_dataView i = true.
Hypothesis i_depth : n_depth i ≠ Some (-1).



End move.

(** ** A drag-move as a whole *)





(** Moving b.txt and a.txt into pics: both rows end up under pics at depth 2. *)
Example move_into_pics :
  ∃ g',
    onMoveRows (Some pics_row) [2%nat; 1%nat] move_grid = Ok g' ∧
    map (λ it, (getp it "name", getp it "parentID", getp it "depth")) (dataView g') =
      [(Some (VStr "docs"), Some ROOT_ID, Some (VNum 1));
       (Some (VStr "pics"), Some ROOT_ID, Some (VNum 1));
       (Some (VStr "a.txt"), Some pics_id, Some (VNum 2));
       (Some (VStr "b.txt"), Some pics_id, Some (VNum 2))].
Proof. eexists. split; reflexivity. Qed.

(** * Further properties *)

(** ** Escaping markup *)

Lemma append_nil_l (s : string) : "" +:+ s = s.
Proof. reflexivity. Qed.

Lemma append_cons (a : ascii) (s1 s2 : string) : String a s1 +:+ s2 = String a (s1 +:+ s2).
Proof. reflexivity. Qed.

Lemma append_assoc (s1 s2 s3 : string) : (s1 +:+ s2) +:+ s3 = s1 +:+ (s2 +:+ s3).
Proof. induction s1 as [|a s1 IH]; (repeat (rewrite append_cons || rewrite append_nil_l)); [done|]. by rewrite IH. Qed.

Lemma chars_app (s1 s2 : string) : chars (s1 +:+ s2) = chars s1 ++ chars s2.
Proof.
  unfold chars. induction s1 as [|a s1 IH]; (repeat (rewrite append_cons || rewrite append_nil_l)); simpl; [done|]. by rewrite IH.
Qed.

Lemma length_append (s1 s2 : string) :
  String.length (s1 +:+ s2) = (String.length s1 + String.length s2)%nat.
Proof. induction s1 as [|a s1 IH]; (repeat (rewrite append_cons || rewrite append_nil_l)); simpl; [done|]. by rewrite IH. Qed.

Lemma replace_all_app (c : ascii) (rep s1 s2 : string) :
  replace_all c rep (s1 +:+ s2) = replace_all c rep s1 +:+ replace_all c rep s2.
Proof.
  induction s1 as [|a s1 IH]; (repeat (rewrite append_cons || rewrite append_nil_l)); simpl; [done|].
  destruct (Ascii.eqb a c); rewrite IH; [|done].
  by rewrite append_assoc.
Qed.

Lemma escape_cases (a : ascii) :
  (a = "&"%char ∧ escape a = "&amp;") ∨ (a = "<"%char ∧ escape a = "&lt;") ∨
  (a = ">"%char ∧ escape a = "&gt;") ∨
  (special a = false ∧ escape a = String a EmptyString).
Proof.
  unfold escape, special.
  destruct (Ascii.eqb_spec a "&") as [->|?]; [by left|].
  destruct (Ascii.eqb_spec a "<") as [->|?]; [right; by left|].
  destruct (Ascii.eqb_spec a ">") as [->|?]; [right; right; by left|].
  by repeat right.
Qed.

Lemma special_false (a : ascii) :
  special a = false → a ≠ "&"%char ∧ a ≠ "<"%char ∧ a ≠ ">"%char.
Proof.
  unfold special.
  destruct (Ascii.eqb_spec a "&"), (Ascii.eqb_spec a "<"), (Ascii.eqb_spec a ">"); done.
Qed.

(** The three passes together replace each character by its [escape]: the
    [&] of an entity written by a later pass is not escaped again, since the
    [&] pass comes first. *)
Lemma sanitized_string_cons (a : ascii) (s : string) :
  sanitized_string (String a s) = escape a +:+ sanitized_string s.
Proof.
  unfold sanitized_string, escape. cbn [replace_all].
  destruct (Ascii.eqb_spec a "&") as [->|Hamp].
  - by rewrite !replace_all_app.
  - cbn [replace_all]. destruct (Ascii.eqb_spec a "<") as [->|Hlt].
    + by rewrite replace_all_app.
    + cbn [replace_all]. by destruct (Ascii.eqb_spec a ">").
Qed.

Lemma sanitized_string_app (s1 s2 : string) :
  sanitized_string (s1 +:+ s2) = sanitized_string s1 +:+ sanitized_string s2.
Proof. unfold sanitized_string. by rewrite !replace_all_app. Qed.

Lemma sanitized_string_length (s : string) :
  (String.length s ≤ String.length (sanitized_string s))%nat.
Proof.
  induction s as [|a s IH]; [done|]. rewrite sanitized_string_cons, length_append.
  destruct (escape_cases a) as [[_ ->]|[[_ ->]|[[_ ->]|[_ ->]]]]; simpl; lia.
Qed.

(** Where a [&] of sanitized text continues. *)
Lemma sanitized_string_amp (s : string) :
  ∀ pre t, sanitized_string s = pre +:+ String "&" t →
    ∃ t', t = "amp;" +:+ t' ∨ t = "lt;" +:+ t' ∨ t = "gt;" +:+ t'.
Proof.
  induction s as [|a s IH]; intros pre t Heq.
  - by destruct pre.
  - rewrite sanitized_string_cons in Heq.
    destruct (escape_cases a) as [[_ He]|[[_ He]|[[_ He]|[Hsp He]]]]; rewrite He in Heq;
      (repeat (rewrite append_cons in Heq || rewrite append_nil_l in Heq)).
    + destruct pre as [|p pre]; (repeat (rewrite append_cons in Heq || rewrite append_nil_l in Heq)).
      * injection Heq as <-. eexists. left. reflexivity.
      * injection Heq as <- Heq.
        do 4 (destruct pre as [|? pre]; (repeat (rewrite append_cons in Heq || rewrite append_nil_l in Heq)); [discriminate Heq|];
              injection Heq as <- Heq).
        by eapply IH.
    + destruct pre as [|p pre]; (repeat (rewrite append_cons in Heq || rewrite append_nil_l in Heq)).
      * injection Heq as <-. eexists. right. left. reflexivity.
      * injection Heq as <- Heq.
        do 3 (destruct pre as [|? pre]; (repeat (rewrite append_cons in Heq || rewrite append_nil_l in Heq)); [discriminate Heq|];
              injection Heq as <- Heq).
        by eapply IH.
    + destruct pre as [|p pre]; (repeat (rewrite append_cons in Heq || rewrite append_nil_l in Heq)).
      * injection Heq as <-. eexists. right. right. reflexivity.
      * injection Heq as <- Heq.
        do 3 (destruct pre as [|? pre]; (repeat (rewrite append_cons in Heq || rewrite append_nil_l in Heq)); [discriminate Heq|];
              injection Heq as <- Heq).
        by eapply IH.
    + apply special_false in Hsp as (Hamp & _).
      destruct pre as [|p pre]; (repeat (rewrite append_cons in Heq || rewrite append_nil_l in Heq)).
      * injection Heq as -> _. done.
      * injection Heq as <- Heq. by eapply IH.
Qed.

Lemma sanitized_string_angle (s : string) :
  ("<"%char ∉ chars (sanitized_string s)) ∧ (">"%char ∉ chars (sanitized_string s)).
Proof.
  induction s as [|a s [IH1 IH2]].
  - split; apply not_elem_of_nil.
  - rewrite sanitized_string_cons, chars_app.
    destruct (escape_cases a) as [[_ ->]|[[_ ->]|[[_ ->]|[Hsp ->]]]];
      (split; intros [Hin|Hin]%elem_of_app; [|done| |done]);
      try (apply special_false in Hsp as (? & ? & ?));
      unfold chars in Hin; simpl in Hin;
      repeat (apply elem_of_cons in Hin as [Hin|Hin]; [congruence|]);
      by apply elem_of_nil in Hin.
Qed.

(** X1.  [sanitized] returns, for every string, a text without [<] and
    without [>], in which every [&] starts one of the entities [&amp;],
    [&lt;] and [&gt;]. *)
Theorem sanitized_text_is_markup_free (s : string) :
  ∃ out,
    sanitized (Some (VStr s)) = Ok out ∧
    ("<"%char ∉ chars out) ∧
    (">"%char ∉ chars out) ∧
    (∀ pre t, out = pre +:+ String "&" t →
       ∃ t', t = "amp;" +:+ t' ∨ t = "lt;" +:+ t' ∨ t = "gt;" +:+ t').
Proof.
  exists (sanitized_string s). split_and!; [done| | |].
  - apply sanitized_string_angle.
  - apply sanitized_string_angle.
  - apply sanitized_string_amp.
Qed.

Lemma sanitized_string_inj (s1 : string) :
  ∀ s2, sanitized_string s1 = sanitized_string s2 → s1 = s2.
Proof.
  induction s1 as [|a s1 IH]; intros [|b s2] Heq; [done| | |].
  - rewrite sanitized_string_cons in Heq.
    destruct (escape_cases b) as [[_ He]|[[_ He]|[[_ He]|[_ He]]]]; rewrite He in Heq; done.
  - rewrite sanitized_string_cons in Heq.
    destruct (escape_cases a) as [[_ He]|[[_ He]|[[_ He]|[_ He]]]]; rewrite He in Heq; done.
  - rewrite !sanitized_string_cons in Heq.
    destruct (escape_cases a) as [[-> Ha]|[[-> Ha]|[[-> Ha]|[Hsa Ha]]]];
    destruct (escape_cases b) as [[-> Hb]|[[-> Hb]|[[-> Hb]|[Hsb Hb]]]];
      rewrite ?Ha, ?Hb in Heq; (repeat (rewrite append_cons in Heq || rewrite append_nil_l in Heq));
      try discriminate Heq;
      try (apply special_false in Hsa as (? & ? & ?));
      try (apply special_false in Hsb as (? & ? & ?));
      try (injection Heq as Heq; f_equal; by apply IH);
      try (injection Heq as ? Heq; congruence).
    injection Heq as -> Heq. f_equal. by apply IH.
Qed.

(** X2.  [sanitized] loses nothing: two strings with the same sanitized text
    are the same string, and the sanitized text of a concatenation is the
    concatenation of the sanitized texts. *)
Theorem sanitized_injective (s1 s2 : string) :
  (sanitized (Some (VStr s1)) = sanitized (Some (VStr s2)) ↔ s1 = s2) ∧
  sanitized (Some (VStr (s1 +:+ s2))) =
    (t1 ← sanitized (Some (VStr s1)); t2 ← sanitized (Some (VStr s2)); Ok (t1 +:+ t2)).
Proof.
  split.
  - split; [|by intros ->]. intros [= Heq]. by apply sanitized_string_inj.
  - simpl. by rewrite sanitized_string_app.
Qed.

Lemma sanitized_string_fixed (s : string) :
  sanitized_string s = s ↔ Forall (λ a, special a = false) (chars s).
Proof.
  induction s as [|a s IH]; [by split; [constructor|]|].
  rewrite sanitized_string_cons. unfold chars in *. cbn [String.list_ascii_of_string].
  rewrite Forall_cons. pose proof (sanitized_string_length s) as Hlen.
  destruct (escape_cases a) as [[-> Ha]|[[-> Ha]|[[-> Ha]|[Hsa Ha]]]];
    rewrite Ha; (repeat (rewrite append_cons || rewrite append_nil_l)).
  1-3: split; [|by intros [[=] _]]; intros [= Heq];
       apply (f_equal String.length) in Heq; rewrite ?length_append in Heq; simpl in Heq; lia.
  split.
  - intros [= Heq]. split; [done|]. by apply IH.
  - intros [_ Hs]. f_equal. by apply IH.
Qed.

(** X3.  [sanitized] returns a string unchanged exactly when the string has
    none of the characters [&], [<] and [>]; sanitizing a text that has one
    of them a second time changes it again. *)
Theorem sanitized_unchanged_iff (s : string) :
  (sanitized (Some (VStr s)) = Ok s ↔ Forall (λ a, special a = false) (chars s)) ∧
  (∀ t, sanitized (Some (VStr s)) = Ok t → t ≠ s → sanitized (Some (VStr t)) ≠ Ok t).
Proof.
  split.
  - rewrite <- sanitized_string_fixed. simpl. split; [by intros [= ?] | by intros ->].
  - intros t [= <-] Hne [= Heq]. apply Hne. by apply sanitized_string_inj.
Qed.

(** ** Walks on any store *)

Section walk_frame_lemmas.

Variable self : node → bool → jsobj → jsobj.

Variable stop : jsobj → bool.

Variable R : jsobj → jsobj → Prop.

Hypothesis self_id : ∀ n flag, id_preserving (self n flag).

Hypothesis R_refl : ∀ it, R it it.

Hypothesis R_trans : ∀ a b c, R a b → R b c → R a c.

Hypothesis R_self : ∀ n flag it, R it (self n flag it).

Lemma Forall2_R_refl (dv : store) : Forall2 R dv dv.
Proof. induction dv; constructor; auto. Qed.

Lemma Forall2_R_trans (dv1 dv2 dv3 : store) :
  Forall2 R dv1 dv2 → Forall2 R dv2 dv3 → Forall2 R dv1 dv3.
Proof. intros H1 H2. eapply Forall2_trans; [|exact H1|exact H2]. eauto. Qed.

Lemma upd_row_frame (item : option nat) (n : node) (flag : bool) (dv dv' : store) :
  upd_row item (self n flag) dv = Ok dv' →
  Forall2 R dv dv' ∧ ∀ x, getIdxById x dv' = getIdxById x dv.
Proof.
  destruct item as [k|]; [|done]. intros [= <-]. split.
  - apply Forall2_alter_r; [apply Forall2_R_refl|]. intros x y _ _ Hxy.
    eapply R_trans; [exact Hxy | apply R_self].
  - intros x. by apply getIdxById_alter.
Qed.

Lemma walk_children_frame (body : node → store → result store) (cs : list node) :
  Forall (λ c, ∀ dv dv', body c dv = Ok dv' →
            Forall2 R dv dv' ∧ ∀ x, getIdxById x dv' = getIdxById x dv) cs →
  ∀ dv dv', for_each_child body cs dv = Ok dv' →
    Forall2 R dv dv' ∧ ∀ x, getIdxById x dv' = getIdxById x dv.
Proof.
  induction 1 as [|c cs Hc _ IH]; intros dv dv'; cbn [for_each_child].
  - intros [= <-]. split; [apply Forall2_R_refl | done].
  - destruct (body c dv) as [dv1|e] eqn:Hrun; [|done]. cbn [mbind result_bind].
    intros Hrest. destruct (Hc dv dv1 Hrun) as [HR1 Hi1].
    destruct (IH dv1 dv' Hrest) as [HR2 Hi2]. split.
    + by eapply Forall2_R_trans.
    + intros x. by rewrite Hi2, Hi1.
Qed.

(** A walk that succeeds leaves every row in its place, with its id, and
    related by [R] to what it was. *)
Lemma walk_frame (n : node) :
  ∀ flag dv dv', walk self stop n flag dv = Ok dv' →
    Forall2 R dv dv' ∧ ∀ x, getIdxById x dv' = getIdxById x dv.
Proof.
  induction n as [i|i cs IH] using node_ind; intros flag dv dv'; cbn [walk].
  - destruct (getItem i dv) as [item|e]; [|done]. cbn [mbind result_bind].
    apply upd_row_frame.
  - destruct (getItem i dv) as [item|e]; [|done]. cbn [mbind result_bind].
    destruct (upd_row item (self (Tree i cs) flag) dv) as [dv1|e] eqn:Hupd; [|done].
    cbn [mbind result_bind]. intros Hloop.
    destruct (upd_row_frame _ _ _ _ _ Hupd) as [HR1 Hi1].
    destruct (walk_children_frame
                (λ node dv0, if stop_at stop item dv0 then Ok dv0
                              else walk self stop node true dv0) cs) with (dv := dv1) (dv' := dv')
      as [HR2 Hi2]; [|done|].
    + eapply Forall_impl; [exact IH|]. intros c Hc dv2 dv3. cbn beta.
      destruct (stop_at stop item dv2).
      * intros [= <-]. split; [apply Forall2_R_refl | done].
      * apply Hc.
    + split; [by eapply Forall2_R_trans|]. intros x. by rewrite Hi2, Hi1.
Qed.

(** A walk fails with a TypeError only. *)
Lemma walk_error (n : node) :
  ∀ flag dv e, walk self stop n flag dv = Err e → e = TypeError.
Proof.
  assert (Hupd : ∀ item f dv e, upd_row item f dv = Err e → e = TypeError).
  { intros [k|] f dv e; [done|]. by intros [= <-]. }
  assert (Hget : ∀ i dv e, getItem i dv = Err e → e = TypeError).
  { intros i dv e. unfold getItem. destruct (n_dataView i); [done|]. by intros [= <-]. }
  induction n as [i|i cs IH] using node_ind; intros flag dv e; cbn [walk].
  - destruct (getItem i dv) as [item|e'] eqn:Hg; cbn [mbind result_bind].
    + apply Hupd.
    + intros [= <-]. by eapply Hget.
  - destruct (getItem i dv) as [item|e'] eqn:Hg; cbn [mbind result_bind].
    2:{ intros [= <-]. by eapply Hget. }
    destruct (upd_row item (self (Tree i cs) flag) dv) as [dv1|e'] eqn:Hu;
      cbn [mbind result_bind].
    2:{ intros [= <-]. by eapply Hupd. }
    clear Hu. revert dv1. induction IH as [|c cs Hc _ IHcs]; intros dv1; cbn [for_each_child].
    + done.
    + destruct (stop_at stop item dv1).
      * cbn [mbind result_bind]. apply IHcs.
      * destruct (walk self stop c true dv1) as [dv2|e'] eqn:Hw; cbn [mbind result_bind].
        -- apply IHcs.
        -- intros [= <-]. by eapply Hc.
Qed.

End walk_frame_lemmas.

Lemma has_row_idx (dv dv' : store) (m : node) :
  (∀ x, getIdxById x dv' = getIdxById x dv) → has_row dv m → has_row dv' m.
Proof. intros Hi [? ?]. split; [done|]. by rewrite Hi. Qed.

(** ** Walks that never stop *)

Section walk_all.

Variable self : node → bool → jsobj → jsobj.

Hypothesis self_id : ∀ n flag, id_preserving (self n flag).

Lemma walk_ids (n : node) (flag : bool) (dv dv' : store) :
  walk self (λ _, false) n flag dv = Ok dv' → ∀ x, getIdxById x dv' = getIdxById x dv.
Proof.
  intros Hrun.
  by destruct (walk_frame self (λ _, false) (λ _ _, True) self_id ltac:(done) ltac:(done) ltac:(done)
                 n flag dv dv' Hrun).
Qed.

Lemma walk_all_ok (n : node) :
  ∀ flag dv, Forall (has_row dv) (subnodes n) → ∃ dv', walk self (λ _, false) n flag dv = Ok dv'.
Proof.
  induction n as [i|i cs IH] using node_ind; intros flag dv Hall; cbn [subnodes] in Hall;
    apply Forall_cons in Hall as [[Hdv [k Hk]] Hall]; cbn [walk]; unfold getItem;
    simpl in Hdv; unfold node_id in Hk; simpl in Hk; rewrite Hdv, Hk; cbn [mbind result_bind upd_row].
  - eauto.
  - set (dv1 := alter (self (Tree i cs) flag) k dv).
    assert (Hi1 : ∀ x, getIdxById x dv1 = getIdxById x dv).
    { intros x. by apply getIdxById_alter. }
    clearbody dv1. revert dv1 Hi1. induction IH as [|c cs Hc _ IHcs]; intros dv1 Hi1.
    + eauto.
    + cbn [flat_map] in Hall. apply Forall_app in Hall as [Hall_c Hall_r].
      cbn [for_each_child]. rewrite stop_at_never.
      destruct (Hc true dv1) as [dv2 Hrun].
      { eapply Forall_impl; [exact Hall_c|]. intros m. by apply has_row_idx. }
      rewrite Hrun. cbn [mbind result_bind]. apply IHcs; [done|].
      intros x. by rewrite (walk_ids _ _ _ _ Hrun).
Qed.

Lemma walk_all_inv (n : node) :
  ∀ flag dv dv', walk self (λ _, false) n flag dv = Ok dv' → Forall (has_row dv) (subnodes n).
Proof.
  induction n as [i|i cs IH] using node_ind; intros flag dv dv'; cbn [walk subnodes];
    unfold getItem; destruct (n_dataView i) eqn:Hdv; try done; cbn [mbind result_bind];
    destruct (getIdxById (n_id i) dv) as [k|] eqn:Hk; try done; cbn [upd_row mbind result_bind].
  - intros _. repeat constructor; [done | by eexists].
  - intros Hloop. apply Forall_cons. split; [split; [done | by eexists]|].
    set (dv1 := alter (self (Tree i cs) flag) k dv) in Hloop.
    assert (Hi1 : ∀ x, getIdxById x dv1 = getIdxById x dv).
    { intros x. by apply getIdxById_alter. }
    clearbody dv1. revert dv1 Hi1 Hloop.
    induction IH as [|c cs Hc _ IHcs]; intros dv1 Hi1; cbn [for_each_child flat_map].
    + constructor.
    + rewrite stop_at_never. destruct (walk self (λ _, false) c true dv1) as [dv2|e] eqn:Hrun; [|done].
      cbn [mbind result_bind]. intros Hrest. apply Forall_app. split.
      * eapply Forall_impl; [by eapply Hc|]. intros m Hm. eapply has_row_idx; [|exact Hm].
        intros x. by rewrite Hi1.
      * apply (IHcs dv2); [|done]. intros x. by rewrite (walk_ids _ _ _ _ Hrun).
Qed.

End walk_all.

(** X4.  [collapse] succeeds exactly when every node of the subtree has its
    row: it refers to the store and the store has a row with its id.  When a
    node of the subtree lacks that, [collapse] throws a TypeError. *)
Theorem collapse_succeeds_iff_rows (n : node) (hideSelf : bool) (dv : store) :
  ((∃ dv', collapse n hideSelf dv = Ok dv') ↔ Forall (has_row dv) (subnodes n)) ∧
  (∀ e, collapse n hideSelf dv = Err e → e = TypeError).
Proof.
  rewrite collapse_walk. split; [split|].
  - intros [dv' Hrun]. by eapply walk_all_inv; [apply collapse_self_id|].
  - apply walk_all_ok, collapse_self_id.
  - apply walk_error.
Qed.

(** ** What [collapse] and [expand] leave alone *)

Lemma same_but_flags_refl (it : jsobj) : same_but_flags it it.
Proof. by split. Qed.

Lemma same_but_flags_trans (a b c : jsobj) :
  same_but_flags a b → same_but_flags b c → same_but_flags a c.
Proof.
  intros [Hab Hab'] [Hbc Hbc']. split; [|congruence].
  intros key H1 H2. by rewrite Hbc, Hab.
Qed.

Lemma same_but_flags_setp (k : string) (v : value) (it : jsobj) :
  k = "_hidden" ∨ k = "_collapsed" → same_but_flags it (setp k v it).
Proof.
  intros Hk. split; [|done]. intros key H1 H2. apply getp_setp_ne.
  destruct Hk; congruence.
Qed.

Lemma same_but_flags_collapse (n : node) (flag : bool) (it : jsobj) :
  same_but_flags it (collapse_self n flag it).
Proof.
  destruct n, flag; cbn [collapse_self compose];
    repeat (eapply same_but_flags_trans; [|apply same_but_flags_setp; auto]);
    apply same_but_flags_refl.
Qed.

Lemma same_but_flags_expand (n : node) (flag : bool) (it : jsobj) :
  same_but_flags it (expand_self n flag it).
Proof.
  destruct n, flag; cbn [expand_self compose];
    repeat (eapply same_but_flags_trans; [|apply same_but_flags_setp; auto]);
    apply same_but_flags_refl.
Qed.

Lemma same_but_flags_row_ids (dv dv' : store) :
  Forall2 same_but_flags dv dv' → row_ids dv' = row_ids dv.
Proof.
  induction 1 as [|it it' dv dv' [Hit _] _ IH]; [done|].
  unfold row_ids in *. cbn [map]. by rewrite IH, Hit.
Qed.

(** X5.  A [collapse] or an [expand] that succeeds, on any node and any
    store, writes nothing but the [_hidden] and [_collapsed] flags: the store
    keeps its length, every row keeps its place and all its other properties,
    and so the ids of the rows stay as they were. *)
Theorem collapse_expand_write_flags_only (n : node) (flag : bool) (dv dv' : store) :
  collapse n flag dv = Ok dv' ∨ expand n flag dv = Ok dv' →
  Forall2 same_but_flags dv dv' ∧
  length dv' = length dv ∧
  row_ids dv' = row_ids dv.
Proof.
  intros Hrun.
  assert (HF : Forall2 same_but_flags dv dv').
  { destruct Hrun as [Hrun|Hrun].
    - rewrite collapse_walk in Hrun.
      by destruct (walk_frame collapse_self (λ _, false) same_but_flags collapse_self_id
                     same_but_flags_refl same_but_flags_trans same_but_flags_collapse
                     n flag dv dv' Hrun).
    - rewrite expand_walk in Hrun.
      by destruct (walk_frame expand_self is_collapsed_row same_but_flags expand_self_id
                     same_but_flags_refl same_but_flags_trans same_but_flags_expand
                     n flag dv dv' Hrun). }
  split_and!; [done| |by apply same_but_flags_row_ids].
  symmetry. by eapply Forall2_length.
Qed.

Lemma collapse_expand_write_flags_only_witness :
  Forall2 same_but_flags scenario_store collapsed_store ∧
  length collapsed_store = length scenario_store ∧
  row_ids collapsed_store = row_ids scenario_store.
Proof.
  apply (collapse_expand_write_flags_only docs_node false scenario_store collapsed_store).
  left. reflexivity.
Defined.

(** ** Collapsing twice *)

Lemma collapse_self_idem (m : node) (f : bool) (it : jsobj) :
  collapse_self m f (collapse_self m f it) = collapse_self m f it.
Proof.
  destruct m, f; simpl; try apply setp_setp; by apply setp_setp2.
Qed.

Lemma stopped_never self (n : node) (flag : bool) (dv : store) :
  stopped self (λ _, false) n flag dv = false.
Proof. unfold stopped. by destruct (getItemById _ _). Qed.

Lemma visits_never self (dv dv2 : store) (n : node) (flag : bool) :
  visits self (λ _, false) dv flag n = visits self (λ _, false) dv2 flag n.
Proof.
  apply visits_ext_stopped.
  - by rewrite !stopped_never.
  - intros m _. by rewrite !stopped_never.
Qed.

(** X6.  For a node whose subtree is materialized in the store, [collapse]
    succeeds and a second [collapse] leaves the store as the first one left
    it. *)
Theorem collapse_idempotent (N : node) (hideSelf : bool) (dv : store) :
  materialized N dv →
  ∃ dv1, collapse N hideSelf dv = Ok dv1 ∧ collapse N hideSelf dv1 = Ok dv1.
Proof.
  intros Hmat.
  destruct (walk_spec collapse_self (λ _, false) collapse_self_id N hideSelf dv Hmat)
    as (dv1 & Hrun1 & Hpost1).
  assert (Hmat1 : materialized N dv1).
  { eapply materialized_idx; [|exact Hmat]. by destruct Hpost1. }
  destruct (walk_spec collapse_self (λ _, false) collapse_self_id N hideSelf dv1 Hmat1)
    as (dv2 & Hrun2 & Hpost2).
  rewrite (visits_never collapse_self dv1 dv) in Hpost2.
  assert (dv2 = dv1) as ->.
  { eapply walk_post_twice; [apply collapse_self_idem | exact Hpost1 | exact Hpost2]. }
  exists dv1. by rewrite !collapse_walk.
Qed.

Lemma collapse_idempotent_witness :
  ∃ dv1, collapse docs_node false scenario_store = Ok dv1 ∧
         collapse docs_node false dv1 = Ok dv1.
Proof.
  apply (collapse_idempotent docs_node false scenario_store).
  apply (bool_decide_unpack _). vm_compute. reflexivity.
Defined.

(** ** Collapsing and expanding again *)

Lemma reached_ext (dv dv' : store) (n : node) :
  (∀ m, m ∈ subnodes n → is_tree m = true →
        from_option is_collapsed_row false (node_row m dv') =
        from_option is_collapsed_row false (node_row m dv)) →
  reached dv' n = reached dv n.
Proof.
  induction n as [i|i cs IH] using node_ind; intros Hrows; [done|].
  cbn [reached].
  pose proof (Hrows (Tree i cs) (subnodes_self _) eq_refl) as Htop.
  unfold node_row, node_id in Htop. cbn [info_of] in Htop. rewrite Htop.
  clear Htop. destruct (from_option is_collapsed_row false (getItemById (n_id i) dv)); [done|].
  f_equal. apply flat_map_ext_elem. intros c Hc. rewrite Forall_forall in IH. apply IH; [done|].
  intros m Hm. apply Hrows. cbn [subnodes]. apply elem_of_cons. right.
  apply elem_of_flat_map. eauto.
Qed.

Lemma subnodes_descendants (n : node) : subnodes n = n :: descendants n.
Proof. by destruct n. Qed.

Lemma visible_row_ids (dv dv' : store) :
  Forall2 (λ a b, collapseFilter a = collapseFilter b ∧ getp a "id" = getp b "id") dv dv' →
  row_ids (visible dv) = row_ids (visible dv').
Proof.
  unfold visible, row_ids. induction 1 as [|a b dv dv' [Hf Hid] _ IH]; [done|].
  rewrite !filter_cons. rewrite Hf. destruct (decide (collapseFilter b = true)); [|done].
  cbn [map]. by rewrite IH, Hid.
Qed.

Lemma collapse_self_hidden (m : node) (it : jsobj) :
  collapseFilter (collapse_self m true it) = false.
Proof.
  unfold collapseFilter. destruct m; cbn [collapse_self compose].
  - by rewrite getp_setp_ne, getp_setp_eq.
  - by rewrite getp_setp_eq.
Qed.

Lemma expand_self_shown (m : node) (f : bool) (it : jsobj) :
  collapseFilter (expand_self m f it) = true.
Proof.
  unfold collapseFilter. destruct m, f; cbn [expand_self compose];
    rewrite ?getp_setp_eq; try done; by rewrite getp_setp_ne, getp_setp_eq.
Qed.

Lemma expand_self_collapsed (m : node) (it : jsobj) :
  getp (expand_self m false it) "_collapsed" = Some (VBool false).
Proof.
  destruct m; cbn [expand_self compose]; rewrite ?getp_setp_eq; try done.
  by rewrite getp_setp_ne, getp_setp_eq.
Qed.

Lemma collapse_self_collapsed (m : node) (it : jsobj) :
  getp (collapse_self m false it) "_collapsed" = Some (VBool true).
Proof.
  destruct m; cbn [collapse_self compose]; rewrite ?getp_setp_eq; try done.
  by rewrite getp_setp_ne, getp_setp_eq.
Qed.

Lemma isCollapsed_row (N : node) (dv : store) (it : jsobj) :
  is_tree N = true →
  n_dataView (info_of N) = true → node_row N dv = Some it →
  isCollapsed N dv = Ok (getp it "_collapsed").
Proof.
  intros Htree Hdv Hrow. destruct N as [i|i cs]; [done|].
  unfold node_row, getItemById, node_id in Hrow. cbn [info_of] in Hdv, Hrow.
  cbn [isCollapsed]. unfold getItem. rewrite Hdv. cbn [mbind result_bind].
  destruct (getIdxById (n_id i) dv) as [k|]; [|done].
  cbn [mbind option_bind] in Hrow. unfold read_row. cbn [mbind option_bind].
  by rewrite Hrow.
Qed.

Lemma visits_subnodes_any self stop (dv : store) (n : node) (flag : bool) (m : node) (f : bool) :
  (m, f) ∈ visits self stop dv flag n → m ∈ subnodes n.
Proof. apply visits_subnodes. Qed.

(** X7.  Collapsing a folder and expanding it again restores the view.  For
    a Tree [N] whose subtree is materialized and shown as an expanded folder
    shows it, [collapse()] succeeds, after which [isCollapsed()] is true, and
    [expand()] then succeeds, after which [isCollapsed()] is false and every
    row of the store is visible exactly if it was visible before the two
    calls; the folders below [N] that were marked collapsed still are.  (A
    Leaf has no [isCollapsed].) *)
Theorem collapse_then_expand_restores_view (N : node) (dv : store) :
  is_tree N = true →
  materialized N dv →
  expanded_view N dv →
  ∃ dv1 dv2,
    collapse N false dv = Ok dv1 ∧
    isCollapsed N dv1 = Ok (Some (VBool true)) ∧
    expand N false dv1 = Ok dv2 ∧
    isCollapsed N dv2 = Ok (Some (VBool false)) ∧
    map collapseFilter dv2 = map collapseFilter dv ∧
    row_ids (visible dv2) = row_ids (visible dv) ∧
    (∀ m, m ∈ descendants N → is_tree m = true →
          is_collapsed_row <$> node_row m dv2 = is_collapsed_row <$> node_row m dv).
Proof.
  intros HtreeN Hmat (Hvis & Hcol & Hcons). pose proof Hmat as [Hall Hnd].
  destruct (walk_spec collapse_self (λ _, false) collapse_self_id N false dv Hmat)
    as (dv1 & Hrun1 & Hpost1).
  assert (Hmat1 : materialized N dv1).
  { eapply materialized_idx; [|exact Hmat]. by destruct Hpost1. }
  destruct (walk_spec expand_self is_collapsed_row expand_self_id N false dv1 Hmat1)
    as (dv2 & Hrun2 & Hpost2).
  rewrite expand_visits_top in Hpost2.
  set (V1 := visits collapse_self (λ _, false) dv false N) in *.
  set (R := flat_map (reached dv) (node_children N)).
  assert (HV1_top : (N, false) ∈ V1).
  { subst V1. destruct N; simpl; by left. }
  assert (HV1_desc : ∀ m, m ∈ descendants N → (m, true) ∈ V1).
  { apply collapse_visits_descendants. }
  assert (Hrow1 : ∀ m f, (m, f) ∈ V1 →
            ∃ r, node_row m dv = Some r ∧ node_row m dv1 = Some (collapse_self m f r)).
  { intros m f Hm. eapply walk_post_row; [exact Hpost1 | exact Hm |].
    eapply materialized_subnode; [exact Hmat|]. by eapply visits_subnodes_any. }
  assert (HR : flat_map (reached dv1) (node_children N) = R).
  { apply flat_map_ext_elem. intros c Hc. apply reached_ext. intros m Hm Htree.
    assert (Hmd : m ∈ descendants N) by (apply elem_of_flat_map; eauto).
    destruct (Hrow1 m true (HV1_desc m Hmd)) as (r & -> & ->). simpl.
    destruct m; [done|]. simpl. apply is_collapsed_row_hidden. }
  rewrite HR in Hpost2.
  set (V2 := (N, false) :: map (λ m, (m, true)) R) in *.
  assert (HR_desc : ∀ m, m ∈ R → m ∈ descendants N).
  { intros m (c & Hc & Hm)%elem_of_flat_map. apply elem_of_flat_map.
    exists c. split; [done|]. by eapply reached_subnodes. }
  assert (Hrow2 : ∀ m f, (m, f) ∈ V2 →
            ∃ r, node_row m dv1 = Some r ∧ node_row m dv2 = Some (expand_self m f r)).
  { intros m f Hm. eapply walk_post_row; [exact Hpost2 | exact Hm |].
    eapply materialized_subnode; [exact Hmat1|].
    apply elem_of_cons in Hm as [[= -> ->]|Hm]; [apply subnodes_self|].
    apply list_elem_of_fmap in Hm as (m' & [= -> ->] & Hm').
    by apply descendants_subnodes, HR_desc. }
  assert (Hframe2 : ∀ m, m ∈ descendants N → node_id m ∉ map node_id R →
                         node_row m dv2 = node_row m dv1).
  { intros m Hm Hnot. eapply walk_post_row_frame; [exact Hpost2|].
    intros m' f [[= -> ->]|Hm']%elem_of_cons Heq.
    - by eapply materialized_top_fresh.
    - apply list_elem_of_fmap in Hm' as (m'' & [= -> ->] & Hm').
      apply Hnot. rewrite <- Heq. by apply list_elem_of_fmap_2. }
  destruct (Hrow1 N false HV1_top) as (rN & HrN & HrN1).
  destruct (Hrow2 N false ltac:(by left)) as (rN' & HrN1' & HrN2).
  rewrite HrN1 in HrN1'. injection HrN1' as <-.
  assert (HdvN : n_dataView (info_of N) = true).
  { rewrite Forall_forall in Hall. by apply (Hall N (subnodes_self N)). }
  (* the rows of the descendants after both calls *)
  assert (Hdesc : ∀ m, m ∈ descendants N →
            ∃ r r2, node_row m dv = Some r ∧ node_row m dv2 = Some r2 ∧
                    collapseFilter r2 = collapseFilter r ∧
                    (is_tree m = true → is_collapsed_row r2 = is_collapsed_row r)).
  { intros m Hm. destruct (Hrow1 m true (HV1_desc m Hm)) as (r & Hr & Hr1).
    rewrite Forall_forall in Hcons. pose proof (Hcons m Hm) as Hc. rewrite Hr in Hc.
    cbn [from_option] in Hc.
    destruct (decide (node_id m ∈ map node_id R)) as [Hin|Hnot].
    - apply list_elem_of_fmap in Hin as (m' & Heq & Hm').
      assert (m' = m) as ->.
      { eapply (NoDup_map_inj node_id (subnodes N)); eauto; apply descendants_subnodes; auto. }
      destruct (Hrow2 m true) as (r1 & Hr1' & Hr2).
      { apply elem_of_cons. right. by apply (list_elem_of_fmap_2 (λ m, (m, true))). }
      rewrite Hr1 in Hr1'. injection Hr1' as <-.
      exists r, (expand_self m true (collapse_self m true r)). split_and!; [done|done| |].
      + rewrite expand_self_shown, Hc. symmetry. apply bool_decide_eq_true_2.
        by apply list_elem_of_fmap_2.
      + intros Htree. destruct m; [done|]. simpl. by rewrite !is_collapsed_row_hidden.
    - exists r, (collapse_self m true r). split_and!; [done| | |].
      + by rewrite (Hframe2 m Hm Hnot).
      + rewrite collapse_self_hidden, Hc. symmetry. by apply bool_decide_eq_false_2.
      + intros Htree. destruct m; [done|]. simpl. by rewrite is_collapsed_row_hidden. }
  (* every row is visible as before *)
  pose proof Hpost1 as (Hi1 & Ho1 & Hf1). pose proof Hpost2 as (Hi2 & Ho2 & Hf2).
  assert (Hlook : ∀ m k, m ∈ subnodes N → getIdxById (node_id m) dv = Some k →
            node_row m dv = dv !! k ∧ node_row m dv2 = dv2 !! k).
  { intros m k _ Hk. unfold node_row. split; [by apply getItemById_idx|].
    apply getItemById_idx. by rewrite Hi2, Hi1. }
  assert (Hpt : ∀ k, collapseFilter <$> dv2 !! k = collapseFilter <$> dv !! k).
  { intros k. destruct (visited_idx_dec V1 dv k) as [(m & f & Hm & Hk)|Hnone].
    - assert (Hsub : m ∈ subnodes N) by by eapply visits_subnodes_any.
      destruct (Hlook m k Hsub Hk) as [<- <-].
      destruct (visits_flag _ _ _ _ _ _ _ Hm) as [[-> ->]|[-> Hmd]].
      + rewrite HrN, HrN2. simpl. rewrite expand_self_shown.
        rewrite HrN in Hvis. simpl in Hvis. by rewrite Hvis.
      + destruct (Hdesc m Hmd) as (r & r2 & -> & -> & Hf & _). simpl. by rewrite Hf.
    - rewrite Hf2, Hf1; [done|done|].
      intros m f Hm. rewrite Hi1. subst V2.
      apply elem_of_cons in Hm as [[= -> ->]|Hm]; [by eapply Hnone|].
      apply list_elem_of_fmap in Hm as (m' & [= -> ->] & Hm').
      eapply Hnone. by apply HV1_desc, HR_desc. }
  assert (HF1 : Forall2 same_but_flags dv dv1).
  { rewrite collapse_walk in Hrun1 || idtac.
    by destruct (walk_frame collapse_self (λ _, false) same_but_flags collapse_self_id
                   same_but_flags_refl same_but_flags_trans same_but_flags_collapse
                   N false dv dv1 Hrun1). }
  assert (HF2 : Forall2 same_but_flags dv1 dv2).
  { by destruct (walk_frame expand_self is_collapsed_row same_but_flags expand_self_id
                   same_but_flags_refl same_but_flags_trans same_but_flags_expand
                   N false dv1 dv2 Hrun2). }
  assert (HF : Forall2 same_but_flags dv dv2).
  { eapply Forall2_trans; [|exact HF1|exact HF2]. apply same_but_flags_trans. }
  exists dv1, dv2. split_and!.
  - by rewrite collapse_walk.
  - rewrite (isCollapsed_row N dv1 _ HtreeN HdvN HrN1). by rewrite collapse_self_collapsed.
  - by rewrite expand_walk.
  - rewrite (isCollapsed_row N dv2 _ HtreeN HdvN HrN2). by rewrite expand_self_collapsed.
  - apply list_eq. intros k. rewrite !list_lookup_fmap. apply Hpt.
  - apply visible_row_ids. apply Forall2_same_length_lookup_2.
    + symmetry. by eapply Forall2_length.
    + intros k it2 it Hit2 Hit. split.
      * specialize (Hpt k). rewrite Hit2, Hit in Hpt. by injection Hpt.
      * destruct (Forall2_lookup_lr _ _ _ _ _ _ HF Hit Hit2) as [Hkeys _]. by apply Hkeys.
  - intros m Hm Htree. destruct (Hdesc m Hm) as (r & r2 & -> & -> & _ & Hc). simpl.
    by rewrite Hc.
Qed.

Lemma collapse_then_expand_restores_view_witness :
  ∃ dv1 dv2,
    collapse outer_node false inner_collapsed_store = Ok dv1 ∧
    isCollapsed outer_node dv1 = Ok (Some (VBool true)) ∧
    expand outer_node false dv1 = Ok dv2 ∧
    isCollapsed outer_node dv2 = Ok (Some (VBool false)) ∧
    map collapseFilter dv2 = map collapseFilter inner_collapsed_store ∧
    row_ids (visible dv2) = row_ids (visible inner_collapsed_store) ∧
    (∀ m, m ∈ descendants outer_node → is_tree m = true →
          is_collapsed_row <$> node_row m dv2 = is_collapsed_row <$> node_row m inner_collapsed_store).
Proof.
  apply (collapse_then_expand_restores_view outer_node inner_collapsed_store).
  - reflexivity.
  - apply (bool_decide_unpack _). vm_compute. reflexivity.
  - apply (bool_decide_unpack _). vm_compute. reflexivity.
Defined.

Example inner_collapsed_view :
  map collapseFilter inner_collapsed_store = [true; true; false; true].
Proof. reflexivity. Qed.

(** ** The loop of [Tree.fromObject] *)

Section fromObject_loop_eqs.

Variable F : jsobj → info → alloc → node * alloc.

Variable tree : info.

Lemma fromObject_loop_acc (children : list jsobj) :
  ∀ acc s,
    fromObject_loop F tree children acc s =
    (acc ++ (fromObject_loop F tree children [] s).1, (fromObject_loop F tree children [] s).2).
Proof.
  induction children as [|c cs IH]; intros acc s; cbn [fromObject_loop].
  - by rewrite app_nil_r.
  - destruct (is_file c).
    + destruct (Leaf_fromObject c s) as [leaf s']. rewrite (IH (push_child tree acc leaf)).
      rewrite (IH (push_child tree [] leaf)). unfold push_child. cbn [fst snd app].
      by rewrite <- app_assoc.
    + destruct (F c tree s) as [subtree s']. rewrite (IH (push_child tree acc subtree)).
      rewrite (IH (push_child tree [] subtree)). unfold push_child. cbn [fst snd app].
      by rewrite <- app_assoc.
Qed.

Lemma fromObject_loop_cons (c : jsobj) (cs : list jsobj) (s : alloc) :
  fromObject_loop F tree (c :: cs) [] s =
    let r := if is_file c then Leaf_fromObject c s else F c tree s in
    (attach tree r.1 :: (fromObject_loop F tree cs [] r.2).1,
     (fromObject_loop F tree cs [] r.2).2).
Proof.
  cbn [fromObject_loop]. destruct (is_file c).
  - destruct (Leaf_fromObject c s) as [leaf s']. by rewrite fromObject_loop_acc.
  - destruct (F c tree s) as [subtree s']. by rewrite fromObject_loop_acc.
Qed.

End fromObject_loop_eqs.

Lemma fromObject_object_eq (o : jsobj) (parent : info) (s : alloc) :
  fromObject_object o parent s =
    let t := Tree_new (Some o) s in
    let tree := set_depth (Some (js_succ (n_depth parent))) t.1 in
    let r := fromObject_loop fromObject_object tree (default [] (children_of o)) [] t.2 in
    (Tree tree r.1, r.2).
Proof.
  destruct o as [p [cs|]]; cbn [fromObject_object children_of default from_option id].
  - destruct (Tree_new _ s) as [t s1]. cbn [fst snd].
    by destruct (fromObject_loop _ _ _ _ _).
  - by destruct (Tree_new _ s) as [t s1].
Qed.

Lemma fromObject_array_eq (H : list jsobj) (s : alloc) :
  fromObject_array H s =
    let t := Tree_new None s in
    let r := fromObject_loop fromObject_object t.1 H [] t.2 in
    (Tree t.1 r.1, r.2).
Proof.
  unfold fromObject_array. destruct (Tree_new None s) as [t s1]. cbn [fst snd].
  by destruct (fromObject_loop _ _ _ _ _).
Qed.

(** ** What [Tree.fromObject] builds *)

Lemma subnodes_attach (p : info) (n : node) :
  subnodes (attach p n) = attach p n :: descendants n.
Proof. by destruct n. Qed.

Lemma node_children_attach (p : info) (n : node) :
  node_children (attach p n) = node_children n.
Proof. by destruct n. Qed.

Lemma subnodes_cons (n : node) : subnodes n = n :: descendants n.
Proof. by destruct n. Qed.

Lemma descendants_Tree (i : info) (cs : list node) :
  descendants (Tree i cs) = flat_map subnodes cs.
Proof. done. Qed.

Lemma new_node_info (o : jsobj) (s : alloc) :
  n_data (Leaf_new o s).1 = Some o ∧
  n_dataView (Leaf_new o s).1 = false ∧
  n_id (Leaf_new o s).1 = (pick_id o s).1 ∧
  Tree_new (Some o) s = Leaf_new o s.
Proof. unfold Leaf_new, Tree_new. by destruct (pick_id o s), (fresh_ref _). Qed.

Lemma pick_id_usable (o : jsobj) (s : alloc) (v : value) :
  getp o "id" = Some v → truthy v = true → (pick_id o s).1 = v.
Proof. intros Hid Hv. unfold pick_id. by rewrite Hid, Hv. Qed.

Lemma holds_data_attach (Q : jsobj → bool) (p : info) (n : node) :
  holds_data Q n → holds_data Q (attach p n).
Proof. by destruct n. Qed.

Lemma holds_data_new (Q : jsobj → bool) (o : jsobj) (s : alloc) (n : node) :
  Q o = true →
  n_data (info_of n) = n_data (Leaf_new o s).1 →
  n_id (info_of n) = n_id (Leaf_new o s).1 →
  holds_data Q n.
Proof.
  intros HQ Hn_data Hn_id. destruct (new_node_info o s) as (Hd & _ & Hid & _).
  exists o. unfold node_id. rewrite Hn_data, Hn_id. split_and!; [done..|].
  intros v Hv Ht. rewrite Hid. by apply pick_id_usable.
Qed.

Lemma linked_Tree (i : info) (cs : list node) :
  linked (Tree i cs) ↔
  Forall (λ c, n_parentID (info_of c) = n_id i ∧
               n_depth (info_of c) = Some (js_succ (n_depth i))) cs ∧
  Forall linked cs.
Proof.
  unfold linked. cbn [subnodes]. rewrite Forall_cons. cbn [node_children info_of].
  unfold node_id. cbn [info_of]. split; intros [Htop Hrest]; (split; [done|]).
  - rewrite Forall_forall. intros c Hc. rewrite Forall_forall in Hrest |- *.
    intros m Hm. apply Hrest. apply elem_of_flat_map. eauto.
  - rewrite Forall_forall. intros m (c & Hc & Hm)%elem_of_flat_map.
    rewrite Forall_forall in Hrest. specialize (Hrest c Hc).
    rewrite Forall_forall in Hrest. by apply Hrest.
Qed.

Lemma linked_Leaf (i : info) : linked (Leaf i).
Proof. unfold linked. cbn. repeat constructor. Qed.

Lemma linked_attach (p : info) (n : node) :
  linked n → n_depth (info_of n) = Some (js_succ (n_depth p)) → linked (attach p n).
Proof.
  destruct n as [i|i cs]; [intros _ _; apply linked_Leaf|].
  cbn [attach map_info info_of]. rewrite !linked_Tree. cbn [n_id n_depth].
  intros [Htop Hrest] Hd. split; [|done]. by rewrite <- Hd.
Qed.

Section fromObject_built.

Variable Q : jsobj → bool.

Lemma fromObject_loop_built (tree : info) (children : list jsobj) :
  Forall (λ c, ∀ parent s, all_objs Q c = true → built Q parent (fromObject_object c parent s).1)
         children →
  forallb (all_objs Q) children = true →
  ∀ s,
    Forall (λ c, n_parentID (info_of c) = n_id tree ∧
                 n_depth (info_of c) = Some (js_succ (n_depth tree)) ∧
                 n_dataView (info_of c) = n_dataView tree ∧
                 linked c ∧
                 Forall (λ m, n_dataView (info_of m) = false) (descendants c) ∧
                 Forall (holds_data Q) (subnodes c))
           (fromObject_loop fromObject_object tree children [] s).1.
Proof.
  induction 1 as [|c cs Hc _ IH]; intros Hall s; [constructor|].
  cbn [forallb] in Hall. apply andb_prop in Hall as [Hc_all Hcs_all].
  rewrite fromObject_loop_cons. cbn zeta. cbn [fst]. constructor; [|by apply IH].
  destruct (attach_fields tree (if is_file c then Leaf_fromObject c s
                                else fromObject_object c tree s).1)
    as (_ & _ & _ & Hpid & Hdepth & Hdv).
  split_and!; [done..| | |].
  - destruct (is_file c).
    + unfold Leaf_fromObject. destruct (Leaf_new c s). apply linked_Leaf.
    + destruct (Hc tree s Hc_all) as (Hd & Hl & _). by apply linked_attach.
  - unfold descendants. rewrite node_children_attach. destruct (is_file c).
    + unfold Leaf_fromObject. destruct (Leaf_new c s). constructor.
    + destruct (Hc tree s Hc_all) as (_ & _ & Hdvs & _).
      rewrite subnodes_cons in Hdvs. by apply Forall_cons in Hdvs as [_ ?].
  - rewrite subnodes_attach. destruct (is_file c) eqn:Hfile.
    + unfold Leaf_fromObject.
      pose proof (holds_data_new Q c s (Leaf (Leaf_new c s).1)) as Hh.
      destruct (Leaf_new c s) as [i s']. cbn [fst]. constructor; [|constructor].
      apply holds_data_attach, Hh; [|done..].
      destruct c as [pc [ccs|]]; cbn [all_objs] in Hc_all; by apply andb_prop in Hc_all as [? _].
    + destruct (Hc tree s Hc_all) as (_ & _ & _ & Hh).
      rewrite subnodes_cons in Hh. apply Forall_cons in Hh as [Htop Hrest].
      constructor; [by apply holds_data_attach | done].
Qed.

Lemma all_objs_children (o : jsobj) :
  all_objs Q o = true → Q o = true ∧ forallb (all_objs Q) (default [] (children_of o)) = true.
Proof.
  destruct o as [p [cs|]]; cbn [all_objs children_of default from_option id forallb];
    intros [? ?]%andb_prop; done.
Qed.

Lemma fromObject_object_built (o : jsobj) :
  ∀ parent s, all_objs Q o = true → built Q parent (fromObject_object o parent s).1.
Proof.
  induction o as [p|p cs IH] using jsobj_ind; intros parent s Hall;
    rewrite fromObject_object_eq; cbn zeta; cbn [fst];
    destruct (all_objs_children _ Hall) as [HQ Hcs];
    cbn [children_of default from_option id] in Hcs |- *.
  - destruct (new_node_info (JsObj p None) s) as (_ & Hdv0 & _ & Hnew0).
    cbn [fromObject_loop fst]. rewrite Hnew0. split_and!.
    + done.
    + apply linked_Tree. by split.
    + by repeat constructor.
    + repeat constructor. by eapply (holds_data_new Q _ s).
  - destruct (new_node_info (JsObj p (Some cs)) s) as (_ & Hdv0 & _ & Hnew0).
    rewrite Hnew0.
    set (tree := set_depth (Some (js_succ (n_depth parent))) (Leaf_new (JsObj p (Some cs)) s).1).
    pose proof (fromObject_loop_built tree cs IH Hcs (Leaf_new (JsObj p (Some cs)) s).2) as Hloop.
    set (new := (fromObject_loop fromObject_object tree cs [] _).1) in *.
    split_and!.
    + done.
    + apply linked_Tree. split.
      * eapply Forall_impl; [exact Hloop|]. by intros c (? & ? & _).
      * eapply Forall_impl; [exact Hloop|]. by intros c (_ & _ & _ & ? & _).
    + cbn [subnodes]. constructor; [done|]. rewrite Forall_forall.
      intros m (c & Hc & Hm)%elem_of_flat_map. rewrite Forall_forall in Hloop.
      destruct (Hloop c Hc) as (_ & _ & Hdv & _ & Hbelow & _).
      rewrite subnodes_cons in Hm. apply elem_of_cons in Hm as [->|Hm]; [by rewrite Hdv|].
      rewrite Forall_forall in Hbelow. by apply Hbelow.
    + cbn [subnodes]. constructor; [by eapply (holds_data_new Q _ s)|].
      rewrite Forall_forall. intros m (c & Hc & Hm)%elem_of_flat_map.
      rewrite Forall_forall in Hloop. destruct (Hloop c Hc) as (_ & _ & _ & _ & _ & Hh).
      rewrite Forall_forall in Hh. by apply Hh.
Qed.

End fromObject_built.

Lemma all_objs_true (o : jsobj) : all_objs (λ _, true) o = true.
Proof.
  induction o as [p|p cs IH] using jsobj_ind; [done|]. cbn [all_objs andb].
  apply forallb_forall. intros c Hc. rewrite Forall_forall in IH. apply IH.
  by apply list_elem_of_In.
Qed.

Lemma forallb_all_objs_true (H : list jsobj) : forallb (all_objs (λ _, true)) H = true.
Proof. apply forallb_forall. intros c _. apply all_objs_true. Qed.

Lemma Tree_new_root (s : alloc) :
  n_id (Tree_new None s).1 = ROOT_ID ∧
  n_depth (Tree_new None s).1 = Some 0 ∧
  n_dataView (Tree_new None s).1 = true.
Proof. unfold Tree_new. by destruct (fresh_ref s). Qed.

(** What [Tree.fromObject(data)] builds for an array. *)
Lemma fromObject_array_built (Q : jsobj → bool) (H : list jsobj) (s : alloc) :
  forallb (all_objs Q) H = true →
  ∃ cs,
    (fromObject_array H s).1 = Tree (Tree_new None s).1 cs ∧
    Forall (λ c, n_parentID (info_of c) = ROOT_ID ∧
                 n_depth (info_of c) = Some 1 ∧
                 n_dataView (info_of c) = true ∧
                 linked c ∧
                 Forall (λ m, n_dataView (info_of m) = false) (descendants c) ∧
                 Forall (holds_data Q) (subnodes c)) cs.
Proof.
  intros Hall. rewrite fromObject_array_eq. cbn zeta. cbn [fst]. eexists. split; [done|].
  destruct (Tree_new_root s) as (Hid & Hdepth & Hdv).
  eapply Forall_impl.
  - apply (fromObject_loop_built Q); [|done]. apply Forall_forall. intros c _.
    apply fromObject_object_built.
  - intros c (H1 & H2 & H3 & H4 & H5 & H6). rewrite Hid in H1. rewrite Hdepth in H2.
    rewrite Hdv in H3. done.
Qed.

(** X8.  [Tree.fromObject] of an array succeeds and builds a root with id
    [root] and depth 0, under which every node is linked to its children: a
    child carries the id of its parent as [parentID] and the depth of its
    parent plus one as [depth]. *)
Theorem fromObject_links_children (H : list jsobj) (s : alloc) :
  ∃ root cs s',
    Tree_fromObject (DArr H) None s = Ok (Tree root cs, s') ∧
    n_id root = ROOT_ID ∧
    n_depth root = Some 0 ∧
    linked (Tree root cs).
Proof.
  destruct (fromObject_array_built (λ _, true) H s (forallb_all_objs_true H)) as (cs & Heq & Hcs).
  destruct (Tree_new_root s) as (Hid & Hdepth & _).
  exists (Tree_new None s).1, cs, (fromObject_array H s).2. split_and!; [|done|done|].
  - cbn [Tree_fromObject]. f_equal. rewrite <- Heq. by destruct (fromObject_array H s).
  - apply linked_Tree. rewrite Hid, Hdepth. split.
    + eapply Forall_impl; [exact Hcs|]. by intros c (? & ? & _).
    + eapply Forall_impl; [exact Hcs|]. by intros c (_ & _ & _ & ? & _).
Qed.

Lemma collapse_without_store (m : node) (flag : bool) (dv : store) :
  n_dataView (info_of m) = false →
  collapse m flag dv = Err TypeError ∧ expand m flag dv = Err TypeError.
Proof.
  intros Hdv. destruct m as [i|i cs]; cbn [collapse expand info_of] in *;
    unfold getItem; by rewrite Hdv.
Qed.

(** X9.  [Tree.fromObject] alone hands the store to the root and to the
    children of the root only: a child of the root, added last, gets the
    reference of the root, while the nodes below it were added to a subtree
    that had none yet.  So [collapse] and [expand] throw a TypeError on every
    node below a child of the root, on any store, until the reference has been
    passed down. *)
Theorem fromObject_store_reaches_children_of_root (H : list jsobj) (s : alloc) :
  ∃ root cs s',
    Tree_fromObject (DArr H) None s = Ok (Tree root cs, s') ∧
    n_dataView root = true ∧
    Forall (λ c, n_dataView (info_of c) = true ∧
                 Forall (λ m, n_dataView (info_of m) = false ∧
                              ∀ flag dv, collapse m flag dv = Err TypeError ∧
                                         expand m flag dv = Err TypeError)
                        (descendants c)) cs.
Proof.
  destruct (fromObject_array_built (λ _, true) H s (forallb_all_objs_true H)) as (cs & Heq & Hcs).
  destruct (Tree_new_root s) as (_ & _ & Hdv).
  exists (Tree_new None s).1, cs, (fromObject_array H s).2. split_and!; [|done|].
  - cbn [Tree_fromObject]. f_equal. rewrite <- Heq. by destruct (fromObject_array H s).
  - eapply Forall_impl; [exact Hcs|]. intros c (_ & _ & Hc & _ & Hbelow & _).
    split; [done|]. eapply Forall_impl; [exact Hbelow|]. intros m Hm.
    split; [done|]. intros flag dv. by apply collapse_without_store.
Qed.

(** In the nested hierarchy the node of inner, below outer, has no store
    after [Tree.fromObject]. *)
Example inner_has_no_store_yet :
  ∃ root o_i o_cs i_i i_cs rest s',
    Tree_fromObject (DArr [outer]) None alloc0 = Ok (Tree root [Tree o_i (Tree i_i i_cs :: o_cs)], s') ∧
    rest = o_cs ∧
    n_dataView o_i = true ∧ n_dataView i_i = false.
Proof. by eexists _, _, _, _, _, _, _. Qed.

(** ** Passing the store down *)

Lemma ensureDataView_true (n : node) :
  Forall (λ m, n_dataView (info_of m) = true) (subnodes (ensureDataView n true)).
Proof.
  induction n as [i|i cs IH] using node_ind; cbn [ensureDataView subnodes].
  - by repeat constructor.
  - constructor; [done|]. rewrite Forall_forall.
    intros m (c' & Hc' & Hm)%elem_of_flat_map.
    apply list_elem_of_fmap in Hc' as (c & -> & Hc).
    rewrite Forall_forall in IH. specialize (IH c Hc). rewrite Forall_forall in IH.
    by apply IH.
Qed.

Lemma ensureDataView_has (n : node) (b : bool) :
  b = true ∨ n_dataView (info_of n) = true →
  ensureDataView n b = ensureDataView n true.
Proof.
  intros [->|Hdv]; [done|]. destruct b; [done|].
  destruct n as [i|i cs]; cbn [ensureDataView info_of] in *; by rewrite Hdv.
Qed.

Lemma ensureDataView_infos (n : node) :
  ∀ b, map (λ m, set_dataView true (info_of m)) (subnodes (ensureDataView n b)) =
       map (λ m, set_dataView true (info_of m)) (subnodes n).
Proof.
  induction n as [i|i cs IH] using node_ind; intros b; cbn [ensureDataView subnodes map info_of].
  - done.
  - f_equal. generalize (if b then b else n_dataView i). intros b'.
    induction IH as [|c cs Hc _ IHcs]; [done|]. cbn [map flat_map].
    by rewrite !map_app, Hc, IHcs.
Qed.

Lemma toItem_set_dataView (b : bool) (i : info) : toItem (set_dataView b i) = toItem i.
Proof. done. Qed.

Lemma ensureDataView_rows (n : node) :
  ∀ b, subtree_rows (ensureDataView n b) = subtree_rows n.
Proof.
  induction n as [i|i cs IH] using node_ind; intros b; cbn [ensureDataView subtree_rows].
  - done.
  - cbn [n_depth set_dataView]. rewrite toItem_set_dataView. f_equal.
    generalize (if b then b else n_dataView i). intros b'.
    induction IH as [|c cs Hc _ IHcs]; [done|]. cbn [map flat_map]. by rewrite Hc, IHcs.
Qed.

Lemma ensureDataView_again (n : node) :
  ∀ b, ensureDataView (ensureDataView n true) b = ensureDataView n true.
Proof.
  induction n as [i|i cs IH] using node_ind; intros b; cbn [ensureDataView set_dataView n_dataView].
  - by destruct b.
  - replace (if b then b else true) with true by by destruct b. f_equal.
    rewrite map_map. apply map_ext_in. intros c Hc%list_elem_of_In.
    rewrite Forall_forall in IH. by apply IH.
Qed.

(** X10.  [ensureDataView(dataView)] on a node, with a store given or with
    the node having one, leaves every node of the subtree with the store and
    changes nothing else: the nodes, in order, keep all their other fields,
    [toData] gives the same rows, and a second call changes nothing. *)
Theorem ensureDataView_passes_store_down (n : node) (b : bool) :
  b = true ∨ n_dataView (info_of n) = true →
  Forall (λ m, n_dataView (info_of m) = true) (subnodes (ensureDataView n b)) ∧
  map (λ m, set_dataView true (info_of m)) (subnodes (ensureDataView n b)) =
    map (λ m, set_dataView true (info_of m)) (subnodes n) ∧
  (∀ result, toData_into (ensureDataView n b) result = toData_into n result) ∧
  (∀ b', ensureDataView (ensureDataView n b) b' = ensureDataView n b).
Proof.
  intros Hb. rewrite (ensureDataView_has n b Hb). split_and!.
  - apply ensureDataView_true.
  - apply ensureDataView_infos.
  - intros result. by rewrite !toData_into_rows, ensureDataView_rows.
  - apply ensureDataView_again.
Qed.

Lemma ensureDataView_passes_store_down_witness :
  Forall (λ m, n_dataView (info_of m) = true) (subnodes (ensureDataView scenario_built.1 false)) ∧
  map (λ m, set_dataView true (info_of m)) (subnodes (ensureDataView scenario_built.1 false)) =
    map (λ m, set_dataView true (info_of m)) (subnodes scenario_built.1) ∧
  (∀ result, toData_into (ensureDataView scenario_built.1 false) result =
             toData_into scenario_built.1 result) ∧
  (∀ b', ensureDataView (ensureDataView scenario_built.1 false) b' =
         ensureDataView scenario_built.1 false).
Proof.
  apply (ensureDataView_passes_store_down scenario_built.1 false). right. reflexivity.
Defined.

(** ** The grid after construction *)

Lemma subtree_rows_subnodes (n : node) :
  Forall (λ m, n_depth (info_of m) ≠ Some 0) (subnodes n) →
  subtree_rows n = map (λ m, toItem (info_of m)) (subnodes n).
Proof.
  induction n as [i|i cs IH] using node_ind; [done|]. cbn [subnodes subtree_rows].
  intros [Htop Hrest]%Forall_cons. cbn [info_of] in Htop.
  rewrite bool_decide_eq_false_2 by done. cbn [app map info_of]. f_equal.
  induction IH as [|c cs Hc _ IHcs]; [done|]. cbn [flat_map] in *.
  apply Forall_app in Hrest as [Hc_all Hcs_all]. by rewrite map_app, Hc, IHcs.
Qed.

Lemma linked_depth_pos (n : node) :
  ∀ d, linked n → n_depth (info_of n) = Some d → 1 ≤ d →
       Forall (λ m, n_depth (info_of m) ≠ Some 0) (subnodes n).
Proof.
  induction n as [i|i cs IH] using node_ind; intros d Hl Hd Hpos; cbn [subnodes info_of] in *.
  - constructor; [|constructor]. simpl. rewrite Hd. intros [= ?]. lia.
  - constructor; [simpl; rewrite Hd; intros [= ?]; lia|].
    apply linked_Tree in Hl as [Htop Hrest]. rewrite Forall_forall.
    intros m (c & Hc & Hm)%elem_of_flat_map.
    rewrite Forall_forall in IH, Htop, Hrest. destruct (Htop c Hc) as [_ Hdc].
    rewrite Hd in Hdc. cbn [js_succ] in Hdc.
    pose proof (IH c Hc (d + 1) (Hrest c Hc) Hdc ltac:(lia)) as Hall.
    rewrite Forall_forall in Hall. by apply Hall.
Qed.

Lemma sublist_flat_map_elem {A B} (f : A → list B) (l : list A) (x : A) :
  x ∈ l → f x `sublist_of` flat_map f l.
Proof.
  induction l as [|a l IH]; [by intros ?%elem_of_nil|]. cbn [flat_map].
  intros [->|Hx]%elem_of_cons.
  - by apply sublist_inserts_r.
  - apply sublist_inserts_l. by apply IH.
Qed.

Lemma subnodes_sublist (n : node) :
  ∀ m, m ∈ subnodes n → subnodes m `sublist_of` subnodes n.
Proof.
  induction n as [i|i cs IH] using node_ind; intros m; cbn [subnodes].
  - intros [->|Hm%elem_of_nil]%elem_of_cons; done.
  - intros [->|Hm]%elem_of_cons; [done|]. apply sublist_cons.
    apply elem_of_flat_map in Hm as (c & Hc & Hm). rewrite Forall_forall in IH.
    etrans; [by apply (IH c Hc)|]. by apply sublist_flat_map_elem.
Qed.

Lemma descendants_sublist (n m : node) :
  m ∈ descendants n → subnodes m `sublist_of` descendants n.
Proof.
  intros (c & Hc & Hm)%elem_of_flat_map.
  etrans; [by apply subnodes_sublist|]. by apply (sublist_flat_map_elem subnodes).
Qed.

Lemma flat_map_subtree_rows (cs : list node) :
  Forall (λ m, n_depth (info_of m) ≠ Some 0) (flat_map subnodes cs) →
  flat_map subtree_rows cs = map (λ m, toItem (info_of m)) (flat_map subnodes cs).
Proof.
  induction cs as [|c cs IH]; [done|]. cbn [flat_map].
  intros [Hc Hrest]%Forall_app. by rewrite map_app, (subtree_rows_subnodes c Hc), IH.
Qed.

Lemma infos_transfer (P : info → Prop) (l l' : list node) :
  (∀ i, P (set_dataView true i) ↔ P i) →
  map (λ m, set_dataView true (info_of m)) l' = map (λ m, set_dataView true (info_of m)) l →
  Forall (λ m, P (info_of m)) l → Forall (λ m, P (info_of m)) l'.
Proof.
  intros HP Heq Hl.
  assert (Hmap : ∀ k, Forall (λ m, P (info_of m)) k ↔
                      Forall P (map (λ m, set_dataView true (info_of m)) k)).
  { intros k. rewrite Forall_fmap. apply Forall_iff. intros m. symmetry. apply HP. }
  apply Hmap. rewrite Heq. by apply Hmap.
Qed.

Lemma toItem_id_usable (m : node) :
  holds_data id_usable m → getp (toItem (info_of m)) "id" = Some (node_id m).
Proof.
  intros (o & Hd & Hu & Hid). rewrite getp_toItem, Hd. cbn [mbind option_bind].
  unfold id_usable in Hu. destruct (getp o "id") as [v|] eqn:Hv; [|done].
  by rewrite (Hid v eq_refl Hu).
Qed.

Lemma getIdxById_elem (x : value) (dv : store) (it : jsobj) :
  it ∈ dv → getp it "id" = Some x → is_Some (getIdxById x dv).
Proof.
  intros Hin Hid. destruct (getIdxById x dv) eqn:Hk; [by eexists|].
  apply getIdxById_None in Hk. exfalso. apply Hk. rewrite <- Hid. by apply row_ids_elem.
Qed.

(** X11.  The constructor, given an array whose objects have no [id] or a
    usable one, and for which the rows that the tree built by
    [Tree.fromObject] lists have pairwise distinct ids, builds a grid whose
    store has one row per node below the root, in pre-order, each row showing
    the id of its node.  The subtree of every node is materialized in the
    store: every node can be collapsed and expanded. *)
Theorem HGrid_new_materialized (dropzone : bool) (o : options) (H : list jsobj) (s : alloc) :
  opt_data o = Some (Some (DArr H)) →
  truthy_opt (opt_ajaxSource o) = false →
  (opt_uploads o = true → dropzone = true) →
  forallb (all_objs id_usable) H = true →
  NoDup (row_ids (toData_into (fromObject_array H s).1 [])) →
  ∃ g,
    HGrid_new dropzone o s = Ok g ∧
    dataView g = map (λ m, toItem (info_of m)) (descendants (tree g)) ∧
    row_ids (dataView g) = map (λ m, Some (node_id m)) (descendants (tree g)) ∧
    NoDup (row_ids (dataView g)) ∧
    ∀ m, m ∈ descendants (tree g) → materialized m (dataView g).
Proof.
  intros Hdata Hajax Hup Hall Hdistinct.
  destruct (fromObject_array_built id_usable H s Hall) as (cs & Heq & Hcs).
  destruct (Tree_new_root s) as (_ & Hdepth & Hdv).
  set (root := (Tree_new None s).1) in *.
  set (t := Tree root cs). set (t' := ensureDataView t false).
  set (g := {| tree := t'; dataView := toData_into t' []; ids := (fromObject_array H s).2 |}).
  assert (Hnd : NoDup (row_ids (toData_into t' []))).
  { rewrite Heq in Hdistinct. fold t in Hdistinct. unfold t'.
    rewrite toData_into_rows in Hdistinct |- *. by rewrite ensureDataView_rows. }
  assert (Hrun : HGrid_new dropzone o s = Ok g).
  { unfold HGrid_new. rewrite Hdata, Hajax, andb_false_r. cbn [Tree_fromObject mbind result_bind].
    destruct (fromObject_array H s) as [t0 s1] eqn:Hbuilt. cbn [fst snd] in *. subst t0.
    cbn [updateDataView]. rewrite Hdv. cbn [mbind result_bind setItems].
    unfold HGrid_init. destruct (opt_uploads o); [|done]. by rewrite Hup. }
  (* the nodes below the root, before and after the store is passed down *)
  assert (Hinfos : map (λ m, set_dataView true (info_of m)) (descendants t') =
                   map (λ m, set_dataView true (info_of m)) (descendants t)).
  { pose proof (ensureDataView_infos t false) as Hi. fold t' in Hi.
    rewrite (subnodes_cons t'), (subnodes_cons t) in Hi. cbn [map] in Hi. by injection Hi. }
  assert (Hdepths : Forall (λ m, n_depth (info_of m) ≠ Some 0) (descendants t)).
  { rewrite Forall_forall. intros m (c & Hc & Hm)%elem_of_flat_map.
    rewrite Forall_forall in Hcs. destruct (Hcs c Hc) as (_ & Hd & _ & Hl & _).
    pose proof (linked_depth_pos c 1 Hl Hd ltac:(lia)) as Hpos.
    rewrite Forall_forall in Hpos. by apply Hpos. }
  assert (Hshown : Forall (λ m, getp (toItem (info_of m)) "id" = Some (n_id (info_of m)))
                          (descendants t)).
  { rewrite Forall_forall. intros m (c & Hc & Hm)%elem_of_flat_map.
    rewrite Forall_forall in Hcs. destruct (Hcs c Hc) as (_ & _ & _ & _ & _ & Hh).
    rewrite Forall_forall in Hh. by apply toItem_id_usable, Hh. }
  assert (Hshown' : Forall (λ m, getp (toItem (info_of m)) "id" = Some (n_id (info_of m)))
                           (descendants t')).
  { by apply (infos_transfer (λ i, getp (toItem i) "id" = Some (n_id i)) (descendants t)). }
  assert (Hrows : toData_into t' [] = map (λ m, toItem (info_of m)) (descendants t')).
  { rewrite toData_into_rows. cbn [app]. unfold t'. rewrite ensureDataView_rows.
    fold t'. cbn [subtree_rows t]. rewrite Hdepth. rewrite bool_decide_eq_true_2 by done.
    cbn [app].
    transitivity (map (λ m, toItem (info_of m)) (descendants t)).
    - by apply flat_map_subtree_rows.
    - change (λ m, toItem (info_of m)) with (λ m, toItem (set_dataView true (info_of m))).
      rewrite <- !(map_map (λ m, set_dataView true (info_of m)) toItem). by rewrite Hinfos. }
  assert (Hids : row_ids (toData_into t' []) = map (λ m, Some (node_id m)) (descendants t')).
  { rewrite Hrows. unfold row_ids. rewrite map_map. apply map_ext_in.
    intros m Hm%list_elem_of_In. rewrite Forall_forall in Hshown'. by apply Hshown'. }
  exists g. split_and!; [done|done|done|done|].
  cbn [dataView tree g]. intros m Hm. split.
  - rewrite Forall_forall. intros m' Hm'.
    assert (Hin : m' ∈ descendants t').
    { eapply elem_of_sublist; [exact Hm'|]. by apply descendants_sublist. }
    split.
    + pose proof (ensureDataView_true t) as Htrue.
      replace (ensureDataView t true) with t' in Htrue.
      2:{ unfold t'. symmetry. apply ensureDataView_has. by right. }
      rewrite Forall_forall in Htrue. by apply Htrue, descendants_subnodes.
    + apply (getIdxById_elem _ _ (toItem (info_of m'))).
      * rewrite Hrows. by apply (list_elem_of_fmap_2 (λ m, toItem (info_of m))).
      * rewrite Forall_forall in Hshown'. by apply Hshown'.
  - rewrite Hids in Hnd. apply (NoDup_fmap_1 Some).
    rewrite <- list_fmap_compose.
    eapply sublist_NoDup; [exact Hnd|].
    apply (fmap_sublist (λ m, Some (node_id m))). by apply descendants_sublist.
Qed.

Lemma HGrid_new_materialized_witness :
  ∃ g,
    HGrid_new false scenario_options alloc0 = Ok g ∧
    dataView g = map (λ m, toItem (info_of m)) (descendants (tree g)) ∧
    row_ids (dataView g) = map (λ m, Some (node_id m)) (descendants (tree g)) ∧
    NoDup (row_ids (dataView g)) ∧
    ∀ m, m ∈ descendants (tree g) → materialized m (dataView g).
Proof.
  apply (HGrid_new_materialized false scenario_options scenario alloc0).
  - reflexivity.
  - reflexivity.
  - discriminate.
  - reflexivity.
  - apply (bool_decide_unpack _). vm_compute. reflexivity.
Defined.

(** ** Ids from the counter *)

Lemma all_objs_impl (Q Q' : jsobj → bool) (o : jsobj) :
  (∀ o, Q o = true → Q' o = true) → all_objs Q o = true → all_objs Q' o = true.
Proof.
  intros HQ. induction o as [p|p cs IH] using jsobj_ind; cbn [all_objs];
    intros [Ho Hcs]%andb_prop; apply andb_true_intro; (split; [by apply HQ|]); [done|].
  apply forallb_forall. intros c Hc. rewrite Forall_forall in IH.
  apply IH; [by apply list_elem_of_In|]. rewrite forallb_forall in Hcs. by apply Hcs.
Qed.

Lemma no_id_usable (o : jsobj) : no_id o = true → id_usable o = true.
Proof. unfold no_id, id_usable. intros Hno%bool_decide_eq_true. by rewrite Hno. Qed.

Lemma Leaf_new_fresh (o : jsobj) (s : alloc) :
  no_id o = true →
  n_id (Leaf_new o s).1 = VNum (idCounter s) ∧
  idCounter (Leaf_new o s).2 = idCounter s + 1.
Proof.
  intros Hno%bool_decide_eq_true. unfold Leaf_new, pick_id. rewrite Hno. done.
Qed.

Lemma node_id_attach (p : info) (n : node) : node_id (attach p n) = node_id n.
Proof. by destruct n. Qed.

Lemma subnodes_ids_attach (p : info) (n : node) :
  map node_id (subnodes (attach p n)) = map node_id (subnodes n).
Proof. rewrite subnodes_attach, subnodes_cons. cbn [map]. by rewrite node_id_attach. Qed.

Lemma all_objs_head (Q : jsobj → bool) (o : jsobj) : all_objs Q o = true → Q o = true.
Proof. destruct o as [p [cs|]]; cbn [all_objs]; by intros [? _]%andb_prop. Qed.

Section fresh_ids.

Variable tree : info.

Variable lvl : Z.

Lemma fromObject_loop_fresh (children : list jsobj) :
  Forall (λ c, ∀ l parent s, wf_obj c = true → all_objs no_id c = true →
            map node_id (subnodes (fromObject_object c parent s).1) =
              VNum <$> seqZ (idCounter s) (Z.of_nat (length (preorder l c))) ∧
            idCounter (fromObject_object c parent s).2 =
              idCounter s + Z.of_nat (length (preorder l c))) children →
  forallb wf_obj children = true →
  forallb (all_objs no_id) children = true →
  ∀ s,
    map node_id (flat_map subnodes (fromObject_loop fromObject_object tree children [] s).1) =
      VNum <$> seqZ (idCounter s) (Z.of_nat (length (flat_map (preorder lvl) children))) ∧
    idCounter (fromObject_loop fromObject_object tree children [] s).2 =
      idCounter s + Z.of_nat (length (flat_map (preorder lvl) children)).
Proof.
  induction 1 as [|c cs Hc _ IH]; intros Hwf Hno s.
  - cbn. split; [done|lia].
  - cbn [forallb] in Hwf, Hno. apply andb_prop in Hwf as [Hwf_c Hwf_cs].
    apply andb_prop in Hno as [Hno_c Hno_cs].
    rewrite fromObject_loop_cons. cbn zeta. cbn [fst snd flat_map].
    rewrite map_app, subnodes_ids_attach, length_app, Nat2Z.inj_add.
    rewrite seqZ_app by lia. rewrite fmap_app.
    set (r := if is_file c then Leaf_fromObject c s else fromObject_object c tree s).
    assert (Hr : map node_id (subnodes r.1) =
                   VNum <$> seqZ (idCounter s) (Z.of_nat (length (preorder lvl c))) ∧
                 idCounter r.2 = idCounter s + Z.of_nat (length (preorder lvl c))).
    { subst r. destruct (is_file c) eqn:Hfile; [|by apply Hc].
      rewrite (preorder_file c lvl Hfile Hwf_c). cbn [length].
      destruct (Leaf_new_fresh c s (all_objs_head _ _ Hno_c)) as [Hid Hctr].
      unfold Leaf_fromObject. destruct (Leaf_new c s) as [i s']. cbn [fst snd] in *.
      split; [|lia]. cbn [subnodes map]. unfold node_id. cbn [info_of]. by rewrite Hid. }
    destruct Hr as [Hr_ids Hr_ctr]. destruct (IH Hwf_cs Hno_cs r.2) as [IH_ids IH_ctr].
    rewrite Hr_ids, IH_ids, IH_ctr, Hr_ctr. split; [done|lia].
Qed.

End fresh_ids.

Lemma fromObject_object_fresh (o : jsobj) :
  ∀ l parent s, wf_obj o = true → all_objs no_id o = true →
    map node_id (subnodes (fromObject_object o parent s).1) =
      VNum <$> seqZ (idCounter s) (Z.of_nat (length (preorder l o))) ∧
    idCounter (fromObject_object o parent s).2 =
      idCounter s + Z.of_nat (length (preorder l o)).
Proof.
  induction o as [p|p cs IH] using jsobj_ind; intros l parent s Hwf Hno;
    rewrite fromObject_object_eq; cbn zeta; cbn [fst snd].
  - destruct (new_node_info (JsObj p None) s) as (_ & _ & _ & Hnew0). rewrite Hnew0. destruct (Leaf_new_fresh _ s (all_objs_head _ _ Hno)) as [Hid Hctr].
    cbn [children_of default from_option id fromObject_loop fst snd subnodes flat_map map
         preorder length]. unfold node_id. cbn [info_of set_depth n_id]. rewrite Hid.
    split; [done|lia].
  - destruct (new_node_info (JsObj p (Some cs)) s) as (_ & _ & _ & Hnew1).
    rewrite Hnew1. destruct (Leaf_new_fresh _ s (all_objs_head _ _ Hno)) as [Hid Hctr].
    cbn [children_of default from_option id].
    cbn [wf_obj] in Hwf. apply andb_prop in Hwf as [_ Hwf_cs].
    cbn [all_objs] in Hno. apply andb_prop in Hno as [_ Hno_cs].
    set (tree := set_depth _ _).
    destruct (fromObject_loop_fresh tree (l + 1) cs IH Hwf_cs Hno_cs
                (Leaf_new (JsObj p (Some cs)) s).2) as [Hids Hc].
    cbn [subnodes map preorder length]. rewrite Hids, Hc, Hctr.
    unfold node_id. cbn [info_of]. subst tree. cbn [set_depth n_id]. rewrite Hid.
    rewrite Nat2Z.inj_succ. split; [|lia].
    rewrite (seqZ_cons (idCounter s)) by lia. cbn [fmap list_fmap]. do 3 f_equal; lia.
Qed.

(** The rows of the tree that [Tree.fromObject] builds for an array are the
    projections of the nodes below the root, each showing the id of its node. *)
Lemma fromObject_array_row_nodes (H : list jsobj) (s : alloc) :
  forallb (all_objs id_usable) H = true →
  toData_into (fromObject_array H s).1 [] =
    map (λ m, toItem (info_of m)) (descendants (fromObject_array H s).1) ∧
  row_ids (toData_into (fromObject_array H s).1 []) =
    map (λ m, Some (node_id m)) (descendants (fromObject_array H s).1).
Proof.
  intros Hall. destruct (fromObject_array_built id_usable H s Hall) as (cs & Heq & Hcs).
  destruct (Tree_new_root s) as (_ & Hdepth & _). rewrite Heq.
  assert (Hrows : toData_into (Tree (Tree_new None s).1 cs) [] =
                  map (λ m, toItem (info_of m)) (flat_map subnodes cs)).
  { rewrite toData_into_rows. cbn [app subtree_rows]. rewrite Hdepth.
    rewrite bool_decide_eq_true_2 by done. cbn [app]. apply flat_map_subtree_rows.
    rewrite Forall_forall. intros m (c & Hc & Hm)%elem_of_flat_map.
    rewrite Forall_forall in Hcs. destruct (Hcs c Hc) as (_ & Hd & _ & Hl & _).
    pose proof (linked_depth_pos c 1 Hl Hd ltac:(lia)) as Hpos.
    rewrite Forall_forall in Hpos. by apply Hpos. }
  split; [done|]. rewrite Hrows. cbn [descendants node_children].
  unfold row_ids. rewrite map_map. apply map_ext_in.
  intros m (c & Hc & Hm)%list_elem_of_In%elem_of_flat_map.
  rewrite Forall_forall in Hcs. destruct (Hcs c Hc) as (_ & _ & _ & _ & _ & Hh).
  rewrite Forall_forall in Hh. by apply toItem_id_usable, Hh.
Qed.

(** X12.  For a well-formed hierarchy none of whose objects has an [id],
    [Tree.fromObject] takes the ids from the counter in pre-order: the rows
    that [toData] lists have the ids [idCounter], [idCounter + 1], ... in row
    order, which are pairwise distinct, and the counter has advanced by the
    number of objects. *)
Theorem fromObject_numbers_rows_in_preorder (H : list jsobj) (s : alloc) :
  forallb wf_obj H = true →
  forallb (all_objs no_id) H = true →
  ∃ t s',
    Tree_fromObject (DArr H) None s = Ok (t, s') ∧
    row_ids (toData_into t []) =
      (λ k, Some (VNum k)) <$>
        seqZ (idCounter s) (Z.of_nat (length (flat_map (preorder 1) H))) ∧
    idCounter s' = idCounter s + Z.of_nat (length (flat_map (preorder 1) H)) ∧
    NoDup (row_ids (toData_into t [])).
Proof.
  intros Hwf Hno.
  assert (Husable : forallb (all_objs id_usable) H = true).
  { apply forallb_forall. intros c Hc. apply (all_objs_impl no_id); [apply no_id_usable|].
    rewrite forallb_forall in Hno. by apply Hno. }
  destruct (fromObject_array_row_nodes H s Husable) as [_ Hids].
  assert (Hloop : ∀ c, c ∈ H → ∀ l parent s, wf_obj c = true → all_objs no_id c = true →
            map node_id (subnodes (fromObject_object c parent s).1) =
              VNum <$> seqZ (idCounter s) (Z.of_nat (length (preorder l c))) ∧
            idCounter (fromObject_object c parent s).2 =
              idCounter s + Z.of_nat (length (preorder l c))).
  { intros c _. apply fromObject_object_fresh. }
  apply Forall_forall in Hloop.
  assert (Hroot : idCounter (Tree_new None s).2 = idCounter s).
  { unfold Tree_new. by destruct (fresh_ref s) eqn:Hf; injection Hf as <- <-. }
  destruct (fromObject_loop_fresh (Tree_new None s).1 1 H Hloop Hwf Hno (Tree_new None s).2)
    as [Hnode_ids Hctr].
  assert (Hrow_ids : row_ids (toData_into (fromObject_array H s).1 []) =
            (λ k, Some (VNum k)) <$>
              seqZ (idCounter s) (Z.of_nat (length (flat_map (preorder 1) H)))).
  { rewrite Hids, fromObject_array_eq. cbn zeta. cbn [fst descendants node_children].
    change (λ m, Some (node_id m)) with (Some ∘ node_id).
    rewrite (list_fmap_compose node_id Some), descendants_Tree.
    change (map node_id ?x) with (node_id <$> x) in Hnode_ids.
    rewrite Hnode_ids, Hroot. by rewrite <- list_fmap_compose. }
  exists (fromObject_array H s).1, (fromObject_array H s).2. split_and!.
  - cbn [Tree_fromObject]. by destruct (fromObject_array H s).
  - done.
  - rewrite fromObject_array_eq. cbn zeta. cbn [snd]. by rewrite Hctr, Hroot.
  - rewrite Hrow_ids. apply NoDup_fmap_2; [|apply NoDup_seqZ].
    intros x y [= ?]. done.
Qed.

Lemma fromObject_numbers_rows_in_preorder_witness :
  ∃ t s',
    Tree_fromObject (DArr scenario) None alloc0 = Ok (t, s') ∧
    row_ids (toData_into t []) =
      (λ k, Some (VNum k)) <$>
        seqZ (idCounter alloc0) (Z.of_nat (length (flat_map (preorder 1) scenario))) ∧
    idCounter s' = idCounter alloc0 + Z.of_nat (length (flat_map (preorder 1) scenario)) ∧
    NoDup (row_ids (toData_into t [])).
Proof.
  apply (fromObject_numbers_rows_in_preorder scenario alloc0); reflexivity.
Defined.

(** ** An id that [if (data.id)] rejects *)

Lemma pick_id_falsy (d : jsobj) (v : value) (s : alloc) :
  getp d "id" = Some v → truthy v = false →
  pick_id d s = (VNum (idCounter s), {| idCounter := idCounter s + 1; nextRef := nextRef s |}).
Proof. intros Hid Hv. unfold pick_id. by rewrite Hid, Hv. Qed.

(** X13.  An object whose [id] is present but falsy (0, the empty string,
    null, false) gets a node whose id is taken from the counter, while its row
    shows the id of the object.  In a grid constructed from that one object,
    without nested objects, and with an id other than the number taken, the
    node does not find its row: [collapse] and [expand] throw a TypeError. *)
Theorem falsy_id_node_loses_its_row (d : jsobj) (v : value) (s : alloc) (dropzone : bool) :
  getp d "id" = Some v →
  truthy v = false →
  v ≠ VNum (idCounter s) →
  children_of d = None →
  ∃ g c row,
    HGrid_new dropzone (data_options [d]) s = Ok g ∧
    node_children (tree g) = [c] ∧
    dataView g = [row] ∧
    n_data (info_of c) = Some d ∧
    node_id c = VNum (idCounter s) ∧
    getp row "id" = Some v ∧
    idCounter (ids g) = idCounter s + 1 ∧
    ∀ flag, collapse c flag (dataView g) = Err TypeError ∧
            expand c flag (dataView g) = Err TypeError.
Proof.
  intros Hid Hv Hne Hch. destruct d as [p ch]. cbn [children_of] in Hch. subst ch.
  set (d := JsObj p None) in *.
  set (s1 := (Tree_new None s).2).
  assert (Hs1 : idCounter s1 = idCounter s).
  { subst s1. unfold Tree_new. by destruct (fresh_ref s) eqn:Hf; injection Hf as <- <-. }
  destruct (Tree_new_root s) as (Hroot_id & Hroot_depth & Hroot_dv).
  set (root := (Tree_new None s).1) in *.
  pose proof (pick_id_falsy d v s1 Hid Hv) as Hpick.
  set (i0 := {| n_ref := nextRef s1; n_id := VNum (idCounter s1); n_data := Some d;
                n_parentID := VNull; n_depth := None; n_dataView := false |}).
  set (s2 := {| idCounter := idCounter s1 + 1; nextRef := S (nextRef s1) |}).
  assert (Hleaf : Leaf_new d s1 = (i0, s2)).
  { unfold Leaf_new. rewrite Hpick. done. }
  assert (Htree : Tree_new (Some d) s1 = (i0, s2)).
  { unfold Tree_new. rewrite Hpick. done. }
  set (c0 := if is_file d then Leaf i0 else Tree (set_depth (Some (js_succ (n_depth root))) i0) []).
  assert (Hbuilt : fromObject_array [d] s = (Tree root [attach root c0], s2)).
  { rewrite fromObject_array_eq. cbn zeta. fold root s1. rewrite fromObject_loop_cons.
    cbn zeta. cbn [fromObject_loop fst snd]. subst c0. destruct (is_file d).
    - unfold Leaf_fromObject. rewrite Hleaf. done.
    - rewrite fromObject_object_eq. cbn zeta. rewrite Htree.
      cbn [children_of d default from_option id fromObject_loop fst snd]. done. }
  set (c := ensureDataView (attach root c0) true).
  set (g := {| tree := Tree (set_dataView true root) [c];
               dataView := toData_into (Tree (set_dataView true root) [c]) []; ids := s2 |}).
  assert (Hrun : HGrid_new dropzone (data_options [d]) s = Ok g).
  { unfold HGrid_new, data_options. cbn [opt_data opt_ajaxSource opt_uploads truthy_opt from_option].
    rewrite andb_false_r. cbn [Tree_fromObject mbind result_bind]. rewrite Hbuilt.
    cbn [updateDataView]. rewrite Hroot_dv. cbn [mbind result_bind setItems HGrid_init opt_uploads].
    cbn [ensureDataView map]. rewrite Hroot_dv. done. }
  assert (Hc_info : info_of c = {| n_ref := nextRef s1; n_id := VNum (idCounter s1);
                                   n_data := Some d; n_parentID := n_id root;
                                   n_depth := Some (js_succ (n_depth root));
                                   n_dataView := true |}).
  { subst c c0. destruct (is_file d); done. }
  assert (Hc_cs : node_children c = []).
  { subst c c0. destruct (is_file d); done. }
  assert (Hrows : dataView g = [toItem (info_of c)]).
  { cbn [dataView g]. rewrite toData_into_rows. cbn [app subtree_rows n_depth set_dataView].
    rewrite Hroot_depth, bool_decide_eq_true_2 by done. cbn [app flat_map]. rewrite app_nil_r.
    destruct c as [ic|ic ccs]; [done|]. cbn [node_children] in Hc_cs. subst ccs.
    cbn [subtree_rows flat_map info_of] in *. rewrite app_nil_r, Hc_info. cbn [n_depth].
    rewrite Hroot_depth. done. }
  assert (Hrow_id : getp (toItem (info_of c)) "id" = Some v).
  { apply (getp_toItem_user _ d); [by rewrite Hc_info|done]. }
  exists g, c, (toItem (info_of c)). split_and!; try done.
  - by rewrite Hc_info.
  - unfold node_id. rewrite Hc_info. cbn [n_id]. by rewrite Hs1.
  - intros flag. rewrite Hrows.
    assert (Hnone : getIdxById (n_id (info_of c)) [toItem (info_of c)] = None).
    { cbn [getIdxById]. unfold has_id. rewrite Hrow_id.
      rewrite bool_decide_eq_false_2; [done|]. rewrite Hc_info. cbn [n_id].
      rewrite Hs1. congruence. }
    assert (Hdv : n_dataView (info_of c) = true) by by rewrite Hc_info.
    destruct c as [ic|ic ccs]; cbn [collapse expand info_of] in *; unfold getItem;
      rewrite Hdv, Hnone; cbn [mbind result_bind set_row]; by destruct flag.
Qed.

Lemma falsy_id_node_loses_its_row_witness :
  ∃ g c row,
    HGrid_new false (data_options [unnamed_id_file]) alloc0 = Ok g ∧
    node_children (tree g) = [c] ∧
    dataView g = [row] ∧
    n_data (info_of c) = Some unnamed_id_file ∧
    node_id c = VNum (idCounter alloc0) ∧
    getp row "id" = Some (VStr "") ∧
    idCounter (ids g) = idCounter alloc0 + 1 ∧
    ∀ flag, collapse c flag (dataView g) = Err TypeError ∧
            expand c flag (dataView g) = Err TypeError.
Proof.
  apply (falsy_id_node_loses_its_row unnamed_id_file (VStr "") alloc0 false).
  - reflexivity.
  - reflexivity.
  - discriminate.
  - reflexivity.
Defined.

(** ** [addItem], step by step *)

Lemma new_node_eq (it : jsobj) (s : alloc) :
  (if is_folder it then let '(i, s1) := Tree_new (Some it) s in (Tree i [], s1)
   else let '(i, s1) := Leaf_new it s in (Leaf i, s1))
  = (new_node it s, (Leaf_new it s).2).
Proof.
  unfold new_node. destruct (new_node_info it s) as (_ & _ & _ & ->).
  by destruct (is_folder it), (Leaf_new it s).
Qed.

Lemma new_node_info_of (it : jsobj) (s : alloc) :
  info_of (new_node it s) = (Leaf_new it s).1 ∧ node_children (new_node it s) = [].
Proof.
  unfold new_node. destruct (new_node_info it s) as (_ & _ & _ & ->).
  by destruct (is_folder it).
Qed.

(** What a successful [addItem] has done: it has created a node, found the
    parent Tree in the tree of the grid, pushed the node onto its children, and
    inserted the row of the node after the row that its [parentID] names; the
    row is left out only for a folder that comes to lie at depth 0. *)
Lemma addItem_inv (it : jsobj) (g : hgrid) (r : option jsobj) (g' : hgrid) :
  addItem it g = Ok (r, g') →
  ∃ r0 i cs,
    find_node r0 (tree g) = Some (Tree i cs) ∧
    (is_nullish (getp it "parentID") = true → r0 = n_ref (info_of (tree g))) ∧
    tree g' = set_children r0 (cs ++ [attach i (new_node it (ids g))]) (tree g) ∧
    ids g' = (Leaf_new it (ids g)).2 ∧
    r = getByID (Some (n_id (Leaf_new it (ids g)).1)) g' ∧
    let new := toItem (info_of (attach i (new_node it (ids g)))) in
    (dataView g' = insertItem (computeAddIdx new (dataView g)) new (dataView g) ∧
     n_dataView i = true ∨
     dataView g' = dataView g ∧ is_folder it = true ∧ n_depth i = Some (-1)).
Proof.
  unfold addItem. rewrite new_node_eq.
  destruct (new_node_info_of it (ids g)) as [Hinfo Hcs].
  set (node := new_node it (ids g)) in *. set (s1 := (Leaf_new it (ids g)).2).
  cbn [tree dataView ids].
  set (parentNode := if is_nullish (getp it "parentID") then _ else _).
  destruct parentNode as [[target|]|e] eqn:Hparent; cbn [mbind result_bind call_add]; try done.
  destruct target as [| | | |r0]; try done. cbn [tree dataView ids].
  destruct (find_node r0 (tree g)) as [[i|i cs]|] eqn:Hfind; try done.
  unfold Tree_add, push_child, insertIntoDataView.
  set (new := toItem (info_of (attach i node))).
  assert (Hdata : toData (attach i node) = DataObject new ∨
                  toData (attach i node) = DataArray [new] ∨
                  (toData (attach i node) = DataArray [] ∧ is_folder it = true ∧
                   n_depth i = Some (-1))).
  { subst new node. unfold new_node in *. destruct (is_folder it); [|by left]. right.
    cbn [attach map_info toData toData_into info_of n_depth].
    case_bool_decide as Hd; [|by left].
    right. split_and!; [done..|]. destruct (n_depth i) as [d|]; cbn [js_succ] in Hd.
    - f_equal. injection Hd as Hd. lia.
    - done. }
  intros Hrun. exists r0, i, cs. split; [done|]. split.
  { intros Hnull. subst parentNode. rewrite Hnull in Hparent. by injection Hparent as <-. }
  destruct Hdata as [Hd|[Hd|(Hd & Hfolder & Hdepth)]]; rewrite Hd in Hrun;
    cbn [insert_rows] in Hrun.
  - destruct (n_dataView i) eqn:Hdv; [|done]. cbn [mbind result_bind] in Hrun.
    injection Hrun as <- <-. cbn [tree dataView ids]. rewrite Hinfo. split_and!; try done.
    by left.
  - destruct (n_dataView i) eqn:Hdv; [|done]. cbn [mbind result_bind] in Hrun.
    injection Hrun as <- <-. cbn [tree dataView ids]. rewrite Hinfo. split_and!; try done.
    by left.
  - cbn [mbind result_bind] in Hrun.
    injection Hrun as <- <-. cbn [tree dataView ids]. rewrite Hinfo. split_and!; try done.
    by right.
Qed.

Lemma computeAddIdx_le (it : jsobj) (dv : store) : (computeAddIdx it dv ≤ length dv)%nat.
Proof.
  rewrite computeAddIdx_spec. unfold getIdxById_opt.
  destruct (getp it "parentID") as [pid|]; cbn [mbind option_bind]; [|lia].
  destruct (getIdxById pid dv) as [p|] eqn:Hp; [|lia].
  destruct (getIdxById_Some pid dv p Hp) as (parent & Hparent & _).
  apply lookup_lt_Some in Hparent. lia.
Qed.

Lemma new_row_of_item (it : jsobj) (s : alloc) (i : info) :
  let new := toItem (info_of (attach i (new_node it s))) in
  props it ⊆ props new ∧ children_of new = children_of it ∧
  (∀ k v, getp it k = Some v → getp new k = Some v) ∧
  (∀ k, getp it k = None → getp new k = getp (structural (info_of (attach i (new_node it s)))) k).
Proof.
  destruct (new_node_info_of it s) as [Hinfo _].
  destruct (new_node_info it s) as (Hdata & _).
  destruct (attach_fields i (new_node it s)) as (Ha_data & _).
  rewrite Hinfo, Hdata in Ha_data. cbn zeta. split_and!.
  - by apply props_toItem_user.
  - by apply children_toItem.
  - intros k v Hk. by eapply getp_toItem_user.
  - intros k Hk. by eapply getp_toItem_structural.
Qed.

(** X14.  A successful [addItem] adds one row to the store and no more,
    whatever nested [children] the item carries: a row with every property of
    the item, inserted without touching the other rows.  The row is visible
    unless the item itself says [_hidden], also when the folder it was added to
    is collapsed.  (The one case without a new row is a folder that comes to
    lie at depth 0.) *)
Theorem addItem_adds_one_row_at_most (it : jsobj) (g : hgrid) (r : option jsobj) (g' : hgrid) :
  addItem it g = Ok (r, g') →
  dataView g' = dataView g ∧ is_folder it = true ∨
  ∃ idx new,
    dataView g' = insertItem idx new (dataView g) ∧
    (idx ≤ length (dataView g))%nat ∧
    length (dataView g') = S (length (dataView g)) ∧
    props it ⊆ props new ∧
    children_of new = children_of it ∧
    collapseFilter new = negb (truthy_opt (getp it "_hidden")).
Proof.
  intros (r0 & i & cs & _ & _ & _ & _ & _ & [[Hdv _]|[Hdv [Hf _]]])%addItem_inv; [right|by left].
  destruct (new_row_of_item it (ids g) i) as (Hprops & Hch & Hsome & Hnone).
  set (new := toItem _) in *. pose proof (computeAddIdx_le new (dataView g)) as Hle.
  exists (computeAddIdx new (dataView g)), new. split_and!; try done.
  - rewrite Hdv. unfold insertItem. rewrite length_app. cbn [length].
    rewrite length_take, length_drop. lia.
  - unfold collapseFilter. destruct (getp it "_hidden") as [v|] eqn:Hh.
    + by rewrite (Hsome _ _ Hh).
    + rewrite (Hnone _ Hh). by rewrite getp_structural_other.
Qed.

Lemma addItem_adds_one_row_at_most_witness :
  dataView (added new_in_docs collapsed_grid).2 = dataView collapsed_grid ∧
    is_folder new_in_docs = true ∨
  ∃ idx new,
    dataView (added new_in_docs collapsed_grid).2 = insertItem idx new (dataView collapsed_grid) ∧
    (idx ≤ length (dataView collapsed_grid))%nat ∧
    length (dataView (added new_in_docs collapsed_grid).2) = S (length (dataView collapsed_grid)) ∧
    props new_in_docs ⊆ props new ∧
    children_of new = children_of new_in_docs ∧
    collapseFilter new = negb (truthy_opt (getp new_in_docs "_hidden")).
Proof.
  apply (addItem_adds_one_row_at_most new_in_docs collapsed_grid
           (added new_in_docs collapsed_grid).1 (added new_in_docs collapsed_grid).2).
  reflexivity.
Defined.

(** A file added to the collapsed docs folder is shown, while a.txt stays
    hidden. *)
Example new_file_shown_in_collapsed_docs :
  visible_names (dataView (added new_in_docs collapsed_grid).2) =
    [Some (VStr "docs"); Some (VStr "new.txt"); Some (VStr "b.txt")].
Proof. reflexivity. Qed.

(** ** When [addItem] succeeds *)

Lemma getNodeByID_ids (id : option value) (g : hgrid) (s : alloc) :
  getNodeByID id {| tree := tree g; dataView := dataView g; ids := s |} = getNodeByID id g.
Proof. done. Qed.

Lemma addItem_run (it : jsobj) (g : hgrid) (r0 : nat) (i : info) (cs : list node) :
  (if is_nullish (getp it "parentID") then Ok (Some (VNode (n_ref (info_of (tree g)))))
   else getNodeByID (getp it "parentID") g) = Ok (Some (VNode r0)) →
  find_node r0 (tree g) = Some (Tree i cs) →
  n_dataView i = true →
  (is_folder it = true → n_depth i ≠ Some (-1)) →
  let node := attach i (new_node it (ids g)) in
  let g' := {| tree := set_children r0 (cs ++ [node]) (tree g);
               dataView := insertItem (computeAddIdx (toItem (info_of node)) (dataView g))
                                      (toItem (info_of node)) (dataView g);
               ids := (Leaf_new it (ids g)).2 |} in
  addItem it g = Ok (getByID (Some (n_id (Leaf_new it (ids g)).1)) g', g').
Proof.
  intros Hparent Hfind Hdv Hdepth. cbn zeta. unfold addItem. rewrite new_node_eq.
  destruct (new_node_info_of it (ids g)) as [Hinfo Hcs].
  cbn [tree dataView ids]. rewrite getNodeByID_ids, Hparent.
  cbn [mbind result_bind call_add tree dataView ids]. rewrite Hfind.
  unfold Tree_add, push_child.
  assert (Hins : insertIntoDataView i (attach i (new_node it (ids g))) (dataView g) =
                 Ok (insertItem (computeAddIdx (toItem (info_of (attach i (new_node it (ids g)))))
                                               (dataView g))
                                (toItem (info_of (attach i (new_node it (ids g))))) (dataView g))).
  { unfold insertIntoDataView, new_node in *. destruct (is_folder it).
    - cbn [attach map_info toData toData_into info_of n_depth].
      rewrite bool_decide_eq_false_2.
      + cbn [app insert_rows]. by rewrite Hdv.
      + intros [= Hd]. apply Hdepth; [done|]. destruct (n_depth i) as [d|]; cbn [js_succ] in Hd.
        * f_equal. lia.
        * lia.
    - cbn [attach map_info toData info_of]. by rewrite Hdv. }
  rewrite Hins. cbn [mbind result_bind]. by rewrite Hinfo.
Qed.

(** ** Adding at the top level *)

Lemma find_node_self (n : node) : find_node (n_ref (info_of n)) n = Some n.
Proof. destruct n; cbn [find_node info_of]; by rewrite bool_decide_eq_true_2. Qed.

Lemma set_children_self (i : info) (cs cs' : list node) :
  set_children (n_ref i) cs' (Tree i cs) = Tree i cs'.
Proof. cbn [set_children]. by rewrite bool_decide_eq_true_2. Qed.

Lemma subtree_rows_new_node (it : jsobj) (s : alloc) (i : info) :
  (is_folder it = true → n_depth i ≠ Some (-1)) →
  subtree_rows (attach i (new_node it s)) = [toItem (info_of (attach i (new_node it s)))].
Proof.
  intros Hdepth. unfold new_node in *. destruct (is_folder it); [|done].
  cbn [attach map_info subtree_rows info_of n_depth flat_map].
  rewrite bool_decide_eq_false_2; [done|].
  intros [= Hd]. apply Hdepth; [done|]. destruct (n_depth i) as [d|]; cbn [js_succ] in Hd.
  - f_equal. lia.
  - lia.
Qed.

(** X15.  In a grid whose store lists the rows of its tree, an item added
    with [addItem] and without a [parentID] becomes the last child of the root,
    but its row becomes the first row of the store: [toData] of the tree lists
    that row last.  (No row of the store has the id [root] or null.) *)
Theorem addItem_top_level_row_first_node_last (it : jsobj) (g : hgrid)
    (root : info) (cs : list node) :
  tree g = Tree root cs →
  n_id root = ROOT_ID → n_depth root = Some 0 → n_dataView root = true →
  dataView g = toData_into (tree g) [] →
  is_nullish (getp it "parentID") = true →
  Some ROOT_ID ∉ row_ids (dataView g) →
  Some VNull ∉ row_ids (dataView g) →
  ∃ r g' node new,
    addItem it g = Ok (r, g') ∧
    tree g' = Tree root (cs ++ [node]) ∧
    n_data (info_of node) = Some it ∧
    new = toItem (info_of node) ∧
    dataView g' = new :: dataView g ∧
    toData_into (tree g') [] = dataView g ++ [new].
Proof.
  intros Htree Hid Hdepth Hdv Hsync Hnull Hno_root Hno_null.
  assert (Hdepth' : is_folder it = true → n_depth root ≠ Some (-1)) by by rewrite Hdepth.
  pose proof (addItem_run it g (n_ref root) root cs) as Hrun. cbn zeta in Hrun.
  rewrite Hnull, Htree in Hrun. cbn [info_of] in Hrun.
  specialize (Hrun eq_refl (find_node_self (Tree root cs)) Hdv Hdepth').
  rewrite set_children_self in Hrun.
  set (node := attach root (new_node it (ids g))) in *.
  set (new := toItem (info_of node)) in *.
  assert (Hidx : computeAddIdx new (dataView g) = 0%nat).
  { rewrite computeAddIdx_spec. unfold getIdxById_opt.
    destruct (new_row_of_item it (ids g) root) as (_ & _ & Hsome & Hnone). fold node new in Hsome, Hnone.
    destruct (getp it "parentID") as [pid|] eqn:Hpid.
    - destruct pid; try done. rewrite (Hsome _ _ Hpid). cbn [mbind option_bind].
      by apply getIdxById_None in Hno_null as ->.
    - rewrite (Hnone _ Hpid), getp_structural_parentID.
      destruct (attach_fields root (new_node it (ids g))) as (_ & _ & _ & Hp & _).
      fold node in Hp. rewrite Hp, Hid. cbn [mbind option_bind].
      by apply getIdxById_None in Hno_root as ->. }
  rewrite Hidx in Hrun.
  eexists _, _, node, new. split; [exact Hrun|]. cbn [tree dataView]. split_and!; try done.
  - destruct (attach_fields root (new_node it (ids g))) as (Hd & _). fold node in Hd.
    rewrite Hd. destruct (new_node_info_of it (ids g)) as [-> _].
    by destruct (new_node_info it (ids g)).
  - rewrite Hsync, Htree, !toData_into_rows. cbn [app subtree_rows].
    rewrite Hdepth, bool_decide_eq_true_2 by done. cbn [app].
    rewrite flat_map_app. cbn [flat_map]. rewrite app_nil_r. f_equal.
    by apply subtree_rows_new_node.
Qed.

Lemma addItem_top_level_row_first_node_last_witness :
  ∃ r g' node new,
    addItem new_txt scenario_grid = Ok (r, g') ∧
    tree g' = Tree (info_of scenario_tree) (node_children scenario_tree ++ [node]) ∧
    n_data (info_of node) = Some new_txt ∧
    new = toItem (info_of node) ∧
    dataView g' = new :: dataView scenario_grid ∧
    toData_into (tree g') [] = dataView scenario_grid ++ [new].
Proof.
  apply (addItem_top_level_row_first_node_last new_txt scenario_grid
           (info_of scenario_tree) (node_children scenario_tree)).
  - reflexivity.
  - reflexivity.
  - reflexivity.
  - reflexivity.
  - reflexivity.
  - reflexivity.
  - apply (bool_decide_unpack _). vm_compute. reflexivity.
  - apply (bool_decide_unpack _). vm_compute. reflexivity.
Defined.

(** In the scenario a file added at the top level is shown first, and comes
    last when the store is filled from the tree again. *)
Example top_level_file_first_then_last :
  map (λ it, getp it "name") (dataView (added new_txt scenario_grid).2) =
    [Some (VStr "new.txt"); Some (VStr "docs"); Some (VStr "a.txt"); Some (VStr "b.txt")] ∧
  map (λ it, getp it "name") (toData_into (tree (added new_txt scenario_grid).2) []) =
    [Some (VStr "docs"); Some (VStr "a.txt"); Some (VStr "b.txt"); Some (VStr "new.txt")].
Proof. split; reflexivity. Qed.

(** ** A parent that cannot take the item *)

(** X16.  [addItem] with a [parentID] other than [root] and null throws a
    TypeError when the store has no row with that id, and also when the row
    with that id is the row of a file: a Leaf has no [add] method. *)
Theorem addItem_needs_a_folder_row (it : jsobj) (g : hgrid) (pid : value) :
  getp it "parentID" = Some pid →
  pid ≠ ROOT_ID → pid ≠ VNull →
  getItemById pid (dataView g) = None ∨
  (∃ prow r i, getItemById pid (dataView g) = Some prow ∧
               getp prow "_node" = Some (VNode r) ∧
               find_node r (tree g) = Some (Leaf i)) →
  addItem it g = Err TypeError.
Proof.
  intros Hpid Hroot Hnull Hparent. unfold addItem. rewrite new_node_eq.
  cbn [tree dataView ids]. rewrite getNodeByID_ids, Hpid.
  replace (is_nullish (Some pid)) with false by by destruct pid.
  unfold getNodeByID. rewrite bool_decide_eq_false_2 by congruence.
  replace (is_nullish (Some pid)) with false by by destruct pid.
  cbn [orb]. unfold getByID. cbn [getItemById_opt mbind option_bind].
  destruct Hparent as [->|(prow & r & i & -> & Hnode & Hfind)]; [done|].
  rewrite Hnode. cbn [mbind result_bind call_add tree dataView ids]. by rewrite Hfind.
Qed.

Lemma addItem_needs_a_folder_row_witness :
  addItem new_in_b_txt scenario_grid = Err TypeError.
Proof.
  apply (addItem_needs_a_folder_row new_in_b_txt scenario_grid (VNum 2)).
  - reflexivity.
  - discriminate.
  - discriminate.
  - right. eexists _, _, _. split_and!; reflexivity.
Defined.

(** ** Files, folders and items of neither kind *)

(** X17.  An item whose [kind] is neither [file] nor [folder] (one without
    [kind], say) becomes a folder node when it is part of the hierarchy given
    to [Tree.fromObject], which makes a Leaf of a [file] and a Tree of
    anything else, and becomes a file node when it is added with [addItem],
    which makes a Tree of a [folder] and a Leaf of anything else. *)
Theorem item_of_no_kind_is_folder_or_file (it : jsobj) (s : alloc) (g : hgrid)
    (root : info) (cs : list node) :
  is_file it = false → is_folder it = false →
  tree g = Tree root cs → n_dataView root = true →
  is_nullish (getp it "parentID") = true →
  (∃ t i ics s',
     Tree_fromObject (DArr [it]) None s = Ok (Tree t [Tree i ics], s') ∧
     n_data i = Some it) ∧
  (∃ r g' i,
     addItem it g = Ok (r, g') ∧
     tree g' = Tree root (cs ++ [Leaf i]) ∧
     n_data i = Some it).
Proof.
  intros Hfile Hfolder Htree Hdv Hnull. split.
  - cbn [Tree_fromObject]. rewrite fromObject_array_eq. cbn zeta.
    rewrite fromObject_loop_cons. cbn zeta. rewrite Hfile.
    rewrite fromObject_object_eq. cbn zeta. cbn [fst snd fromObject_loop attach map_info].
    eexists _, _, _, _. split; [reflexivity|]. cbn [n_data set_depth].
    destruct (new_node_info it (Tree_new None s).2) as (Hd & _ & _ & ->). exact Hd.
  - pose proof (addItem_run it g (n_ref root) root cs) as Hrun. cbn zeta in Hrun.
    rewrite Hnull, Htree in Hrun. cbn [info_of] in Hrun.
    specialize (Hrun eq_refl (find_node_self (Tree root cs)) Hdv).
    rewrite Hfolder in Hrun. specialize (Hrun ltac:(done)).
    rewrite set_children_self in Hrun. unfold new_node in Hrun. rewrite Hfolder in Hrun.
    cbn [attach map_info] in Hrun.
    eexists _, _, _. split; [exact Hrun|]. cbn [tree]. split; [done|]. cbn [n_data].
    by destruct (new_node_info it (ids g)).
Qed.

Lemma item_of_no_kind_is_folder_or_file_witness :
  (∃ t i ics s',
     Tree_fromObject (DArr [misc_item]) None alloc0 = Ok (Tree t [Tree i ics], s') ∧
     n_data i = Some misc_item) ∧
  (∃ r g' i,
     addItem misc_item scenario_grid = Ok (r, g') ∧
     tree g' = Tree (info_of scenario_tree) (node_children scenario_tree ++ [Leaf i]) ∧
     n_data i = Some misc_item).
Proof.
  apply (item_of_no_kind_is_folder_or_file misc_item alloc0 scenario_grid
           (info_of scenario_tree) (node_children scenario_tree)); reflexivity.
Defined.

(** ** Adding a row and removing it again *)

Lemma getIdxById_insertItem_fresh (x : value) (idx : nat) (new : jsobj) (dv : store) :
  getp new "id" = Some x → Some x ∉ row_ids dv → (idx ≤ length dv)%nat →
  getIdxById x (insertItem idx new dv) = Some idx.
Proof.
  intros Hid Hfresh. unfold insertItem. revert idx.
  induction dv as [|it dv IH]; intros idx Hle.
  - cbn [length] in Hle. replace idx with 0%nat by lia. cbn [take drop app getIdxById].
    unfold has_id. by rewrite Hid, bool_decide_eq_true_2.
  - unfold row_ids in Hfresh. cbn [map] in Hfresh. apply not_elem_of_cons in Hfresh as [Hne Hfresh].
    destruct idx as [|idx]; cbn [take drop app getIdxById].
    + unfold has_id. by rewrite Hid, bool_decide_eq_true_2.
    + unfold has_id at 1. rewrite bool_decide_eq_false_2 by congruence.
      cbn [length] in Hle. rewrite IH; [done|done|lia].
Qed.

Lemma delete_insertItem (idx : nat) (new : jsobj) (dv : store) :
  (idx ≤ length dv)%nat → delete idx (insertItem idx new dv) = dv.
Proof.
  intros Hle. unfold insertItem. revert idx Hle.
  induction dv as [|it dv IH]; intros [|idx] Hle; cbn [length] in Hle; try lia; try done.
  cbn [take drop app]. cbn. f_equal. apply IH. lia.
Qed.

Lemma new_row_id (it : jsobj) (s : alloc) (i : info) :
  id_usable it = true →
  getp (toItem (info_of (attach i (new_node it s)))) "id" = Some (n_id (Leaf_new it s).1).
Proof.
  intros Hu.
  assert (Hh : holds_data id_usable (attach i (new_node it s))).
  { apply holds_data_attach, (holds_data_new id_usable it s); [done| |];
      by destruct (new_node_info_of it s) as [-> _]. }
  rewrite (toItem_id_usable _ Hh). unfold node_id.
  destruct (attach_fields i (new_node it s)) as (_ & -> & _).
  by destruct (new_node_info_of it s) as [-> _].
Qed.

(** X18.  Removing, by its id, the row that [addItem] has just added gives
    back the store as it was before the item was added, and returns the row
    that [addItem] returned; the node that [addItem] created stays in the
    tree.  (The item has no [id] or a usable one, and no row of the store had
    the id of the new node.) *)
Theorem addItem_then_removeItem (it : jsobj) (g : hgrid) (r : option jsobj) (g1 : hgrid) :
  addItem it g = Ok (r, g1) →
  id_usable it = true →
  Some (n_id (Leaf_new it (ids g)).1) ∉ row_ids (dataView g) →
  dataView g1 = dataView g ∨
  ∃ row g2,
    r = Some row ∧
    getp row "id" = Some (n_id (Leaf_new it (ids g)).1) ∧
    props it ⊆ props row ∧
    removeItem (Some (n_id (Leaf_new it (ids g)).1)) g1 = Ok (Some row, g2) ∧
    dataView g2 = dataView g ∧
    tree g2 = tree g1 ∧
    tree g2 ≠ tree g.
Proof.
  intros (r0 & i & cs & Hfind & _ & Htree & _ & Hr & [[Hdv _]|[Hdv _]])%addItem_inv Hu Hfresh;
    [right|by left].
  set (nid := n_id (Leaf_new it (ids g)).1) in *.
  set (new := toItem (info_of (attach i (new_node it (ids g))))) in *.
  pose proof (computeAddIdx_le new (dataView g)) as Hle.
  set (idx := computeAddIdx new (dataView g)) in *.
  pose proof (new_row_id it (ids g) i Hu) as Hnew_id. fold new nid in Hnew_id.
  pose proof (getIdxById_insertItem_fresh nid idx new (dataView g) Hnew_id Hfresh Hle) as Hidx.
  pose proof (insertItem_lookup_eq idx new (dataView g) Hle) as Hlook.
  rewrite <- Hdv in Hidx, Hlook.
  assert (Hget : getByID (Some nid) g1 = Some new).
  { unfold getByID. cbn [getItemById_opt mbind option_bind].
    by rewrite (getItemById_idx _ _ _ Hidx). }
  exists new, {| tree := tree g1; dataView := delete idx (dataView g1); ids := ids g1 |}.
  split_and!; try done.
  - by rewrite Hr.
  - by destruct (new_row_of_item it (ids g) i).
  - unfold removeItem, deleteItem. by rewrite Hget, Hidx.
  - cbn [dataView]. rewrite Hdv. by apply delete_insertItem.
  - cbn [tree]. intros Heq. rewrite Heq in Htree.
    pose proof (find_node_set_children r0 i cs (cs ++ [attach i (new_node it (ids g))])
                  (tree g) Hfind) as Hfind'.
    rewrite <- Htree, Hfind in Hfind'. injection Hfind' as Hcs.
    apply (f_equal length) in Hcs. rewrite length_app in Hcs. cbn [length] in Hcs. lia.
Qed.

Lemma addItem_then_removeItem_witness :
  dataView (added new_in_docs scenario_grid).2 = dataView scenario_grid ∨
  ∃ row g2,
    (added new_in_docs scenario_grid).1 = Some row ∧
    getp row "id" = Some (n_id (Leaf_new new_in_docs (ids scenario_grid)).1) ∧
    props new_in_docs ⊆ props row ∧
    removeItem (Some (n_id (Leaf_new new_in_docs (ids scenario_grid)).1))
               (added new_in_docs scenario_grid).2 = Ok (Some row, g2) ∧
    dataView g2 = dataView scenario_grid ∧
    tree g2 = tree (added new_in_docs scenario_grid).2 ∧
    tree g2 ≠ tree scenario_grid.
Proof.
  apply (addItem_then_removeItem new_in_docs scenario_grid
           (added new_in_docs scenario_grid).1 (added new_in_docs scenario_grid).2).
  - reflexivity.
  - reflexivity.
  - apply (bool_decide_unpack _). vm_compute. reflexivity.
Defined.

(** ** Filling the store from the tree again *)

Lemma set_dataView_same (i : info) : n_dataView i = true → set_dataView true i = i.
Proof. destruct i. cbn. by intros ->. Qed.

Lemma ensureDataView_same (n : node) :
  ∀ b, Forall (λ m, n_dataView (info_of m) = true) (subnodes n) → ensureDataView n b = n.
Proof.
  induction n as [i|i cs IH] using node_ind; intros b; cbn [subnodes ensureDataView];
    intros [Htop Hrest]%Forall_cons; cbn [info_of] in Htop; rewrite Htop;
    replace (if b then b else true) with true by (by destruct b);
    rewrite (set_dataView_same i Htop); [done|].
  f_equal. rewrite <- (map_id cs) at 2. apply map_ext_in. intros c Hc%list_elem_of_In.
  rewrite Forall_forall in IH. apply IH; [done|]. rewrite Forall_forall in Hrest |- *.
  intros m Hm. apply Hrest. apply elem_of_flat_map. eauto.
Qed.

(** X19.  [removeItem] takes a row out of the store and leaves the Tree and
    Leaf objects alone, so the next [updateDataView] on the root puts the row
    back: in a grid whose store lists the rows of its tree, with pairwise
    distinct ids, the store has no row with the removed id after [removeItem],
    and the store after [removeItem] and [updateDataView] is the store before
    them. *)
Theorem removed_row_returns_on_updateDataView (id : option value) (g : hgrid)
    (it : option jsobj) (g' : hgrid) :
  removeItem id g = Ok (it, g') →
  is_tree (tree g) = true →
  Forall (λ m, n_dataView (info_of m) = true) (subnodes (tree g)) →
  dataView g = toData_into (tree g) [] →
  NoDup (row_ids (dataView g)) →
  S (length (dataView g')) = length (dataView g) ∧
  (id ∉ row_ids (dataView g')) ∧
  updateDataView (tree g') (dataView g') = Ok (tree g, dataView g).
Proof.
  intros Hrun Htree Hall Hsync Hnd. unfold removeItem in Hrun.
  destruct id as [x|]; [|done]. unfold deleteItem in Hrun.
  destruct (getIdxById x (dataView g)) as [k|] eqn:Hk; [|done].
  cbn [mbind result_bind] in Hrun. injection Hrun as _ <-. cbn [tree dataView].
  destruct (getIdxById_Some x (dataView g) k Hk) as (row & Hrow & Hid). split_and!.
  - rewrite length_delete by eauto. apply lookup_lt_Some in Hrow. lia.
  - rewrite row_ids_delete. apply NoDup_delete_gone; [done|].
    rewrite <- Hid. by apply row_ids_lookup.
  - destruct (tree g) as [i|i cs] eqn:Ht; [done|]. cbn [updateDataView].
    pose proof Hall as [Htop _]%Forall_cons. cbn [info_of] in Htop. rewrite Htop.
    rewrite (ensureDataView_same _ false Hall). cbn [setItems]. by rewrite Hsync.
Qed.

Lemma removed_row_returns_on_updateDataView_witness :
  S (length (dataView (removed (Some docs_id) scenario_grid).2)) =
    length (dataView scenario_grid) ∧
  (Some docs_id ∉ row_ids (dataView (removed (Some docs_id) scenario_grid).2)) ∧
  updateDataView (tree (removed (Some docs_id) scenario_grid).2)
                 (dataView (removed (Some docs_id) scenario_grid).2)
    = Ok (tree scenario_grid, dataView scenario_grid).
Proof.
  apply (removed_row_returns_on_updateDataView (Some docs_id) scenario_grid
           (removed (Some docs_id) scenario_grid).1 (removed (Some docs_id) scenario_grid).2).
  - reflexivity.
  - reflexivity.
  - apply (bool_decide_unpack _). vm_compute. reflexivity.
  - reflexivity.
  - apply (bool_decide_unpack _). vm_compute. reflexivity.
Defined.

(** ** Where a drag-move puts the rows *)




Section move_order.

Variables (G : jsobj) (gid : value) (r : nat) (i : info) (p : nat).

Hypothesis G_id : getp G "id" = Some gid.

Hypothesis gid_not_root : gid ≠ ROOT_ID.

Hypothesis gid_not_null : gid ≠ VNull.

Hypothesis G_node : getp G "_node" = Some (VNode r).

Hypothesis i_dataView : n_dataView i = true.

Hypothesis i_depth : n_depth i ≠ Some (-1).



End move_order.


